(** * Snake Master: the simulation core of [snake_game.py]

    A shallow embedding of the simulation logic of the game (classes
    [Snake], [Food], [PowerUpManager], [HighScoreManager] and the
    methods [reset_game], [respawn_food] and [update] of [Game]),
    followed by the properties of the specification that were checked
    against it. The menu, the key presses of [handle_events] and the main
    loop [run] are embedded after the simulation, with further properties
    of the code at the end.

    Conventions of the embedding.
    - Grid cells are pairs of integers ([Z * Z]).
    - Python floats (timestamps, durations, multipliers) are rationals
      ([Q]): every float constant of the source (0.5, 1.0, 1.5, 2.0, 5.0,
      10.0, 15.0) is exactly representable and the properties below only
      use comparisons and assignments of such values.
    - A Python exception is the outcome [Raise]. The random draws a
      computation may use are handed to it as a finite list; the outcome
      [Starved] says that the list was used up and the computation is still
      running (the [while True] loop of [respawn_food] asks for one more).
    - The roster [self.snakes] is a list of snakes; the snapshot
      [alive_snakes] is a list of references into it, that is, a list of
      indices: a loop over the snapshot reads and writes the roster.
    - [random] is an oracle: the draws of [Food.generate_position] are a
      list of cells, the draws of [spawn_powerup] a type and a cell.
    - Rendering, sound, particles and the file behind the high scores are
      left out: they neither read nor write the simulation state modelled
      here. The [controls] of a snake are kept beside the roster, since the
      simulation does not read them. *)

From Stdlib Require Import ZArith QArith Qround String List Bool Lia Lqa.
From stdpp Require Import base decidable countable gmap list pretty.

Local Open Scope Z_scope.

(** ** Outcomes of a computation *)

Inductive exn : Type :=
| IndexError
| ValueError
| ZeroDivisionError.

Inductive result (A : Type) : Type :=
| Ok (a : A)
| Raise (e : exn)
| Starved.

Arguments Ok {A} a.
Arguments Raise {A} e.
Arguments Starved {A}.

#[global] Instance result_ret : MRet result := fun A a => Ok a.

#[global] Instance result_bind : MBind result := fun A B f m =>
  match m with
  | Ok a => f a
  | Raise e => Raise e
  | Starved => Starved
  end.

(** [for x in l: body], threading the state through the rounds. *)
Fixpoint for_each {A St : Type} (body : A -> St -> result St) (l : list A)
    (st : St) : result St :=
  match l with
  | [] => Ok st
  | x :: rest => st ← body x st; for_each body rest st
  end.

(** ** Constants and enumerations (lines 16-61 of the source) *)

Definition WINDOW_WIDTH : Z := 1200.
Definition WINDOW_HEIGHT : Z := 800.
Definition GRID_SIZE : Z := 20.
Definition GRID_WIDTH : Z := WINDOW_WIDTH / GRID_SIZE.
Definition GRID_HEIGHT : Z := WINDOW_HEIGHT / GRID_SIZE.

Definition Pos : Type := Z * Z.

Definition pos_eqb (p q : Pos) : bool :=
  (fst p =? fst q) && (snd p =? snd q).

(** [p in l] on a list of cells. *)
Definition mem_pos (p : Pos) (l : list Pos) : bool := existsb (pos_eqb p) l.

Inductive GameState : Type :=
| MENU | PLAYING | PAUSED | GAME_OVER | HIGH_SCORES | SETTINGS.

Inductive Difficulty : Type := EASY | MEDIUM | HARD.

Definition speed (d : Difficulty) : Z :=
  match d with EASY => 8 | MEDIUM => 12 | HARD => 18 end.

Definition multiplier (d : Difficulty) : Q :=
  match d with EASY => 1 | MEDIUM => 3 # 2 | HARD => 2 end.

Definition powerups (d : Difficulty) : bool :=
  match d with EASY => true | MEDIUM => true | HARD => false end.

Inductive PowerUpType : Type :=
| SPEED_BOOST | SLOW_DOWN | DOUBLE_POINTS | SHRINK | WALL_PHASE | MULTIPLIER.

#[global] Instance PowerUpType_eq_dec : EqDecision PowerUpType.
Proof. solve_decision. Defined.

#[global] Instance PowerUpType_countable : Countable PowerUpType.
Proof.
  refine (inj_countable'
    (fun t => match t with
              | SPEED_BOOST => 0 | SLOW_DOWN => 1 | DOUBLE_POINTS => 2
              | SHRINK => 3 | WALL_PHASE => 4 | MULTIPLIER => 5
              end%nat)
    (fun n => match n with
              | 0 => SPEED_BOOST | 1 => SLOW_DOWN | 2 => DOUBLE_POINTS
              | 3 => SHRINK | 4 => WALL_PHASE | _ => MULTIPLIER
              end%nat) _).
  intros []; reflexivity.
Defined.

(** [list(PowerUpType)], in declaration order. *)
Definition powerup_types : list PowerUpType :=
  [SPEED_BOOST; SLOW_DOWN; DOUBLE_POINTS; SHRINK; WALL_PHASE; MULTIPLIER].

Definition Color : Type := (Z * Z * Z)%type.

Record PowerUp : Type := mkPowerUp {
  pu_type : PowerUpType;
  pu_position : Pos;
  pu_duration : Q;
  pu_spawn_time : Q;
  pu_color : Color }.

(** Strict comparison of floats. *)
Definition Qlt_bool (a b : Q) : bool := negb (Qle_bool b a).

(** [int(x)] of a float: truncation towards zero. *)
Definition py_int (x : Q) : Z := Z.quot (Qnum x) (Zpos (Qden x)).

(** ** class Snake (lines 145-254) *)

Record Snake : Type := mkSnake {
  player_id : Z;
  positions : list Pos;
  direction : Pos;
  grow_pending : Z;
  score : Z;
  alive : bool;
  power_ups : gmap PowerUpType Q;
  invulnerable_time : Q;
  speed_multiplier : Q;
  wall_phase : bool }.

Definition set_positions (v : list Pos) (s : Snake) : Snake :=
  mkSnake (player_id s) v (direction s) (grow_pending s) (score s) (alive s)
    (power_ups s) (invulnerable_time s) (speed_multiplier s) (wall_phase s).

Definition set_direction (v : Pos) (s : Snake) : Snake :=
  mkSnake (player_id s) (positions s) v (grow_pending s) (score s) (alive s)
    (power_ups s) (invulnerable_time s) (speed_multiplier s) (wall_phase s).

Definition set_grow_pending (v : Z) (s : Snake) : Snake :=
  mkSnake (player_id s) (positions s) (direction s) v (score s) (alive s)
    (power_ups s) (invulnerable_time s) (speed_multiplier s) (wall_phase s).

Definition set_score (v : Z) (s : Snake) : Snake :=
  mkSnake (player_id s) (positions s) (direction s) (grow_pending s) v (alive s)
    (power_ups s) (invulnerable_time s) (speed_multiplier s) (wall_phase s).

Definition set_alive (v : bool) (s : Snake) : Snake :=
  mkSnake (player_id s) (positions s) (direction s) (grow_pending s) (score s) v
    (power_ups s) (invulnerable_time s) (speed_multiplier s) (wall_phase s).

Definition set_power_ups (v : gmap PowerUpType Q) (s : Snake) : Snake :=
  mkSnake (player_id s) (positions s) (direction s) (grow_pending s) (score s)
    (alive s) v (invulnerable_time s) (speed_multiplier s) (wall_phase s).

Definition set_invulnerable_time (v : Q) (s : Snake) : Snake :=
  mkSnake (player_id s) (positions s) (direction s) (grow_pending s) (score s)
    (alive s) (power_ups s) v (speed_multiplier s) (wall_phase s).

Definition set_speed_multiplier (v : Q) (s : Snake) : Snake :=
  mkSnake (player_id s) (positions s) (direction s) (grow_pending s) (score s)
    (alive s) (power_ups s) (invulnerable_time s) v (wall_phase s).

Definition set_wall_phase (v : bool) (s : Snake) : Snake :=
  mkSnake (player_id s) (positions s) (direction s) (grow_pending s) (score s)
    (alive s) (power_ups s) (invulnerable_time s) (speed_multiplier s) v.

(** [Snake.__init__]: one cell, heading right, nothing pending. *)
Definition Snake_init (pid : Z) (start_pos : Pos) : Snake :=
  {| player_id := pid;
     positions := [start_pos];
     direction := (1, 0);
     grow_pending := 0;
     score := 0;
     alive := true;
     power_ups := ∅;
     invulnerable_time := 0;
     speed_multiplier := 1;
     wall_phase := false |}.

(** [Snake.remove_power_up] *)
Definition remove_power_up (t : PowerUpType) (s : Snake) : Snake :=
  match power_ups s !! t with
  | None => s
  | Some _ =>
      let s := set_power_ups (delete t (power_ups s)) s in
      match t with
      | SPEED_BOOST => set_speed_multiplier 1 s
      | SLOW_DOWN => set_speed_multiplier 1 s
      | WALL_PHASE => set_wall_phase false s
      | _ => s
      end
  end.

(** [Snake.update], without the trail particles: the power-ups whose end
    time has passed are collected first and removed afterwards, then the
    invulnerability is counted down. The removals of different types write
    different keys and constants, so the order of the dictionary does not
    show in the result. *)
Definition expired_powerups (current_time : Q) (s : Snake) : list PowerUpType :=
  List.map fst
    (List.filter (fun item => Qlt_bool (snd item) current_time)
       (map_to_list (power_ups s))).

Definition Snake_update (dt current_time : Q) (s : Snake) : Snake :=
  let s := foldl (fun s t => remove_power_up t s) s (expired_powerups current_time s) in
  if Qlt_bool 0 (invulnerable_time s)
  then set_invulnerable_time (invulnerable_time s - dt)%Q s
  else s.

(** [Snake.change_direction] *)
Definition change_direction (d : Pos) (s : Snake) : Snake :=
  if pos_eqb (fst d * -1, snd d * -1) (direction s) then s
  else set_direction d s.

(** [Snake.grow] *)
Definition grow (amount : Z) (s : Snake) : Snake :=
  set_grow_pending (grow_pending s + amount) s.

(** [Snake.add_power_up]: [len(positions)//2] is a floor division of a
    length, [positions[:n]] the first [n] cells. *)
Definition add_power_up (t : PowerUpType) (duration current_time : Q)
    (s : Snake) : Snake :=
  let s := set_power_ups (<[t := (current_time + duration)%Q]> (power_ups s)) s in
  match t with
  | SPEED_BOOST => set_speed_multiplier 2 s
  | SLOW_DOWN => set_speed_multiplier (1 # 2) s
  | SHRINK =>
      if (3 <? length (positions s))%nat
      then set_positions (take (length (positions s) / 2)%nat (positions s)) s
      else s
  | WALL_PHASE => set_invulnerable_time 2 (set_wall_phase true s)
  | _ => s
  end.

(** ** class Food (lines 288-299) *)

Record Food : Type := mkFood {
  food_position : Pos;
  food_value : Z }.

(** [Food.__init__]: the position is one draw of [generate_position]. *)
Definition Food_init (draws : list Pos) : result (Food * list Pos) :=
  match draws with
  | [] => Starved
  | p :: rest => Ok (mkFood p 10, rest)
  end.

(** ** class PowerUpManager (lines 313-361) *)

Record PowerUpManager : Type := mkPowerUpManager {
  active_powerups : list PowerUp;
  spawn_timer : Q;
  spawn_interval : Q }.

Definition PowerUpManager_init : PowerUpManager :=
  {| active_powerups := []; spawn_timer := 0; spawn_interval := 10 |}.

Definition YELLOW : Color := (255, 255, 0).
Definition BLUE : Color := (0, 0, 255).
Definition PURPLE : Color := (255, 0, 255).
Definition ORANGE : Color := (255, 165, 0).
Definition CYAN : Color := (0, 255, 255).
Definition PINK : Color := (255, 192, 203).

Definition color_map (t : PowerUpType) : Color :=
  match t with
  | SPEED_BOOST => YELLOW
  | SLOW_DOWN => BLUE
  | DOUBLE_POINTS => PURPLE
  | SHRINK => ORANGE
  | WALL_PHASE => CYAN
  | MULTIPLIER => PINK
  end.

(** [PowerUpManager.spawn_powerup]: [choice] is the result of
    [random.choice(powerup_types)] and [position] the pair of the two
    [random.randint] draws. *)
Definition spawn_powerup (choice : PowerUpType) (position : Pos)
    (current_time : Q) (pm : PowerUpManager) : PowerUpManager :=
  let powerup :=
    {| pu_type := choice;
       pu_position := position;
       pu_duration := 5;
       pu_spawn_time := current_time;
       pu_color := color_map choice |} in
  {| active_powerups := active_powerups pm ++ [powerup];
     spawn_timer := spawn_timer pm;
     spawn_interval := spawn_interval pm |}.

(** [PowerUpManager.update] *)
Definition PowerUpManager_update (dt current_time : Q)
    (choice : PowerUpType) (position : Pos) (pm : PowerUpManager)
    : PowerUpManager :=
  let timer := (spawn_timer pm + dt)%Q in
  let kept :=
    List.filter (fun p => Qlt_bool (current_time - pu_spawn_time p)%Q 15)
      (active_powerups pm) in
  let pm :=
    {| active_powerups := kept;
       spawn_timer := timer;
       spawn_interval := spawn_interval pm |} in
  if Qlt_bool (spawn_interval pm) (spawn_timer pm)
     && (length (active_powerups pm) <? 3)%nat
  then
    let pm := spawn_powerup choice position current_time pm in
    {| active_powerups := active_powerups pm;
       spawn_timer := 0;
       spawn_interval := spawn_interval pm |}
  else pm.

(** [PowerUpManager.check_collision] on the list of active power-ups: the
    first power-up at [snake_pos] is taken out of the list and returned. *)
Fixpoint check_collision (snake_pos : Pos) (l : list PowerUp)
    : option PowerUp * list PowerUp :=
  match l with
  | [] => (None, [])
  | powerup :: rest =>
      if pos_eqb (pu_position powerup) snake_pos
      then (Some powerup, rest)
      else
        let '(found, rest') := check_collision snake_pos rest in
        (found, powerup :: rest')
  end.

(** ** class HighScoreManager (lines 380-405) *)

Inductive Mode : Type := single | multi.

Record ScoreEntry : Type := mkScoreEntry {
  entry_name : string;
  entry_score : Z;
  entry_time : Q }.

Record HighScoreManager : Type := mkHighScoreManager {
  high_scores_single : list ScoreEntry;
  high_scores_multi : list ScoreEntry }.

(** [list.sort(key=score, reverse=True)]: a stable sort, greatest score
    first; among equal scores the earlier entry stays first. *)
Fixpoint insert_desc (e : ScoreEntry) (l : list ScoreEntry) : list ScoreEntry :=
  match l with
  | [] => [e]
  | x :: rest =>
      if entry_score e <? entry_score x
      then x :: insert_desc e rest
      else e :: l
  end.

Definition sort_desc (l : list ScoreEntry) : list ScoreEntry :=
  foldr insert_desc [] l.

(** [HighScoreManager.add_score]; [stamp] is the [time.time()] read there. *)
Definition add_score (sc : Z) (player_name : string) (mode : Mode) (stamp : Q)
    (h : HighScoreManager) : HighScoreManager :=
  let top l := take 10 (sort_desc (l ++ [mkScoreEntry player_name sc stamp])) in
  match mode with
  | single => mkHighScoreManager (top (high_scores_single h)) (high_scores_multi h)
  | multi => mkHighScoreManager (high_scores_single h) (top (high_scores_multi h))
  end.

(** [max(l, key=...)] of Python: the first element that no later element
    exceeds; [ValueError] on an empty sequence. *)
Fixpoint max_from {A : Type} (gtb : A -> A -> bool) (best : A) (l : list A) : A :=
  match l with
  | [] => best
  | x :: rest => max_from gtb (if gtb x best then x else best) rest
  end.

Definition py_max {A : Type} (gtb : A -> A -> bool) (l : list A) : result A :=
  match l with
  | [] => Raise ValueError
  | x :: rest => Ok (max_from gtb x rest)
  end.

(** ** class Game (lines 457-532 and 590-687) *)

Record Game : Type := mkGame {
  state : GameState;
  difficulty : Difficulty;
  multiplayer : bool;
  high_score_manager : HighScoreManager;
  powerup_manager : PowerUpManager;
  snakes : list Snake;
  food : Food;
  last_update_time : Q;
  move_timer : Q }.

Definition set_state (v : GameState) (g : Game) : Game :=
  mkGame v (difficulty g) (multiplayer g) (high_score_manager g)
    (powerup_manager g) (snakes g) (food g) (last_update_time g) (move_timer g).

Definition set_multiplayer (v : bool) (g : Game) : Game :=
  mkGame (state g) (difficulty g) v (high_score_manager g)
    (powerup_manager g) (snakes g) (food g) (last_update_time g) (move_timer g).

Definition set_high_score_manager (v : HighScoreManager) (g : Game) : Game :=
  mkGame (state g) (difficulty g) (multiplayer g) v
    (powerup_manager g) (snakes g) (food g) (last_update_time g) (move_timer g).

Definition set_powerup_manager (v : PowerUpManager) (g : Game) : Game :=
  mkGame (state g) (difficulty g) (multiplayer g) (high_score_manager g)
    v (snakes g) (food g) (last_update_time g) (move_timer g).

Definition set_snakes (v : list Snake) (g : Game) : Game :=
  mkGame (state g) (difficulty g) (multiplayer g) (high_score_manager g)
    (powerup_manager g) v (food g) (last_update_time g) (move_timer g).

Definition set_food (v : Food) (g : Game) : Game :=
  mkGame (state g) (difficulty g) (multiplayer g) (high_score_manager g)
    (powerup_manager g) (snakes g) v (last_update_time g) (move_timer g).

Definition set_last_update_time (v : Q) (g : Game) : Game :=
  mkGame (state g) (difficulty g) (multiplayer g) (high_score_manager g)
    (powerup_manager g) (snakes g) (food g) v (move_timer g).

Definition set_move_timer (v : Q) (g : Game) : Game :=
  mkGame (state g) (difficulty g) (multiplayer g) (high_score_manager g)
    (powerup_manager g) (snakes g) (food g) (last_update_time g) v.

(** [food.position in snake.positions] for some snake of the roster. *)
Definition occupied (p : Pos) (ss : list Snake) : bool :=
  existsb (fun snake => mem_pos p (positions snake)) ss.

(** [Game.respawn_food]: each round of the [while True] loop takes one draw
    of [generate_position], stores it in the food, and leaves the loop when
    no snake of the roster holds that cell. *)
Fixpoint respawn_food (draws : list Pos) (g : Game) : result (Game * list Pos) :=
  match draws with
  | [] => Starved
  | p :: rest =>
      let g := set_food (mkFood p (food_value (food g))) g in
      if occupied (food_position (food g)) (snakes g)
      then respawn_food rest g
      else Ok (g, rest)
  end.

Section Grid.

(** The grid is [W] cells wide and [H] cells high; the source fixes
    [W = GRID_WIDTH] and [H = GRID_HEIGHT]. *)
Variables W H : Z.

Definition off_grid (p : Pos) : bool :=
  (fst p <? 0) || (W <=? fst p) || (snd p <? 0) || (H <=? snd p).

(** The end of [Snake.move], from the self-collision test on. *)
Definition move_to (new_head : Pos) (s : Snake) : Snake * bool :=
  if Qle_bool (invulnerable_time s) 0 && mem_pos new_head (positions s)
  then (set_alive false s, false)
  else
    let ps := new_head :: positions s in
    if 0 <? grow_pending s
    then (set_grow_pending (grow_pending s - 1) (set_positions ps s), true)
    else (set_positions (removelast ps) s, true).

(** [Snake.move] *)
Definition move (s : Snake) : result (Snake * bool) :=
  if negb (alive s) then Ok (s, true)
  else
    match positions s with
    | [] => Raise IndexError
    | (head_x, head_y) :: _ =>
        let new_head := (head_x + fst (direction s), head_y + snd (direction s)) in
        if negb (wall_phase s)
        then
          if off_grid new_head
          then Ok (set_alive false s, false)
          else Ok (move_to new_head s)
        else Ok (move_to (fst new_head mod W, snd new_head mod H) s)
    end.

(** [Game.reset_game]: a fresh roster, a fresh food and power-up manager,
    then [respawn_food] so that the food is off the snakes. *)
Definition reset_game (draws : list Pos) (g : Game) : result (Game * list Pos) :=
  let snake1 := Snake_init 1 (W / 4, H / 2) in
  let roster :=
    if multiplayer g
    then [snake1; set_direction (-1, 0) (Snake_init 2 (3 * W / 4, H / 2))]
    else [snake1] in
  let g := set_snakes roster g in
  '(new_food, draws) ← Food_init draws;
  let g := set_food new_food g in
  let g := set_powerup_manager PowerUpManager_init g in
  let g := set_move_timer 0 g in
  respawn_food draws g.

(** *** The simulation tick (lines 613-684)

    [alive_snakes = [s for s in self.snakes if s.alive]] holds references to
    the snakes of the roster: here, their indices. *)
Definition alive_snakes (ss : list Snake) : list nat :=
  List.filter
    (fun i => match ss !! i with Some s => alive s | None => false end)
    (seq 0 (length ss)).

(** Lines 618-631, the body of the movement loop for the snake at index
    [i] of the roster (the sound and the particles of a death are not
    modelled, so the answer of [move] is dropped). *)
Definition move_at (i : nat) (ss : list Snake) : result (list Snake) :=
  match ss !! i with
  | None => Ok ss
  | Some snake =>
      '(snake, _) ← move snake;
      Ok (<[i := snake]> ss)
  end.

Definition move_snakes (snapshot : list nat) (ss : list Snake)
    : result (list Snake) :=
  for_each move_at snapshot ss.

(** Lines 637-641: the points for the food, doubled under the double-points
    power-up. *)
Definition food_points (g : Game) (snake : Snake) : Z :=
  let points :=
    py_int (inject_Z (food_value (food g)) * multiplier (difficulty g))%Q in
  match power_ups snake !! DOUBLE_POINTS with
  | Some _ => points * 2
  | None => points
  end.

(** Lines 635-657, the body of the food loop for the snake at index [i]. *)
Definition check_food (i : nat) (st : Game * list Pos) : result (Game * list Pos) :=
  let '(g, draws) := st in
  match snakes g !! i with
  | None => Ok (g, draws)
  | Some snake =>
      match positions snake with
      | [] => Raise IndexError
      | head :: _ =>
          if pos_eqb head (food_position (food g))
          then
            let snake := grow 2 snake in
            let snake := set_score (score snake + food_points g snake) snake in
            respawn_food draws (set_snakes (<[i := snake]> (snakes g)) g)
          else Ok (g, draws)
      end
  end.

(** Lines 634-657: the food loop over the snapshot. *)
Definition food_collisions (snapshot : list nat) (draws : list Pos) (g : Game)
    : result (Game * list Pos) :=
  for_each check_food snapshot (g, draws).

(** Lines 662-665, the body of the power-up loop for the snake at [i]. *)
Definition check_powerup (current_time : Q) (i : nat) (g : Game) : result Game :=
  match snakes g !! i with
  | None => Ok g
  | Some snake =>
      match positions snake with
      | [] => Raise IndexError
      | head :: _ =>
          let pm := powerup_manager g in
          match check_collision head (active_powerups pm) with
          | (Some powerup, remaining) =>
              let pm := mkPowerUpManager remaining (spawn_timer pm) (spawn_interval pm) in
              let snake :=
                add_power_up (pu_type powerup) (pu_duration powerup) current_time snake in
              Ok (set_snakes (<[i := snake]> (snakes g)) (set_powerup_manager pm g))
          | (None, _) => Ok g
          end
      end
  end.

(** Lines 660-665. *)
Definition powerup_collisions (current_time : Q) (snapshot : list nat) (g : Game)
    : result Game :=
  if powerups (difficulty g)
  then for_each (check_powerup current_time) snapshot g
  else Ok g.

(** Lines 671-674, for [snake1] at index [a] and [snake2] at index [b] of
    the roster (the caller has checked [i != j]). *)
Definition collide (a b : nat) (ss : list Snake) : result (list Snake) :=
  match ss !! a, ss !! b with
  | Some snake1, Some snake2 =>
      if Qle_bool (invulnerable_time snake1) 0
      then
        match positions snake1 with
        | [] => Raise IndexError
        | head :: _ =>
            if mem_pos head (positions snake2)
            then Ok (<[a := set_alive false snake1]> ss)
            else Ok ss
        end
      else Ok ss
  | _, _ => Ok ss
  end.

(** [enumerate(l)] *)
Definition enumerate {A : Type} (l : list A) : list (nat * A) :=
  combine (seq 0 (length l)) l.

(** Lines 669-674: the two nested loops over [enumerate(alive_snakes)]. *)
Definition collide_pair (ia jb : nat * nat) (ss : list Snake) : result (list Snake) :=
  if (fst ia =? fst jb)%nat then Ok ss else collide (snd ia) (snd jb) ss.

Definition collide_all (snapshot : list nat) (ss : list Snake) : result (list Snake) :=
  for_each (fun ia => for_each (collide_pair ia) (enumerate snapshot))
    (enumerate snapshot) ss.

(** Lines 667-674. *)
Definition snake_collisions (snapshot : list nat) (g : Game) : result Game :=
  if multiplayer g && (1 <? length snapshot)%nat
  then
    ss ← collide_all snapshot (snakes g);
    Ok (set_snakes ss g)
  else Ok g.

(** Lines 676-684; [stamp] is the clock read by [add_score]. *)
Definition check_game_over (stamp : Q) (g : Game) : result Game :=
  if negb (existsb alive (snakes g))
  then
    let g := set_state GAME_OVER g in
    if multiplayer g
    then
      winner ← py_max (fun s best => score best <? score s) (snakes g);
      Ok (set_high_score_manager
            (add_score (score winner) ("Player " +:+ pretty (player_id winner))
               multi stamp (high_score_manager g)) g)
    else
      match snakes g with
      | [] => Raise IndexError
      | snake :: _ =>
          Ok (set_high_score_manager
                (add_score (score snake) "Player" single stamp
                   (high_score_manager g)) g)
      end
  else Ok g.

(** What one call of [update] reads from outside: the clock, the draws a
    power-up spawn would make, and the clock read by [add_score]. *)
Record Frame : Type := mkFrame {
  frame_time : Q;
  frame_choice : PowerUpType;
  frame_cell : Pos;
  frame_stamp : Q }.

(** Lines 614-684: one tick, run when the move timer has reached the move
    interval. *)
Definition tick (f : Frame) (draws : list Pos) (g : Game)
    : result (Game * list Pos) :=
  let g := set_move_timer 0 g in
  let snapshot := alive_snakes (snakes g) in
  ss ← move_snakes snapshot (snakes g);
  let g := set_snakes ss g in
  '(g, draws) ← food_collisions snapshot draws g;
  g ← powerup_collisions (frame_time f) snapshot g;
  g ← snake_collisions snapshot g;
  g ← check_game_over (frame_stamp f) g;
  Ok (g, draws).

(** [Game.update] (lines 590-687), without the particles and the pulse of
    the food. *)
Definition update (f : Frame) (draws : list Pos) (g : Game)
    : result (Game * list Pos) :=
  let current_time := frame_time f in
  let dt := (current_time - last_update_time g)%Q in
  let g := set_last_update_time current_time g in
  match state g with
  | PLAYING =>
      let g := set_snakes (List.map (Snake_update dt current_time) (snakes g)) g in
      let g :=
        if powerups (difficulty g)
        then set_powerup_manager
               (PowerUpManager_update dt current_time (frame_choice f)
                  (frame_cell f) (powerup_manager g)) g
        else g in
      fastest ← py_max (fun x best => Qlt_bool best x)
                  (List.map speed_multiplier (List.filter alive (snakes g)));
      let pace := (inject_Z (speed (difficulty g)) * fastest)%Q in
      if Qeq_bool pace 0 then Raise ZeroDivisionError
      else
        let move_interval := (1 / pace)%Q in
        let g := set_move_timer (move_timer g + dt)%Q g in
        if Qle_bool move_interval (move_timer g)
        then tick f draws g
        else Ok (g, draws)
  | _ => Ok (g, draws)
  end.

(** [n] calls of [move] in a row, with their answers. *)
Fixpoint advances (n : nat) (s : Snake) : result (Snake * list bool) :=
  match n with
  | O => Ok (s, [])
  | S n =>
      '(s, survived) ← move s;
      '(s, answers) ← advances n s;
      Ok (s, survived :: answers)
  end.

(** *** The states the program runs in

    [Game.__init__] and every restart end in [reset_game]; after that the
    state only changes through [update] (the clock, the snakes' timers, the
    power-up manager, the move timer and the tick) and through
    [handle_events] (the state of the match and [change_direction]).
    [reachable] closes the results of [reset_game] under each of these
    steps taken alone, which covers every interleaving the program has. *)
Inductive reachable : Game -> Prop :=
| reach_reset g draws g' draws' :
    reset_game draws g = Ok (g', draws') -> reachable g'
| reach_state g st :
    reachable g -> reachable (set_state st g)
| reach_clock g t :
    reachable g -> reachable (set_last_update_time t g)
| reach_timer g t :
    reachable g -> reachable (set_move_timer t g)
| reach_snake_update g dt t :
    reachable g ->
    reachable (set_snakes (List.map (Snake_update dt t) (snakes g)) g)
| reach_powerups g dt t choice cell :
    reachable g ->
    reachable (set_powerup_manager
                 (PowerUpManager_update dt t choice cell (powerup_manager g)) g)
| reach_steer g i snake d :
    reachable g -> snakes g !! i = Some snake ->
    reachable (set_snakes (<[i := change_direction d snake]> (snakes g)) g)
| reach_tick g f draws g' draws' :
    reachable g -> tick f draws g = Ok (g', draws') -> reachable g'.

(** *** Step 3 of the specified tick, in the words of the specification

    "For each agent still alive after step 2, check food pickup: head cell
    equals Food position -> grow(2), award floor(food.value x
    difficulty.multiplier) points, doubled again if the agent's double-points
    effect is active, respawn Food at a new free cell." *)
Definition spec_pickup (i : nat) (st : Game * list Pos) : result (Game * list Pos) :=
  let '(g, draws) := st in
  match snakes g !! i with
  | None => Ok (g, draws)
  | Some agent =>
      if bool_decide (head (positions agent) = Some (food_position (food g)))
      then
        let award :=
          Qfloor (inject_Z (food_value (food g)) * multiplier (difficulty g))%Q in
        let award :=
          if bool_decide (is_Some (power_ups agent !! DOUBLE_POINTS))
          then 2 * award else award in
        let agent := set_score (score agent + award) (grow 2 agent) in
        respawn_food draws (set_snakes (<[i := agent]> (snakes g)) g)
      else Ok (g, draws)
  end.

Definition spec_food_step (draws : list Pos) (g : Game) : result (Game * list Pos) :=
  for_each spec_pickup (alive_snakes (snakes g)) (g, draws).

(** The tick with its food loop replaced by step 3 of the specification. *)
Definition tick_with_spec_pickup (f : Frame) (draws : list Pos) (g : Game)
    : result (Game * list Pos) :=
  let g := set_move_timer 0 g in
  let snapshot := alive_snakes (snakes g) in
  ss ← move_snakes snapshot (snakes g);
  let g := set_snakes ss g in
  '(g, draws) ← spec_food_step draws g;
  g ← powerup_collisions (frame_time f) snapshot g;
  g ← snake_collisions snapshot g;
  g ← check_game_over (frame_stamp f) g;
  Ok (g, draws).

End Grid.

(** ** Properties of states used below *)

(** Every body of the roster has a head. *)
Definition bodies_nonempty (ss : list Snake) : Prop :=
  Forall (fun s => positions s <> []) ss.

(** The food is on no head of the roster. *)
Definition food_off_heads (g : Game) : Prop :=
  Forall (fun s => head (positions s) <> Some (food_position (food g))) (snakes g).

(** The state of a match between two ticks: every body has a head, the food
    is on no head, and the food is worth 10 points. *)
Definition settled (g : Game) : Prop :=
  bodies_nonempty (snakes g) /\ food_off_heads g /\ food_value (food g) = 10.

(** Whether the snake at index [i] of the roster is alive. *)
Definition alive_at (ss : list Snake) (i : nat) : bool :=
  match ss !! i with
  | Some s => alive s
  | None => false
  end.

(** The state of a match inside a tick, after the moves: every body has a
    head, the food is on no head of a snake that is not alive, and the food
    is worth 10 points. *)
Definition moved (g : Game) : Prop :=
  bodies_nonempty (snakes g) /\
  (forall k s, snakes g !! k = Some s -> alive s = false ->
     head (positions s) <> Some (food_position (food g))) /\
  food_value (food g) = 10.

(** Two rosters of the same length, related snake by snake. *)
Definition related (R : Snake -> Snake -> Prop) (ss ss' : list Snake) : Prop :=
  length ss' = length ss /\
  forall k s s', ss !! k = Some s -> ss' !! k = Some s' -> R s s'.

(** The food loop changes the pending growth and the score of a snake only. *)
Definition keeps_body (s s' : Snake) : Prop :=
  positions s' = positions s /\ alive s' = alive s.

(** The snake after a food pickup in the game [g]. *)
Definition fed (g : Game) (s : Snake) : Snake :=
  set_score (score (grow 2 s) + food_points g (grow 2 s)) (grow 2 s).

(** What the food loop keeps of the game. *)
Definition food_frame (g g' : Game) : Prop :=
  related keeps_body (snakes g) (snakes g') /\
  food_value (food g') = food_value (food g) /\
  difficulty g' = difficulty g /\ multiplayer g' = multiplayer g /\
  powerup_manager g' = powerup_manager g /\ state g' = state g /\
  high_score_manager g' = high_score_manager g.

(** The power-up loop applies at most one power-up to a snake, at the time
    [t] of the tick. *)
Definition picked (t : Q) (s s' : Snake) : Prop :=
  s' = s \/ exists ty d, s' = add_power_up ty d t s.

(** What the power-up, collision and game-over steps keep of the game. *)
Definition late_frame (g g' : Game) : Prop :=
  food g' = food g /\ difficulty g' = difficulty g /\ multiplayer g' = multiplayer g.

(** The player ids grow along the roster, as in the rosters of
    [reset_game]. *)
Definition ids_increasing (ss : list Snake) : Prop :=
  forall j k sj sk, (j < k)%nat -> ss !! j = Some sj -> ss !! k = Some sk ->
    player_id sj < player_id sk.

(** The collision loops change the alive flag of a snake only. *)
Definition only_alive (s s' : Snake) : Prop := s' = set_alive (alive s') s.

(** The test of lines 671-672 for the snakes at [a] and [b] of the roster. *)
Definition strikes (ss : list Snake) (a b : nat) : bool :=
  match ss !! a, ss !! b with
  | Some snake1, Some snake2 =>
      Qle_bool (invulnerable_time snake1) 0 &&
      match positions snake1 with
      | [] => false
      | head :: _ => mem_pos head (positions snake2)
      end
  | _, _ => false
  end.

(** The entry [ia] of the enumerated snapshot strikes some other entry. *)
Definition hit (ss : list Snake) (es : list (nat * nat)) (ia : nat * nat) : bool :=
  existsb (fun jb => negb (fst ia =? fst jb)%nat && strikes ss (snd ia) (snd jb)) es.

(** The snake at index [k] of the roster is an entry that strikes another. *)
Definition struck (ss : list Snake) (es : list (nat * nat)) (k : nat) : bool :=
  existsb (fun ia => (k =? snd ia)%nat && hit ss es ia) es.

Definition in_grid (W H : Z) (p : Pos) : Prop :=
  0 <= fst p < W /\ 0 <= snd p < H.

(** A cell that no snake and not the food holds. *)
Definition free_cell (g : Game) (p : Pos) : bool :=
  negb (occupied p (snakes g)) && negb (pos_eqb p (food_position (food g))).

(** ** Concrete states *)

Definition no_scores : HighScoreManager := mkHighScoreManager [] [].

(** A straight body of [n] cells with its head at [(x, y)], the rest to the
    left of it. *)
Definition straight (x y : Z) (n : nat) : list Pos :=
  List.map (fun k => (x - Z.of_nat k, y)) (seq 0 n).

(** All cells of a [W] by [H] grid, row after row. *)
Definition all_cells (W H : nat) : list Pos :=
  flat_map (fun y => List.map (fun x => (Z.of_nat x, Z.of_nat y)) (seq 0 W)) (seq 0 H).

(** A single-player match on the easy setting in state [PLAYING]. *)
Definition match_of (ss : list Snake) (f : Pos) (pm : PowerUpManager) : Game :=
  {| state := PLAYING;
     difficulty := EASY;
     multiplayer := false;
     high_score_manager := no_scores;
     powerup_manager := pm;
     snakes := ss;
     food := mkFood f 10;
     last_update_time := 0;
     move_timer := 0 |}.

(** A roster whose single snake fills the whole 60 by 40 grid. *)
Definition full_grid_game : Game :=
  match_of [set_positions (all_cells 60 40) (Snake_init 1 (0, 0))] (0, 0)
    PowerUpManager_init.

(** A power-up manager whose next update spawns. *)
Definition due_spawner : PowerUpManager :=
  {| active_powerups := []; spawn_timer := 10; spawn_interval := 10 |}.

(** A snake of 8 cells heading right, a shrink power-up on the cell in front
    of its head, and the food far away. *)
Definition shrink_ahead : Game :=
  match_of [set_positions (straight 20 20 8) (Snake_init 1 (20, 20))] (5, 5)
    {| active_powerups := [mkPowerUp SHRINK (21, 20) 5 0 ORANGE];
       spawn_timer := 0;
       spawn_interval := 10 |}.

(** A snake of 8 cells with its head on the last column, heading for the
    wall, and a shrink power-up on the cell of its head. *)
Definition shrink_at_wall : Game :=
  match_of [set_positions (straight 59 20 8) (Snake_init 1 (59, 20))] (5, 5)
    {| active_powerups := [mkPowerUp SHRINK (59, 20) 5 0 ORANGE];
       spawn_timer := 0;
       spawn_interval := 10 |}.

(** A match of two players in state [PLAYING] on the easy setting. *)
Definition duel_of (ss : list Snake) (f : Pos) : Game :=
  set_multiplayer true (match_of ss f PowerUpManager_init).

(** A game before its first [reset_game]. *)
Definition blank (multi_mode : bool) : Game :=
  set_multiplayer multi_mode (set_state MENU (match_of [] (0, 0) PowerUpManager_init)).

(** The single-player match that [reset_game] builds on the 60 by 40 grid
    when the food is first drawn on the snake and then on (16, 20). *)
Definition started : Game :=
  set_state MENU (match_of [Snake_init 1 (15, 20)] (16, 20) PowerUpManager_init).

(** [started] one tick later, when the respawn draws (3, 3): the snake has
    moved onto the food and eaten it. *)
Definition started_next : Game :=
  set_food (mkFood (3, 3) 10)
    (set_snakes
       [set_score 10 (set_grow_pending 2
          (set_positions [(16, 20)] (Snake_init 1 (15, 20))))]
       started).

(** Two snakes of one cell, head to head. *)
Definition face_to_face : Game :=
  duel_of [Snake_init 1 (5, 5); set_direction (-1, 0) (Snake_init 2 (6, 5))] (30, 30).

(** After the moves of a tick: the head of the first snake is on the second
    cell of the second snake. *)
Definition crossing : Game :=
  duel_of [set_positions [(6, 5); (5, 5)] (Snake_init 1 (5, 5));
           set_positions [(6, 4); (6, 5); (6, 6)] (Snake_init 2 (6, 6))] (30, 30).

(** The end of a round of two players with equal scores. *)
Definition tied : Game :=
  duel_of [set_alive false (set_score 30 (Snake_init 1 (5, 5)));
           set_alive false (set_score 30 (Snake_init 2 (6, 6)))] (30, 30).

(** A state the program does not run in: the food lies under the head of
    a snake that faces the wall. *)
Definition food_under_head : Game :=
  match_of [set_positions [(59, 20)] (Snake_init 1 (59, 20))] (59, 20)
    PowerUpManager_init.

(** ** Input, menu and main loop (lines 407-427, 534-588 and 914-923)

    [pygame] hands the program a list of events per frame. Of an event the
    source reads its type and, for a key press, its key; of the keys it tests
    the ones listed here, and [K_other] stands for every other key. *)

Inductive Key : Type :=
| K_w | K_s | K_a | K_d
| K_UP | K_DOWN | K_LEFT | K_RIGHT
| K_ESCAPE | K_r | K_m | K_RETURN | K_other.

Inductive Event : Type :=
| QUIT
| KEYDOWN (key : Key)
| OTHER_EVENT.

(** A [controls] dictionary of a snake: the direction bound to a key. *)
Definition Controls : Type := Key -> option Pos.

(** [p1_controls] and [p2_controls] of [reset_game]. *)
Definition p1_controls : Controls := fun key =>
  match key with
  | K_w => Some (0, -1)
  | K_s => Some (0, 1)
  | K_a => Some (-1, 0)
  | K_d => Some (1, 0)
  | _ => None
  end.

Definition p2_controls : Controls := fun key =>
  match key with
  | K_UP => Some (0, -1)
  | K_DOWN => Some (0, 1)
  | K_LEFT => Some (-1, 0)
  | K_RIGHT => Some (1, 0)
  | _ => None
  end.

(** [l[i]] of Python for an integer index: negative indices count from the
    end, and an index out of range raises. *)
Definition py_index {A : Type} (l : list A) (i : Z) : result A :=
  let n := Z.of_nat (length l) in
  let j := if i <? 0 then i + n else i in
  if (j <? 0) || (n <=? j) then Raise IndexError
  else
    match l !! Z.to_nat j with
    | Some x => Ok x
    | None => Raise IndexError
    end.

(** [MenuSystem]: of its attributes only [selected_option] changes. *)
Record MenuSystem : Type := mkMenuSystem {
  selected_option : Z }.

Definition menu_options : list string :=
  ["Single Player"; "Multiplayer"; "High Scores"; "Settings"; "Quit"]%string.

Definition MenuSystem_init : MenuSystem := mkMenuSystem 0.

(** [MenuSystem.handle_menu_input]: the menu after the event and the
    returned action, if any. *)
Definition handle_menu_input (event : Event) (m : MenuSystem)
    : result (MenuSystem * option string) :=
  match event with
  | KEYDOWN K_UP =>
      Ok (mkMenuSystem ((selected_option m - 1) mod Z.of_nat (length menu_options)),
          None)
  | KEYDOWN K_DOWN =>
      Ok (mkMenuSystem ((selected_option m + 1) mod Z.of_nat (length menu_options)),
          None)
  | KEYDOWN K_RETURN =>
      action ← py_index menu_options (selected_option m);
      Ok (m, Some action)
  | _ => Ok (m, None)
  end.

(** The program: the menu, the game, and the [controls] attribute of each
    snake of the roster, which the record [Snake] leaves out ([bindings]
    holds them in the order of the roster). *)
Record App : Type := mkApp {
  menu_system : MenuSystem;
  game : Game;
  bindings : list Controls }.

Definition set_game (v : Game) (app : App) : App :=
  mkApp (menu_system app) v (bindings app).

(** The loop [for snake in self.snakes] of lines 564-566: every snake whose
    controls hold the key turns. *)
Definition steer (key : Key) (binds : list Controls) (ss : list Snake) : list Snake :=
  imap (fun i snake =>
          match binds !! i with
          | Some controls =>
              match controls key with
              | Some d => change_direction d snake
              | None => snake
              end
          | None => snake
          end) ss.

Section GridApp.

Variables W H : Z.

(** [reset_game] with the controls it gives to the snakes. *)
Definition reset_app (draws : list Pos) (app : App) : result (App * list Pos) :=
  '(g, draws) ← reset_game W H draws (game app);
  Ok (mkApp (menu_system app) g
        (if multiplayer g then [p1_controls; p2_controls] else [p1_controls]),
      draws).

(** [Game.__init__] (lines 458-485); [loaded] is the table that
    [HighScoreManager] reads from its file. *)
Definition App_init (loaded : HighScoreManager) (now : Q) (draws : list Pos)
    : result (App * list Pos) :=
  reset_app draws
    {| menu_system := MenuSystem_init;
       game :=
         {| state := MENU;
            difficulty := EASY;
            multiplayer := false;
            high_score_manager := loaded;
            powerup_manager := PowerUpManager_init;
            snakes := [];
            food := mkFood (0, 0) 10;
            last_update_time := now;
            move_timer := 0 |};
       bindings := [] |}.

(** Lines 541-586: one key press. The answer is whether the program goes
    on. *)
Definition handle_key (key : Key) (draws : list Pos) (app : App)
    : result (App * list Pos * bool) :=
  let g := game app in
  match state g with
  | MENU =>
      '(m, action) ← handle_menu_input (KEYDOWN key) (menu_system app);
      let app := mkApp m g (bindings app) in
      match action with
      | Some a =>
          if String.eqb a "Single Player" then
            '(app, draws) ←
              reset_app draws (set_game (set_state PLAYING (set_multiplayer false g)) app);
            Ok (app, draws, true)
          else if String.eqb a "Multiplayer" then
            '(app, draws) ←
              reset_app draws (set_game (set_state PLAYING (set_multiplayer true g)) app);
            Ok (app, draws, true)
          else if String.eqb a "High Scores" then
            Ok (set_game (set_state HIGH_SCORES g) app, draws, true)
          else if String.eqb a "Settings" then
            Ok (set_game (set_state SETTINGS g) app, draws, true)
          else if String.eqb a "Quit" then Ok (app, draws, false)
          else Ok (app, draws, true)
      | None => Ok (app, draws, true)
      end
  | PLAYING =>
      match key with
      | K_ESCAPE => Ok (set_game (set_state PAUSED g) app, draws, true)
      | _ =>
          Ok (set_game (set_snakes (steer key (bindings app) (snakes g)) g) app,
              draws, true)
      end
  | PAUSED =>
      match key with
      | K_ESCAPE => Ok (set_game (set_state PLAYING g) app, draws, true)
      | K_r =>
          '(app, draws) ← reset_app draws app;
          Ok (set_game (set_state PLAYING (game app)) app, draws, true)
      | K_m => Ok (set_game (set_state MENU g) app, draws, true)
      | _ => Ok (app, draws, true)
      end
  | GAME_OVER =>
      match key with
      | K_r =>
          '(app, draws) ← reset_app draws app;
          Ok (set_game (set_state PLAYING (game app)) app, draws, true)
      | K_m => Ok (set_game (set_state MENU g) app, draws, true)
      | _ => Ok (app, draws, true)
      end
  | HIGH_SCORES | SETTINGS =>
      match key with
      | K_ESCAPE => Ok (set_game (set_state MENU g) app, draws, true)
      | _ => Ok (app, draws, true)
      end
  end.

(** [Game.handle_events] (lines 534-588) on the events of one frame. *)
Fixpoint handle_events (events : list Event) (draws : list Pos) (app : App)
    : result (App * list Pos * bool) :=
  match events with
  | [] => Ok (app, draws, true)
  | QUIT :: _ => Ok (app, draws, false)
  | KEYDOWN key :: rest =>
      st ← handle_key key draws app;
      let '(app, draws, go_on) := (st : App * list Pos * bool) in
      if go_on then handle_events rest draws app else Ok (app, draws, false)
  | OTHER_EVENT :: rest => handle_events rest draws app
  end.

(** [Game.run] (lines 914-923) on the frames it is given: each frame holds
    the events and what [update] reads from outside. The loop ends after the
    frame in which [handle_events] answers false; the outcome is [Starved]
    when the frames are used up before. [draw] and the frame clock are left
    out: they write nothing of what is modelled. *)
Fixpoint run (frames : list (list Event * Frame)) (draws : list Pos) (app : App)
    : result (App * list Pos) :=
  match frames with
  | [] => Starved
  | (events, f) :: rest =>
      st ← handle_events events draws app;
      let '(app, draws, running) := (st : App * list Pos * bool) in
      '(g, draws) ← update W H f draws (game app);
      let app := set_game g app in
      if running then run rest draws app else Ok (app, draws)
  end.

End GridApp.

(** ** Notions used in the further properties *)

(** [(-x, -y)] *)
Definition reversed (d : Pos) : Pos := (fst d * -1, snd d * -1).

(** The cell [move] tries to enter, for a head [(hx, hy)]. *)
Definition target (W H : Z) (s : Snake) (hx hy : Z) : Pos :=
  let new_head := (hx + fst (direction s), hy + snd (direction s)) in
  if wall_phase s then (fst new_head mod W, snd new_head mod H) else new_head.

(** A table of scores with the greatest first. *)
Fixpoint descending (l : list ScoreEntry) : Prop :=
  match l with
  | [] => True
  | x :: rest =>
      (forall y, In y rest -> entry_score y <= entry_score x) /\ descending rest
  end.

(** The table of a mode. *)
Definition table (mode : Mode) (h : HighScoreManager) : list ScoreEntry :=
  match mode with
  | single => high_scores_single h
  | multi => high_scores_multi h
  end.

(** The multipliers the source assigns. *)
Definition speed_known (s : Snake) : Prop :=
  speed_multiplier s = 1%Q \/ speed_multiplier s = 2%Q \/
  speed_multiplier s = (1 # 2)%Q.

(** The transitions of the match state that one key press can make. *)
Definition may_follow (before after : GameState) : Prop :=
  after = before \/
  match before with
  | MENU => after = PLAYING \/ after = HIGH_SCORES \/ after = SETTINGS
  | PLAYING => after = PAUSED
  | PAUSED => after = PLAYING \/ after = MENU
  | GAME_OVER => after = PLAYING \/ after = MENU
  | HIGH_SCORES => after = MENU
  | SETTINGS => after = MENU
  end.

(** The power-up [k] of the snake has an end time before [t]. *)
Definition expired (t : Q) (s : Snake) (k : PowerUpType) : bool :=
  match power_ups s !! k with
  | Some end_time => Qlt_bool end_time t
  | None => false
  end.

(** Two snakes that differ at most in their power-ups, speed multiplier,
    wall phase and invulnerability: what [Snake.update] may change. *)
Definition same_run (s s' : Snake) : Prop :=
  player_id s' = player_id s /\ positions s' = positions s /\
  direction s' = direction s /\ grow_pending s' = grow_pending s /\
  score s' = score s /\ alive s' = alive s.

(** The two power-up types that change the speed multiplier, the one that
    sets the wall phase, and whether a snake holds a power-up of a type. *)
Definition speedy (k : PowerUpType) : bool :=
  match k with SPEED_BOOST | SLOW_DOWN => true | _ => false end.

Definition walls (k : PowerUpType) : bool :=
  match k with WALL_PHASE => true | _ => false end.

Definition holds (u : Snake) (k : PowerUpType) : bool :=
  match power_ups u !! k with Some _ => true | None => false end.

(** The program after [Game.__init__] on the 60 by 40 grid, when the food is
    first drawn on the snake and then on (16, 20); and the single-player
    match that the return key starts from there. *)
Definition first_app : App := mkApp MenuSystem_init started [p1_controls].

Definition first_match : App :=
  match handle_key GRID_WIDTH GRID_HEIGHT K_RETURN [(15, 20); (16, 20)] first_app with
  | Ok (app, _, _) => app
  | _ => first_app
  end.

(** A result that is not an exception: a value, or the end of the draws or
    frames that were given. *)
Definition quiet {A : Type} (r : result A) : Prop :=
  match r with
  | Raise _ => False
  | _ => True
  end.

(** What the steps of a tick keep of a snake. *)
Definition steady (s s' : Snake) : Prop :=
  (positions s <> [] -> positions s' <> []) /\ (speed_known s -> speed_known s').

(** What [update] and [handle_events] rely on: the match is settled, the
    roster is not empty, the speed multipliers are the ones the source
    assigns, and a match that is played or paused has a snake alive. *)
Definition fit (g : Game) : Prop :=
  settled g /\ snakes g <> [] /\ Forall speed_known (snakes g) /\
  (state g = PLAYING \/ state g = PAUSED -> existsb alive (snakes g) = true).

Definition sound (app : App) : Prop :=
  fit (game app) /\ 0 <= selected_option (menu_system app) < 5.

(** The collision loops leave a snake as it is or clear its alive flag. *)
Definition at_most_killed (s s' : Snake) : Prop :=
  s' = s \/ s' = set_alive false s.

(** The flags of a snake are backed by the power-ups it holds: the wall
    phase is on exactly while a wall-phase power-up is held, a speed
    multiplier of 2 needs a held speed boost and one of 1/2 a held
    slow-down. *)
Definition effects_backed (s : Snake) : Prop :=
  (wall_phase s = true <-> holds s WALL_PHASE = true) /\
  (speed_multiplier s = 2%Q -> holds s SPEED_BOOST = true) /\
  (speed_multiplier s = (1 # 2)%Q -> holds s SLOW_DOWN = true) /\
  speed_known s.

(** A match of two in which the second snake is dead, and the game one tick
    later. *)
Definition one_down : Game :=
  duel_of [Snake_init 1 (5, 5); set_alive false (Snake_init 2 (6, 6))] (30, 30).

Definition one_down_next : Game :=
  match tick GRID_WIDTH GRID_HEIGHT (mkFrame 1 SHRINK (3, 3) 1) [] one_down with
  | Ok (g, _) => g
  | _ => one_down
  end.

(** The board of power-ups as the manager keeps it: at most 3 power-ups,
    each lasting 5 seconds and coloured by its type, and a spawn interval of
    10 seconds. *)
Definition board_kept (pm : PowerUpManager) : Prop :=
  (length (active_powerups pm) <= 3)%nat /\
  Forall (fun p => pu_duration p = 5%Q /\ pu_color p = color_map (pu_type p))
    (active_powerups pm) /\
  spawn_interval pm = 10%Q.

(** A manager that has lost power-ups at most. *)
Definition board_shrinks (pm pm' : PowerUpManager) : Prop :=
  (length (active_powerups pm') <= length (active_powerups pm))%nat /\
  (forall p, In p (active_powerups pm') -> In p (active_powerups pm)) /\
  spawn_interval pm' = spawn_interval pm.

(** The food lies under no cell of a snake. *)
Definition food_off_bodies (g : Game) : Prop :=
  Forall (fun s => ~ In (food_position (food g)) (positions s)) (snakes g).

(** * Properties *)

(** ** Cells and bodies *)

Lemma pos_eqb_eq (p q : Pos) : pos_eqb p q = true <-> p = q.
Proof.
  destruct p as [a b], q as [c d]. unfold pos_eqb; simpl.
  rewrite andb_true_iff, !Z.eqb_eq. split.
  - intros [-> ->]; reflexivity.
  - intros [= -> ->]; split; reflexivity.
Qed.

Lemma pos_eqb_neq (p q : Pos) : pos_eqb p q = false <-> p <> q.
Proof.
  rewrite <- pos_eqb_eq. destruct (pos_eqb p q); split; congruence.
Qed.

Lemma mem_pos_In (p : Pos) (l : list Pos) : mem_pos p l = true <-> In p l.
Proof.
  unfold mem_pos. rewrite existsb_exists. split.
  - intros (q & Hq & E). apply pos_eqb_eq in E. subst q. exact Hq.
  - intros Hp. exists p. split; [exact Hp | apply pos_eqb_eq; reflexivity].
Qed.

Lemma off_grid_false (W H : Z) (p : Pos) :
  off_grid W H p = false <-> in_grid W H p.
Proof.
  unfold off_grid, in_grid. rewrite !orb_false_iff, !Z.ltb_ge, !Z.leb_gt. lia.
Qed.

Lemma off_grid_true (W H : Z) (p : Pos) :
  off_grid W H p = true <-> ~ in_grid W H p.
Proof.
  rewrite <- off_grid_false. destruct (off_grid W H p); split; congruence.
Qed.

Lemma removelast_cons_length {A : Type} (x : A) (l : list A) :
  length (removelast (x :: l)) = length l.
Proof.
  revert x. induction l as [|y l IH]; intros x; [reflexivity|].
  change (length (x :: removelast (y :: l)) = length (y :: l)).
  cbn [length]. f_equal. apply IH.
Qed.

Lemma removelast_cons_head {A : Type} (x : A) (l : list A) :
  l <> [] -> head (removelast (x :: l)) = Some x.
Proof. destruct l; [congruence | reflexivity]. Qed.

(** ** [Snake.move] *)

Section MoveFacts.

Variables W H : Z.

Lemma move_dead (s : Snake) : alive s = false -> move W H s = Ok (s, true).
Proof. intros Hs. unfold move. rewrite Hs. reflexivity. Qed.

(** What [move_to] does to a body with a head. *)
Lemma move_to_spec (p : Pos) (s s' : Snake) (b : bool) :
  move_to p s = (s', b) -> positions s <> [] ->
  (b = false /\ s' = set_alive false s) \/
  (b = true /\ alive s' = alive s /\ head (positions s') = Some p /\
   ((0 < grow_pending s /\ grow_pending s' = grow_pending s - 1 /\
     positions s' = p :: positions s) \/
    (grow_pending s <= 0 /\ grow_pending s' = grow_pending s /\
     positions s' = removelast (p :: positions s)))).
Proof.
  unfold move_to. intros E Hne.
  destruct (Qle_bool (invulnerable_time s) 0 && mem_pos p (positions s)).
  - injection E as <- <-. left. split; reflexivity.
  - destruct (0 <? grow_pending s) eqn:G; injection E as <- <-; right.
    + apply Z.ltb_lt in G.
      split; [reflexivity|]. split; [reflexivity|]. split; [reflexivity|].
      left. split; [exact G|]. split; reflexivity.
    + apply Z.ltb_ge in G.
      split; [reflexivity|]. split; [reflexivity|].
      split; [apply removelast_cons_head; exact Hne|].
      right. split; [exact G|]. split; reflexivity.
Qed.

(** The outcomes of [move] on a snake that is alive. *)
Lemma move_alive (s : Snake) :
  alive s = true -> positions s <> [] ->
  exists s' b, move W H s = Ok (s', b) /\
    ((b = false /\ s' = set_alive false s) \/
     (b = true /\ alive s' = true /\ positions s' <> [] /\
      ((0 < grow_pending s /\ grow_pending s' = grow_pending s - 1 /\
        length (positions s') = S (length (positions s))) \/
       (grow_pending s <= 0 /\ grow_pending s' = grow_pending s /\
        length (positions s') = length (positions s))))).
Proof.
  intros Ha Hne. unfold move. rewrite Ha. simpl negb. cbv iota.
  destruct (positions s) as [|[hx hy] rest] eqn:Hp; [congruence|].
  assert (Hto : forall p, exists s' b, Ok (move_to p s) = Ok (s', b) /\
    ((b = false /\ s' = set_alive false s) \/
     (b = true /\ alive s' = true /\ positions s' <> [] /\
      ((0 < grow_pending s /\ grow_pending s' = grow_pending s - 1 /\
        length (positions s') = S (length (positions s))) \/
       (grow_pending s <= 0 /\ grow_pending s' = grow_pending s /\
        length (positions s') = length (positions s)))))).
  { intros p. destruct (move_to p s) as [s' b] eqn:E. exists s', b.
    split; [reflexivity|].
    apply move_to_spec in E; [|rewrite Hp; congruence].
    destruct E as [[-> ->] | (-> & Hal & Hhd & Hcase)]; [left; split; reflexivity|].
    right. split; [reflexivity|]. split; [congruence|].
    split; [intros E0; rewrite E0 in Hhd; discriminate|].
    destruct Hcase as [(G & Hg & Hps) | (G & Hg & Hps)]; [left | right];
      (split; [exact G|]; split; [exact Hg|]); rewrite Hps.
    - reflexivity.
    - apply removelast_cons_length. }
  rewrite <- Hp.
  destruct (wall_phase s); simpl negb; cbv iota.
  - apply Hto.
  - destruct (off_grid W H _).
    + exists (set_alive false s), false. split; [reflexivity|]. left; split; reflexivity.
    + apply Hto.
Qed.

(** [move] never raises on a body with a head. *)
Lemma move_total (s : Snake) :
  positions s <> [] -> exists s' b, move W H s = Ok (s', b).
Proof.
  intros Hne. destruct (alive s) eqn:Ha.
  - destruct (move_alive s Ha Hne) as (s' & b & E & _). eauto.
  - exists s, true. apply move_dead. exact Ha.
Qed.

End MoveFacts.

(** ** [respawn_food] *)

(** A run of [respawn_food] that returns has put the food on a drawn cell
    that no snake holds, and has changed nothing else. *)
Lemma respawn_food_Ok (draws : list Pos) (g g' : Game) (draws' : list Pos) :
  respawn_food draws g = Ok (g', draws') ->
  exists p, In p draws /\ occupied p (snakes g) = false /\
            g' = set_food (mkFood p (food_value (food g))) g.
Proof.
  revert g. induction draws as [|q rest IH]; intros g E; [discriminate|].
  cbn [respawn_food] in E.
  change (snakes (set_food (mkFood q (food_value (food g))) g)) with (snakes g) in E.
  change (food_position (food (set_food (mkFood q (food_value (food g))) g)))
    with q in E.
  destruct (occupied q (snakes g)) eqn:Hocc.
  - apply IH in E. destruct E as (p & Hin & Hfree & ->).
    exists p. split; [right; exact Hin|]. split; [exact Hfree|]. reflexivity.
  - injection E as <- <-. exists q. split; [left; reflexivity|].
    split; [exact Hocc|]. reflexivity.
Qed.

Lemma occupied_false (p : Pos) (ss : list Snake) :
  occupied p ss = false <-> forall s, In s ss -> ~ In p (positions s).
Proof.
  unfold occupied. split.
  - intros E s Hs Hp. apply mem_pos_In in Hp.
    assert (existsb (fun snake => mem_pos p (positions snake)) ss = true) as E1.
    { apply existsb_exists. exists s. split; assumption. }
    congruence.
  - intros Hall. destruct (existsb _ ss) eqn:E; [|reflexivity].
    apply existsb_exists in E. destruct E as (s & Hs & Hp).
    apply mem_pos_In in Hp. exfalso. exact (Hall s Hs Hp).
Qed.

Lemma respawn_food_finds (busy : list Pos) (p : Pos) (rest : list Pos) (g : Game) :
  Forall (fun q => occupied q (snakes g) = true) busy ->
  occupied p (snakes g) = false ->
  respawn_food (busy ++ p :: rest) g
    = Ok (set_food (mkFood p (food_value (food g))) g, rest).
Proof.
  intros Hbusy Hfree. revert g Hbusy Hfree.
  induction busy as [|q busy IH]; intros g Hbusy Hfree; cbn [app respawn_food];
    change (snakes (set_food (mkFood ?c (food_value (food g))) g)) with (snakes g);
    cbn [food_position food set_food].
  - rewrite Hfree. reflexivity.
  - inversion Hbusy as [|? ? Hq Hrest]; subst. rewrite Hq.
    exact (IH (set_food (mkFood q (food_value (food g))) g) Hrest Hfree).
Qed.

Lemma respawn_food_starves (busy : list Pos) (g : Game) :
  Forall (fun q => occupied q (snakes g) = true) busy ->
  respawn_food busy g = Starved.
Proof.
  intros Hbusy. revert g Hbusy.
  induction busy as [|q busy IH]; intros g Hbusy; cbn [respawn_food]; [reflexivity|].
  change (snakes (set_food (mkFood q (food_value (food g))) g)) with (snakes g).
  cbn [food_position food set_food].
  inversion Hbusy as [|? ? Hq Hrest]; subst. rewrite Hq.
  exact (IH (set_food (mkFood q (food_value (food g))) g) Hrest).
Qed.

(** C7: after every food respawn, the food's position is a cell not held by
    any body segment of any agent of the roster (and the respawn leaves the
    roster as it was). *)
Theorem C7_respawned_food_off_every_agent
    (draws : list Pos) (g g' : Game) (draws' : list Pos) :
  respawn_food draws g = Ok (g', draws') ->
  snakes g' = snakes g /\
  forall s, In s (snakes g') -> ~ In (food_position (food g')) (positions s).
Proof.
  intros E. apply respawn_food_Ok in E. destruct E as (p & _ & Hfree & ->).
  split; [reflexivity|].
  change (snakes (set_food (mkFood p (food_value (food g))) g)) with (snakes g).
  change (food_position (food (set_food (mkFood p (food_value (food g))) g))) with p.
  apply occupied_false. exact Hfree.
Qed.

(** C7 at a respawn whose first draw is on the snake. *)
Lemma C7_witness :
  respawn_food [(15, 20); (16, 20)]
    (match_of [Snake_init 1 (15, 20)] (15, 20) PowerUpManager_init)
  = Ok (match_of [Snake_init 1 (15, 20)] (16, 20) PowerUpManager_init, [])
  /\ (snakes (match_of [Snake_init 1 (15, 20)] (16, 20) PowerUpManager_init)
      = snakes (match_of [Snake_init 1 (15, 20)] (15, 20) PowerUpManager_init) /\
      forall s,
        In s (snakes (match_of [Snake_init 1 (15, 20)] (16, 20) PowerUpManager_init)) ->
        ~ In (food_position
                (food (match_of [Snake_init 1 (15, 20)] (16, 20) PowerUpManager_init)))
             (positions s)).
Proof.
  split; [reflexivity|].
  apply (C7_respawned_food_off_every_agent [(15, 20); (16, 20)] _ _ []).
  reflexivity.
Defined.

(** C4 (amended): the search of [respawn_food] has no bound on its attempts.
    It draws cells until one is held by no agent: after [k] draws of occupied
    cells and one draw of a free cell it returns with the food on that cell,
    having used exactly these [k + 1] draws, and after any number of draws of
    occupied cells alone it is still searching. *)
Theorem C4_respawn_searches_until_free
    (g : Game) (busy : list Pos) (p : Pos) (rest : list Pos) :
  Forall (fun q => occupied q (snakes g) = true) busy ->
  occupied p (snakes g) = false ->
  respawn_food (busy ++ p :: rest) g
    = Ok (set_food (mkFood p (food_value (food g))) g, rest)
  /\ respawn_food busy g = Starved.
Proof.
  intros Hbusy Hfree. split.
  - apply respawn_food_finds; assumption.
  - apply respawn_food_starves; assumption.
Qed.

(** C4 with two draws on the snake before a free one. *)
Lemma C4_witness :
  respawn_food ([(15, 20); (15, 20)] ++ (16, 20) :: [(3, 3)])
    (match_of [Snake_init 1 (15, 20)] (0, 0) PowerUpManager_init)
  = Ok (set_food (mkFood (16, 20) 10)
          (match_of [Snake_init 1 (15, 20)] (0, 0) PowerUpManager_init), [(3, 3)])
  /\ respawn_food [(15, 20); (15, 20)]
       (match_of [Snake_init 1 (15, 20)] (0, 0) PowerUpManager_init) = Starved.
Proof.
  apply (C4_respawn_searches_until_free
           (match_of [Snake_init 1 (15, 20)] (0, 0) PowerUpManager_init)
           [(15, 20); (15, 20)] (16, 20) [(3, 3)]).
  - repeat constructor.
  - reflexivity.
Defined.

(** Every cell of the grid is in [all_cells]. *)
Lemma all_cells_complete (W H : nat) (x y : Z) :
  0 <= x < Z.of_nat W -> 0 <= y < Z.of_nat H -> In (x, y) (all_cells W H).
Proof.
  intros Hx Hy. unfold all_cells. apply in_flat_map.
  exists (Z.to_nat y). split; [apply in_seq; lia|].
  apply in_map_iff. exists (Z.to_nat x). split.
  - f_equal; lia.
  - apply in_seq; lia.
Qed.

Lemma respawn_food_full (draws : list Pos) (g : Game) :
  snakes g = snakes full_grid_game ->
  Forall (in_grid GRID_WIDTH GRID_HEIGHT) draws ->
  respawn_food draws g = Starved.
Proof.
  intros Hss Hall. revert g Hss.
  induction Hall as [|p rest Hp _ IH]; intros g Hss; [reflexivity|].
  cbn [respawn_food].
  change (snakes (set_food (mkFood p (food_value (food g))) g)) with (snakes g).
  change (food_position (food (set_food (mkFood p (food_value (food g))) g))) with p.
  assert (occupied p (snakes g) = true) as ->.
  { rewrite Hss. unfold full_grid_game, match_of. cbn [snakes occupied existsb].
    rewrite orb_false_r. apply mem_pos_In.
    change (positions (set_positions (all_cells 60 40) (Snake_init 1 (0, 0))))
      with (all_cells 60 40).
    destruct p as [x y]. destruct Hp as [Hx Hy]. cbn [fst snd] in Hx, Hy.
    change GRID_WIDTH with 60 in Hx. change GRID_HEIGHT with 40 in Hy.
    apply all_cells_complete; lia. }
  apply IH. exact Hss.
Qed.

(** C4, as stated, fails: with every cell of the grid held by the agent the
    respawn never leaves its loop, whatever cells of the grid are drawn and
    however many. *)
Lemma C4_counterexample :
  exists g : Game,
    g = full_grid_game /\
    forall draws : list Pos,
      Forall (in_grid GRID_WIDTH GRID_HEIGHT) draws ->
      respawn_food draws g = Starved.
Proof.
  exists full_grid_game. split; [reflexivity|].
  intros draws Hall. apply respawn_food_full; [reflexivity | exact Hall].
Qed.

(** ** Properties of [Snake.move] alone *)

(** C10: [move] on an agent whose alive flag is already false answers true
    and returns the agent as it was: body, direction, pending growth, score
    and alive flag (and every other field) are those of before the call. *)
Theorem C10_move_of_dead_agent_is_identity (W H : Z) (s : Snake) :
  alive s = false -> move W H s = Ok (s, true).
Proof. apply move_dead. Qed.

(** C10 at a dead snake of one cell. *)
Lemma C10_witness :
  move GRID_WIDTH GRID_HEIGHT (set_alive false (Snake_init 1 (15, 20)))
  = Ok (set_alive false (Snake_init 1 (15, 20)), true).
Proof.
  apply (C10_move_of_dead_agent_is_identity GRID_WIDTH GRID_HEIGHT).
  reflexivity.
Defined.

(** C6, as stated, fails in its example: from (2,5) the 8th move in a row
    already leaves the 10 by 10 grid. Its answer is false and the agent is
    dead after it, with its head still on (9,5). *)
Lemma C6_counterexample :
  advances 10 10 8 (Snake_init 1 (2, 5))
  = Ok (set_alive false (set_positions [(9, 5)] (Snake_init 1 (2, 5))),
        [true; true; true; true; true; true; true; false]).
Proof. vm_compute. reflexivity. Qed.

(** C6 (amended): for an alive agent without wall phase (blocking boundary),
    [move] with a new head outside [0,W) x [0,H) answers false and returns the
    agent with the alive flag cleared and nothing else changed, the body
    included; and on a 10 by 10 grid an agent at (2,5) heading (1,0) survives
    7 moves in a row, which take its head to (9,5), and dies on the 8th. *)
Theorem C6_blocking_wall_kills_and_keeps_body :
  (forall (W H : Z) (s : Snake) (hx hy : Z) (rest : list Pos),
     alive s = true -> wall_phase s = false ->
     positions s = (hx, hy) :: rest ->
     ~ in_grid W H (hx + fst (direction s), hy + snd (direction s)) ->
     exists s', move W H s = Ok (s', false) /\
       alive s' = false /\ positions s' = positions s /\ s' = set_alive false s)
  /\ (advances 10 10 7 (Snake_init 1 (2, 5))
        = Ok (set_positions [(9, 5)] (Snake_init 1 (2, 5)),
              [true; true; true; true; true; true; true])
      /\ move 10 10 (set_positions [(9, 5)] (Snake_init 1 (2, 5)))
        = Ok (set_alive false (set_positions [(9, 5)] (Snake_init 1 (2, 5))), false)).
Proof.
  split.
  - intros W H s hx hy rest Ha Hw Hp Hout.
    exists (set_alive false s). split; [|split; [|split]]; try reflexivity.
    unfold move. rewrite Ha, Hp, Hw. cbn [negb].
    apply off_grid_true in Hout. rewrite Hout. reflexivity.
  - split; vm_compute; reflexivity.
Qed.

(** C6 on the grid of the source, for a snake on the last column. *)
Lemma C6_witness :
  exists s', move GRID_WIDTH GRID_HEIGHT
               (set_positions [(59, 20)] (Snake_init 1 (15, 20))) = Ok (s', false) /\
    alive s' = false /\
    positions s' = positions (set_positions [(59, 20)] (Snake_init 1 (15, 20))) /\
    s' = set_alive false (set_positions [(59, 20)] (Snake_init 1 (15, 20))).
Proof.
  apply (proj1 C6_blocking_wall_kills_and_keeps_body GRID_WIDTH GRID_HEIGHT
           (set_positions [(59, 20)] (Snake_init 1 (15, 20))) 59 20 []).
  - reflexivity.
  - reflexivity.
  - reflexivity.
  - intros [[_ Hx] _]. vm_compute in Hx. discriminate.
Defined.

(** ** [Snake.add_power_up] *)

(** C2, as stated, fails for the shrink power-up: a body of 10 cells has 5
    cells after one application and 2 after a second one. *)
Lemma C2_counterexample :
  length (positions (add_power_up SHRINK 5 1
            (set_positions (straight 20 20 10) (Snake_init 1 (20, 20))))) = 5%nat
  /\ length (positions (add_power_up SHRINK 5 1 (add_power_up SHRINK 5 0
            (set_positions (straight 20 20 10) (Snake_init 1 (20, 20)))))) = 2%nat.
Proof. split; vm_compute; reflexivity. Qed.

(** Unfold the field updates of a snake written out as a record. *)
Ltac snake_fields :=
  unfold set_positions, set_direction, set_grow_pending, set_score, set_alive,
    set_power_ups, set_invulnerable_time, set_speed_multiplier, set_wall_phase,
    grow;
  cbn [player_id positions direction grow_pending score alive power_ups
       invulnerable_time speed_multiplier wall_phase].

Lemma shrink_positions (d now : Q) (s : Snake) :
  positions (add_power_up SHRINK d now s)
  = if (3 <? length (positions s))%nat
    then take (length (positions s) / 2) (positions s)
    else positions s.
Proof.
  unfold add_power_up. snake_fields.
  destruct (3 <? length (positions s))%nat; reflexivity.
Qed.

Lemma take_half_short {A : Type} (l : list A) :
  (3 < length l)%nat -> (length l <= 7)%nat ->
  (3 <? length (take (length l / 2) l))%nat = false.
Proof.
  intros H3 H7. apply Nat.ltb_ge. rewrite length_take.
  pose proof (Nat.Div0.div_le_mono _ 7 2 H7) as Hhalf.
  change (7 / 2)%nat with 3%nat in Hhalf. lia.
Qed.

(** C2 (amended): applying a power-up type again stores the later expiry
    [now + duration]. For every type but shrink the agent then is exactly as
    after a single application with that expiry (a second speed boost leaves
    the multiplier at 2). Shrink acts on every application: a body longer
    than 3 is cut to half its length each time, so only a body of at most 7
    cells ends as after a single application, and a longer one is cut
    twice. *)
Theorem C2_reapplying_a_power_up
    (t : PowerUpType) (d1 d2 now1 now2 : Q) (s : Snake) :
  power_ups (add_power_up t d2 now2 (add_power_up t d1 now1 s)) !! t
    = Some (now2 + d2)%Q
  /\ (t <> SHRINK ->
      add_power_up t d2 now2 (add_power_up t d1 now1 s) = add_power_up t d2 now2 s)
  /\ (t = SHRINK -> (length (positions s) <= 7)%nat ->
      add_power_up t d2 now2 (add_power_up t d1 now1 s) = add_power_up t d2 now2 s)
  /\ (t = SHRINK -> (7 < length (positions s))%nat ->
      positions (add_power_up t d2 now2 s)
        = take (length (positions s) / 2) (positions s)
      /\ positions (add_power_up t d2 now2 (add_power_up t d1 now1 s))
        = take (length (positions s) / 2 / 2) (positions s))
  /\ (t = SPEED_BOOST ->
      speed_multiplier (add_power_up t d2 now2 (add_power_up t d1 now1 s)) = 2%Q).
Proof.
  split; [|split; [|split; [|split]]].
  - destruct t; unfold add_power_up; cbn;
      repeat match goal with |- context [if ?c then _ else _] => destruct c end;
      cbn; apply lookup_insert_eq.
  - intros Hne. destruct s; destruct t; try congruence;
      unfold add_power_up; snake_fields; rewrite insert_insert_eq; reflexivity.
  - intros -> H7. destruct s as [pid ps dir gp sc al pu inv sp wp].
    cbn [positions] in H7. unfold add_power_up. snake_fields.
    destruct (3 <? length ps)%nat eqn:H3; snake_fields.
    + apply Nat.ltb_lt in H3. rewrite (take_half_short ps H3 H7).
      snake_fields. rewrite insert_insert_eq. reflexivity.
    + rewrite H3. snake_fields. rewrite insert_insert_eq. reflexivity.
  - intros -> H7. rewrite !shrink_positions.
    assert ((3 <? length (positions s))%nat = true) as -> by (apply Nat.ltb_lt; lia).
    split; [reflexivity|].
    pose proof (Nat.Div0.div_le_mono 8 _ 2 H7) as Hhalf.
    change (8 / 2)%nat with 4%nat in Hhalf.
    pose proof (Nat.Div0.div_lt_upper_bound (length (positions s)) 2
                  (length (positions s))) as Hlt.
    rewrite length_take, Nat.min_l by lia.
    assert ((3 <? length (positions s) / 2)%nat = true) as -> by (apply Nat.ltb_lt; lia).
    rewrite take_take. f_equal.
    pose proof (Nat.Div0.div_le_mono (length (positions s) / 2) (length (positions s)) 2).
    pose proof (Nat.Div0.div_lt_upper_bound (length (positions s) / 2) 2
                  (length (positions s) / 2)).
    lia.
  - intros ->. reflexivity.
Qed.

(** ** [PowerUpManager.update] *)

Lemma Qlt_bool_iff (a b : Q) : Qlt_bool a b = true <-> (a < b)%Q.
Proof.
  unfold Qlt_bool. rewrite negb_true_iff. split.
  - intros E. apply Qnot_le_lt. intros Hle. apply Qle_bool_iff in Hle. congruence.
  - intros Hlt. destruct (Qle_bool b a) eqn:E; [|reflexivity].
    apply Qle_bool_iff in E. exfalso. exact (Qlt_not_le _ _ Hlt E).
Qed.




(** ** Loops *)

Lemma bind_Ok {A B : Type} (m : result A) (f : A -> result B) (b : B) :
  m ≫= f = Ok b -> exists a, m = Ok a /\ f a = Ok b.
Proof.
  destruct m as [a| |]; cbn; intros E; try discriminate.
  exists a. split; [reflexivity | exact E].
Qed.

Lemma for_each_cons {A St : Type} (body : A -> St -> result St)
    (x : A) (l : list A) (st st' : St) :
  for_each body (x :: l) st = Ok st' ->
  exists st1, body x st = Ok st1 /\ for_each body l st1 = Ok st'.
Proof. cbn [for_each]. apply bind_Ok. Qed.

(** A property kept by every round is kept by the loop. *)
Lemma for_each_inv {A St : Type} (body : A -> St -> result St) (I : St -> Prop)
    (l : list A) (st st' : St) :
  (forall x st st', In x l -> I st -> body x st = Ok st' -> I st') ->
  I st -> for_each body l st = Ok st' -> I st'.
Proof.
  revert st. induction l as [|x l IH]; intros st Hbody Hst E.
  - injection E as <-. exact Hst.
  - apply for_each_cons in E. destruct E as (st1 & E1 & E2).
    apply (IH st1); [| |exact E2].
    + intros y u u' Hy. apply Hbody. right. exact Hy.
    + apply (Hbody x st st1); [left; reflexivity | exact Hst | exact E1].
Qed.

(** A loop whose rounds cannot fail returns. *)
Lemma for_each_total {A St : Type} (body : A -> St -> result St) (I : St -> Prop)
    (l : list A) (st : St) :
  (forall x st, In x l -> I st -> exists st', body x st = Ok st' /\ I st') ->
  I st -> exists st', for_each body l st = Ok st' /\ I st'.
Proof.
  revert st. induction l as [|x l IH]; intros st Hbody Hst.
  - exists st. split; [reflexivity | exact Hst].
  - destruct (Hbody x st (or_introl eq_refl) Hst) as (st1 & E1 & H1).
    destruct (IH st1) as (st' & E' & H'); [|exact H1|].
    + intros y u Hy. apply Hbody. right. exact Hy.
    + exists st'. split; [|exact H']. cbn [for_each]. rewrite E1. exact E'.
Qed.

Section IndexLoops.

(** A loop over distinct indices of the roster, each round of which rewrites
    the snake at its own index only: every snake of the roster is rewritten
    by the round of its index, once, or not at all. *)
Context {St : Type} (roster : St -> list Snake) (body : nat -> St -> result St).
Context (R : Snake -> Snake -> Prop).

Hypothesis body_local : forall i st st',
  body i st = Ok st' ->
  forall k s, roster st !! k = Some s ->
    exists s', roster st' !! k = Some s' /\
      (k <> i -> s' = s) /\ (k = i -> R s s').

Lemma for_each_index (l : list nat) (st st' : St) :
  NoDup l -> for_each body l st = Ok st' ->
  forall k s, roster st !! k = Some s ->
    exists s', roster st' !! k = Some s' /\
      (~ In k l -> s' = s) /\ (In k l -> R s s').
Proof.
  intros Hnd. revert st. induction Hnd as [|i l Hi Hnd IH]; intros st E k s Hk;
    [|rewrite list_elem_of_In in Hi].
  - injection E as <-. exists s. split; [exact Hk|]. split; [reflexivity|]. intros [].
  - apply for_each_cons in E. destruct E as (st1 & E1 & E2).
    destruct (body_local i st st1 E1 k s Hk) as (s1 & Hk1 & Hne & Heq).
    destruct (IH st1 E2 k s1 Hk1) as (s' & Hk' & Hout & Hin).
    exists s'. split; [exact Hk'|]. split.
    + intros Hnot. rewrite (Hout (fun h => Hnot (or_intror h))).
      apply Hne. intros ->. apply Hnot. left. reflexivity.
    + intros [<- | Hkl].
      * rewrite (Hout Hi). apply Heq. reflexivity.
      * assert (k <> i) as Hki by (intros ->; exact (Hi Hkl)).
        rewrite <- (Hne Hki). apply Hin. exact Hkl.
Qed.

End IndexLoops.

(** ** The snapshot *)

Lemma alive_snakes_In (ss : list Snake) (i : nat) :
  In i (alive_snakes ss) <-> exists s, ss !! i = Some s /\ alive s = true.
Proof.
  unfold alive_snakes. rewrite filter_In, in_seq. split.
  - intros [_ E]. destruct (ss !! i) as [s|]; [|discriminate]. exists s. split; done.
  - intros (s & Hs & Ha). split.
    + apply lookup_lt_Some in Hs. lia.
    + rewrite Hs. exact Ha.
Qed.

Lemma alive_snakes_NoDup (ss : list Snake) : NoDup (alive_snakes ss).
Proof.
  unfold alive_snakes. apply NoDup_ListNoDup, List.NoDup_filter, List.seq_NoDup.
Qed.

Lemma filter_ext_In {A : Type} (f g : A -> bool) (l : list A) :
  (forall x, In x l -> f x = g x) -> List.filter f l = List.filter g l.
Proof.
  induction l as [|x l IH]; intros Hfg; [reflexivity|]. cbn [List.filter].
  rewrite (Hfg x (or_introl eq_refl)), IH; [reflexivity|].
  intros y Hy. apply Hfg. right. exact Hy.
Qed.

Lemma filter_filter_imp {A : Type} (f g : A -> bool) (l : list A) :
  (forall x, In x l -> g x = true -> f x = true) ->
  List.filter g (List.filter f l) = List.filter g l.
Proof.
  induction l as [|x l IH]; intros Himp; [reflexivity|]. cbn [List.filter].
  assert (Htl : forall y, In y l -> g y = true -> f y = true).
  { intros y Hy. apply Himp. right. exact Hy. }
  destruct (f x) eqn:Ef; cbn [List.filter].
  - rewrite (IH Htl). reflexivity.
  - destruct (g x) eqn:Eg.
    + rewrite (Himp x (or_introl eq_refl) Eg) in Ef. discriminate.
    + apply IH. exact Htl.
Qed.

Section TickFacts.

Variables W H : Z.

(** *** The movement loop *)

Lemma move_at_local (i : nat) (ss ss' : list Snake) :
  move_at W H i ss = Ok ss' ->
  forall k s, ss !! k = Some s ->
    exists s', ss' !! k = Some s' /\
      (k <> i -> s' = s) /\ (k = i -> exists b, move W H s = Ok (s', b)).
Proof.
  unfold move_at. intros E k s Hk.
  destruct (ss !! i) as [si|] eqn:Hi.
  - apply bind_Ok in E. destruct E as ([s1 b] & Em & E). injection E as <-.
    destruct (decide (k = i)) as [->|Hne].
    + exists s1. split; [apply list_lookup_insert_eq; eapply lookup_lt_Some; exact Hi|].
      split; [congruence|]. intros _. exists b. congruence.
    + exists s. split; [rewrite list_lookup_insert_ne by congruence; exact Hk|].
      split; [reflexivity | congruence].
  - injection E as <-. exists s. split; [exact Hk|]. split; [reflexivity|].
    intros ->. congruence.
Qed.

(** After the movement loop every snake of the snapshot has made one move,
    and the other snakes are as before. *)
Lemma move_snakes_spec (ss ss' : list Snake) :
  move_snakes W H (alive_snakes ss) ss = Ok ss' ->
  forall k s, ss !! k = Some s ->
    exists s' b, ss' !! k = Some s' /\ move W H s = Ok (s', b).
Proof.
  intros E k s Hk.
  destruct (for_each_index (fun ss => ss) (move_at W H)
              (fun s s' => exists b, move W H s = Ok (s', b))
              (move_at_local) (alive_snakes ss) ss ss'
              (alive_snakes_NoDup ss) E k s Hk) as (s' & Hk' & Hout & Hin).
  destruct (alive s) eqn:Ha.
  - destruct Hin as [b Hb]; [apply alive_snakes_In; eauto|]. eauto.
  - exists s, true. rewrite <- Hout at 1.
    + split; [exact Hk' | apply move_dead; exact Ha].
    + rewrite alive_snakes_In. intros (s0 & Hs0 & Ha0). congruence.
Qed.

Lemma move_snakes_length (snapshot : list nat) (ss ss' : list Snake) :
  move_snakes W H snapshot ss = Ok ss' -> length ss' = length ss.
Proof.
  apply (for_each_inv (move_at W H) (fun u => length u = length ss)); [|reflexivity].
  intros i u u' _ Hu E. unfold move_at in E.
  destruct (u !! i); [|congruence].
  apply bind_Ok in E. destruct E as ([s1 b] & _ & E). injection E as <-.
  rewrite length_insert. exact Hu.
Qed.

(** The movement loop returns on a roster of bodies with heads. *)
Lemma move_snakes_total (snapshot : list nat) (ss : list Snake) :
  bodies_nonempty ss -> exists ss', move_snakes W H snapshot ss = Ok ss'.
Proof.
  intros Hne.
  destruct (for_each_total (move_at W H) bodies_nonempty snapshot ss) as (ss' & E & _);
    [|exact Hne|eauto].
  intros i u _ Hu. unfold move_at. destruct (u !! i) as [s|] eqn:Hi; [|eauto].
  assert (positions s <> []) as Hs.
  { exact (Forall_lookup_1 _ _ _ _ Hu Hi). }
  destruct (move_total W H s Hs) as (s' & b & E). rewrite E. cbn.
  exists (<[i := s']> u). split; [reflexivity|].
  unfold bodies_nonempty. apply Forall_insert; [exact Hu|].
  destruct (alive s) eqn:Ha.
  - destruct (move_alive W H s Ha Hs) as (s2 & b2 & E2 & Hcase).
    rewrite E in E2. injection E2 as <- <-.
    destruct Hcase as [[_ ->] | (_ & _ & Hp & _)]; [exact Hs | exact Hp].
  - rewrite (move_dead W H s Ha) in E. injection E as <- _. exact Hs.
Qed.

End TickFacts.

(** ** Rosters related snake by snake *)

Lemma related_refl (R : Snake -> Snake -> Prop) (ss : list Snake) :
  (forall s, R s s) -> related R ss ss.
Proof. intros HR. split; [reflexivity|]. intros k s s' E1 E2. replace s' with s by congruence. apply HR. Qed.

Lemma related_trans (R : Snake -> Snake -> Prop) (a b c : list Snake) :
  (forall x y z, R x y -> R y z -> R x z) ->
  related R a b -> related R b c -> related R a c.
Proof.
  intros HR [Lab Hab] [Lbc Hbc]. split; [congruence|].
  intros k s s' Ea Ec.
  destruct (b !! k) as [m|] eqn:Eb.
  - exact (HR _ _ _ (Hab k s m Ea Eb) (Hbc k m s' Eb Ec)).
  - apply lookup_ge_None in Eb. apply lookup_lt_Some in Ea. lia.
Qed.

Lemma related_insert (R : Snake -> Snake -> Prop) (ss : list Snake)
    (i : nat) (s s' : Snake) :
  (forall x, R x x) -> ss !! i = Some s -> R s s' -> related R ss (<[i := s']> ss).
Proof.
  intros HR Hi Hs. split; [apply length_insert|].
  intros k x x' Ex Ex'. destruct (decide (k = i)) as [->|Hne].
  - rewrite list_lookup_insert_eq in Ex' by (eapply lookup_lt_Some; exact Hi).
    replace x with s by congruence. replace x' with s' by congruence. exact Hs.
  - rewrite list_lookup_insert_ne in Ex' by congruence.
    replace x' with x by congruence. apply HR.
Qed.

Lemma related_lookup (R : Snake -> Snake -> Prop) (ss ss' : list Snake)
    (k : nat) (s : Snake) :
  related R ss ss' -> ss !! k = Some s -> exists s', ss' !! k = Some s' /\ R s s'.
Proof.
  intros [L HR] Hk. destruct (ss' !! k) as [s'|] eqn:E.
  - exists s'. split; [reflexivity|]. exact (HR k s s' Hk E).
  - apply lookup_ge_None in E. apply lookup_lt_Some in Hk. lia.
Qed.

Lemma related_lookup_r (R : Snake -> Snake -> Prop) (ss ss' : list Snake)
    (k : nat) (s' : Snake) :
  related R ss ss' -> ss' !! k = Some s' -> exists s, ss !! k = Some s /\ R s s'.
Proof.
  intros [L HR] Hk. destruct (ss !! k) as [s|] eqn:E.
  - exists s. split; [reflexivity|]. exact (HR k s s' E Hk).
  - apply lookup_ge_None in E. apply lookup_lt_Some in Hk. lia.
Qed.

Lemma keeps_body_refl (s : Snake) : keeps_body s s.
Proof. split; reflexivity. Qed.

Lemma keeps_body_trans (x y z : Snake) :
  keeps_body x y -> keeps_body y z -> keeps_body x z.
Proof. intros [A B] [C D]. split; congruence. Qed.

Lemma bodies_nonempty_related (R : Snake -> Snake -> Prop) (ss ss' : list Snake) :
  (forall s s', R s s' -> positions s <> [] -> positions s' <> []) ->
  related R ss ss' -> bodies_nonempty ss -> bodies_nonempty ss'.
Proof.
  intros HR Hrel Hne. unfold bodies_nonempty in *. apply Forall_lookup_2.
  intros k s' Hk. destruct (related_lookup_r R ss ss' k s' Hrel Hk) as (s & Hs & Hss).
  apply (HR s s' Hss). exact (Forall_lookup_1 _ _ _ _ Hne Hs).
Qed.

(** ** The food loop *)

Lemma fed_keeps_body (g : Game) (s : Snake) : keeps_body s (fed g s).
Proof. split; reflexivity. Qed.

Lemma occupied_related (R : Snake -> Snake -> Prop) (p : Pos) (ss ss' : list Snake) :
  (forall s s', R s s' -> positions s' = positions s) ->
  related R ss ss' -> occupied p ss' = false ->
  forall k s, ss !! k = Some s -> ~ In p (positions s).
Proof.
  intros HR Hrel Hocc k s Hk.
  destruct (related_lookup R ss ss' k s Hrel Hk) as (s' & Hk' & Hss).
  rewrite <- (HR s s' Hss).
  rewrite occupied_false in Hocc. apply Hocc.
  apply list_elem_of_In. eapply list_elem_of_lookup_2. exact Hk'.
Qed.

(** One round of the food loop either changes nothing, the head of the
    snake being off the food, or feeds the snake and puts the food on a cell
    that no snake holds. *)
Lemma check_food_Ok (i : nat) (g : Game) (draws : list Pos) (g' : Game)
    (draws' : list Pos) :
  check_food i (g, draws) = Ok (g', draws') ->
  (g' = g /\ draws' = draws /\
   forall s, snakes g !! i = Some s ->
     positions s <> [] /\ head (positions s) <> Some (food_position (food g)))
  \/ (exists s p,
        snakes g !! i = Some s /\
        head (positions s) = Some (food_position (food g)) /\
        (forall k x, snakes g !! k = Some x -> ~ In p (positions x)) /\
        g' = set_food (mkFood p (food_value (food g)))
               (set_snakes (<[i := fed g s]> (snakes g)) g)).
Proof.
  unfold check_food. destruct (snakes g !! i) as [s|] eqn:Hi.
  - destruct (positions s) as [|h t] eqn:Hp; [discriminate|].
    destruct (pos_eqb h (food_position (food g))) eqn:Hh.
    + intros E. right. apply pos_eqb_eq in Hh. subst h.
      apply respawn_food_Ok in E. destruct E as (p & _ & Hfree & ->).
      exists s, p. split; [reflexivity|]. split; [rewrite Hp; reflexivity|].
      split; [|reflexivity].
      cbn [snakes set_snakes] in Hfree.
      assert (related keeps_body (snakes g) (<[i := fed g s]> (snakes g))) as Hrel.
      { exact (related_insert keeps_body _ i s _ keeps_body_refl Hi (fed_keeps_body g s)). }
      exact (occupied_related keeps_body p _ _ (fun _ _ K => proj1 K) Hrel Hfree).
    + intros [= <- <-]. left. split; [reflexivity|]. split; [reflexivity|].
      intros s0 [= <-]. rewrite Hp. split; [discriminate|].
      cbn [head]. apply pos_eqb_neq in Hh. congruence.
  - intros [= <- <-]. left. split; [reflexivity|]. split; [reflexivity|]. discriminate.
Qed.

Lemma food_frame_refl (g : Game) : food_frame g g.
Proof.
  split; [apply related_refl, keeps_body_refl|]. repeat split; reflexivity.
Qed.

Lemma food_frame_trans (a b c : Game) :
  food_frame a b -> food_frame b c -> food_frame a c.
Proof.
  intros (R1 & V1 & D1 & M1 & P1 & S1 & H1) (R2 & V2 & D2 & M2 & P2 & S2 & H2).
  split; [exact (related_trans _ _ _ _ keeps_body_trans R1 R2)|].
  repeat split; congruence.
Qed.

Lemma check_food_frame (i : nat) (g : Game) (draws : list Pos) (g' : Game)
    (draws' : list Pos) :
  check_food i (g, draws) = Ok (g', draws') -> food_frame g g'.
Proof.
  intros E. apply check_food_Ok in E.
  destruct E as [(-> & _ & _) | (s & p & Hi & _ & _ & ->)]; [apply food_frame_refl|].
  split; [|repeat split; reflexivity].
  cbn [snakes set_food set_snakes].
  exact (related_insert keeps_body _ i s _ keeps_body_refl Hi (fed_keeps_body g s)).
Qed.

Lemma food_collisions_frame (snapshot : list nat) (draws : list Pos) (g g' : Game)
    (draws' : list Pos) :
  food_collisions snapshot draws g = Ok (g', draws') -> food_frame g g'.
Proof.
  intros E.
  apply (for_each_inv check_food (fun st => food_frame g (fst st)) snapshot
           (g, draws) (g', draws')); [|apply food_frame_refl|exact E].
  intros i [u du] [u' du'] _ Hu Ei. cbn [fst] in *.
  exact (food_frame_trans _ _ _ Hu (check_food_frame _ _ _ _ _ Ei)).
Qed.

(** When every head on the food belongs to a snake of the snapshot, the food
    is on no head after the loop. *)
Lemma food_collisions_off_heads (snapshot : list nat) (draws : list Pos)
    (g g' : Game) (draws' : list Pos) :
  (forall k s, snakes g !! k = Some s ->
     head (positions s) = Some (food_position (food g)) -> In k snapshot) ->
  food_collisions snapshot draws g = Ok (g', draws') ->
  food_off_heads g'.
Proof.
  unfold food_collisions. revert g draws.
  induction snapshot as [|i rest IH]; intros g draws Hon E.
  - injection E as <- <-. unfold food_off_heads. apply Forall_lookup_2.
    intros k s Hk Hh. exact (Hon k s Hk Hh).
  - apply for_each_cons in E. destruct E as ([g1 d1] & E1 & E2).
    apply (IH g1 d1); [|exact E2].
    apply check_food_Ok in E1.
    destruct E1 as [(-> & -> & Hoff) | (s & p & Hi & _ & Hfree & ->)].
    + intros k s Hk Hh. destruct (Hon k s Hk Hh) as [<- | Hin]; [|exact Hin].
      destruct (Hoff s Hk) as [_ Hne]. contradiction.
    + intros k x Hk Hh. exfalso.
      cbn [snakes food food_position set_food set_snakes] in Hk, Hh.
      destruct (related_lookup_r keeps_body (snakes g) (<[i := fed g s]> (snakes g)) k x)
        as (x0 & Hk0 & [Hpos _]); [|exact Hk|].
      { exact (related_insert keeps_body _ i s _ keeps_body_refl Hi (fed_keeps_body g s)). }
      apply (Hfree k x0 Hk0). rewrite <- Hpos.
      destruct (positions x) as [|h t]; [discriminate|].
      injection Hh as ->. left. reflexivity.
Qed.

(** ** The power-up loop *)

Lemma take_half_head {A : Type} (l : list A) :
  (3 < length l)%nat -> head (take (length l / 2) l) = head l.
Proof.
  intros H3. destruct l as [|x l]; [reflexivity|].
  destruct (length (x :: l) / 2)%nat as [|n] eqn:E; [|reflexivity].
  exfalso. pose proof (Nat.Div0.div_le_mono 4 _ 2 H3) as Hhalf.
  change (4 / 2)%nat with 2%nat in Hhalf. lia.
Qed.

(** What a power-up does to a snake: the body stays, or it is cut to half
    by a shrink; the head, the alive flag, the pending growth and the score
    stay. *)
Lemma add_power_up_effect (ty : PowerUpType) (d t : Q) (s : Snake) :
  alive (add_power_up ty d t s) = alive s /\
  head (positions (add_power_up ty d t s)) = head (positions s) /\
  (positions (add_power_up ty d t s) = positions s \/
   (ty = SHRINK /\ (3 < length (positions s))%nat /\
    positions (add_power_up ty d t s)
      = take (length (positions s) / 2) (positions s))).
Proof.
  destruct ty; try (split; [reflexivity|]; split; [reflexivity|]; left; reflexivity).
  split; [|split].
  - unfold add_power_up. snake_fields.
    destruct (3 <? length (positions s))%nat; reflexivity.
  - rewrite shrink_positions.
    destruct (3 <? length (positions s))%nat eqn:H3; [|reflexivity].
    apply take_half_head. apply Nat.ltb_lt. exact H3.
  - rewrite shrink_positions.
    destruct (3 <? length (positions s))%nat eqn:H3; [|left; reflexivity].
    right. apply Nat.ltb_lt in H3. split; [reflexivity|]. split; [exact H3|reflexivity].
Qed.

Lemma picked_keeps (t : Q) (s s' : Snake) :
  picked t s s' ->
  alive s' = alive s /\ head (positions s') = head (positions s).
Proof.
  intros [-> | (ty & d & ->)]; [split; reflexivity|].
  destruct (add_power_up_effect ty d t s) as (Ha & Hh & _). split; assumption.
Qed.

Lemma late_frame_refl (g : Game) : late_frame g g.
Proof. repeat split; reflexivity. Qed.

Lemma late_frame_trans (a b c : Game) :
  late_frame a b -> late_frame b c -> late_frame a c.
Proof. intros (A1 & A2 & A3) (B1 & B2 & B3). repeat split; congruence. Qed.

Lemma check_powerup_local (t : Q) (i : nat) (g g' : Game) :
  check_powerup t i g = Ok g' ->
  late_frame g g' /\
  forall k s, snakes g !! k = Some s ->
    exists s', snakes g' !! k = Some s' /\
      (k <> i -> s' = s) /\ (k = i -> picked t s s').
Proof.
  unfold check_powerup. destruct (snakes g !! i) as [si|] eqn:Hi.
  - destruct (positions si) as [|h rest]; [discriminate|].
    destruct (check_collision h (active_powerups (powerup_manager g)))
      as [[powerup|] remaining].
    + intros [= <-]. split; [repeat split; reflexivity|].
      intros k s Hk. cbn [snakes set_snakes].
      destruct (decide (k = i)) as [->|Hne].
      * eexists. split; [apply list_lookup_insert_eq; eapply lookup_lt_Some; exact Hi|].
        split; [congruence|]. intros _. right.
        exists (pu_type powerup), (pu_duration powerup). congruence.
      * exists s. split; [rewrite list_lookup_insert_ne by congruence; exact Hk|].
        split; [reflexivity | congruence].
    + intros [= <-]. split; [apply late_frame_refl|].
      intros k s Hk. exists s. split; [exact Hk|]. split; [reflexivity|].
      intros _. left. reflexivity.
  - intros [= <-]. split; [apply late_frame_refl|].
    intros k s Hk. exists s. split; [exact Hk|]. split; [reflexivity|].
    intros _. left. reflexivity.
Qed.

Lemma check_powerup_length (t : Q) (i : nat) (g g' : Game) :
  check_powerup t i g = Ok g' -> length (snakes g') = length (snakes g).
Proof.
  unfold check_powerup. destruct (snakes g !! i) as [si|]; [|congruence].
  destruct (positions si) as [|h rest]; [discriminate|].
  destruct (check_collision h (active_powerups (powerup_manager g)))
    as [[powerup|] remaining]; intros [= <-]; [|reflexivity].
  cbn [snakes set_snakes]. apply length_insert.
Qed.

(** After the power-up step every snake is as before or has received one
    power-up, which happens to snakes of the snapshot only and only when the
    difficulty has power-ups. *)
Lemma powerup_collisions_spec (t : Q) (snapshot : list nat) (g g' : Game) :
  NoDup snapshot ->
  powerup_collisions t snapshot g = Ok g' ->
  late_frame g g' /\ length (snakes g') = length (snakes g) /\
  forall k s, snakes g !! k = Some s ->
    exists s', snakes g' !! k = Some s' /\
      (s' = s \/
       (powerups (difficulty g) = true /\ In k snapshot /\
        exists ty d, s' = add_power_up ty d t s)).
Proof.
  intros Hnd. unfold powerup_collisions.
  destruct (powerups (difficulty g)) eqn:Hpu.
  - intros E. split; [|split].
    + apply (for_each_inv (check_powerup t) (late_frame g) snapshot g g');
        [|apply late_frame_refl|exact E].
      intros i u u' _ Hu Ei.
      exact (late_frame_trans _ _ _ Hu (proj1 (check_powerup_local t i u u' Ei))).
    + apply (for_each_inv (check_powerup t)
               (fun u => length (snakes u) = length (snakes g)) snapshot g g');
        [|reflexivity|exact E].
      intros i u u' _ Hu Ei. rewrite (check_powerup_length t i u u' Ei). exact Hu.
    + intros k s Hk.
      destruct (for_each_index snakes (check_powerup t) (picked t)
                  (fun i u u' Ei => proj2 (check_powerup_local t i u u' Ei))
                  snapshot g g' Hnd E k s Hk) as (s' & Hk' & Hout & Hin).
      exists s'. split; [exact Hk'|].
      destruct (in_dec Nat.eq_dec k snapshot) as [Hks | Hks].
      * destruct (Hin Hks) as [-> | Hadd]; [left; reflexivity|].
        right. split; [reflexivity|]. split; [exact Hks | exact Hadd].
      * left. exact (Hout Hks).
  - intros [= <-]. split; [apply late_frame_refl|]. split; [reflexivity|].
    intros k s Hk. exists s. split; [exact Hk | left; reflexivity].
Qed.

(** ** The collision loops *)

Lemma only_alive_refl (s : Snake) : only_alive s s.
Proof. destruct s. reflexivity. Qed.

Lemma only_alive_trans (x y z : Snake) :
  only_alive x y -> only_alive y z -> only_alive x z.
Proof. unfold only_alive. intros -> ->. reflexivity. Qed.

Lemma only_alive_fields (s s' : Snake) :
  only_alive s s' ->
  positions s' = positions s /\ invulnerable_time s' = invulnerable_time s.
Proof. unfold only_alive. intros ->. split; reflexivity. Qed.

Lemma strikes_related (ss ss' : list Snake) (a b : nat) :
  related only_alive ss ss' -> strikes ss' a b = strikes ss a b.
Proof.
  intros Hrel. unfold strikes.
  destruct (ss !! a) as [A|] eqn:Ea.
  - destruct (related_lookup _ _ _ _ _ Hrel Ea) as (A' & -> & HA).
    apply only_alive_fields in HA. destruct HA as [-> ->].
    destruct (ss !! b) as [B|] eqn:Eb.
    + destruct (related_lookup _ _ _ _ _ Hrel Eb) as (B' & -> & HB).
      apply only_alive_fields in HB. destruct HB as [-> _]. reflexivity.
    + destruct (ss' !! b) as [B'|] eqn:Eb'; [|reflexivity].
      destruct (related_lookup_r _ _ _ _ _ Hrel Eb') as (B & EB & _). congruence.
  - destruct (ss' !! a) as [A'|] eqn:Ea'; [|reflexivity].
    destruct (related_lookup_r _ _ _ _ _ Hrel Ea') as (A & EA & _). congruence.
Qed.

(** One test of the collision loops, on a roster of bodies with heads:
    the alive flag of the snake at [a] is cleared when it strikes the snake
    at [b], and nothing else changes. *)
Lemma collide_spec (a b : nat) (ss : list Snake) :
  bodies_nonempty ss ->
  exists ss', collide a b ss = Ok ss' /\ related only_alive ss ss' /\
    forall k s s', ss !! k = Some s -> ss' !! k = Some s' ->
      alive s' = alive s && negb ((k =? a)%nat && strikes ss a b).
Proof.
  intros Hne. unfold collide, strikes.
  destruct (ss !! a) as [A|] eqn:Ea; [destruct (ss !! b) as [B|] eqn:Eb|].
  - destruct (Qle_bool (invulnerable_time A) 0) eqn:Hinv; cbn [andb].
    + pose proof (Forall_lookup_1 _ _ _ _ Hne Ea) as HA. cbn beta in HA.
      destruct (positions A) as [|h t]; [congruence|].
      destruct (mem_pos h (positions B)) eqn:Hmem.
      * eexists. split; [reflexivity|]. split.
        -- apply (related_insert only_alive ss a A _ only_alive_refl Ea).
           unfold only_alive. reflexivity.
        -- intros k s s' Hk Hk'. destruct (decide (k = a)) as [->|Hka].
           ++ rewrite list_lookup_insert_eq in Hk' by (eapply lookup_lt_Some; exact Ea).
              injection Hk' as <-. rewrite Nat.eqb_refl. cbn. rewrite andb_false_r.
              reflexivity.
           ++ rewrite list_lookup_insert_ne in Hk' by congruence.
              replace s' with s by congruence.
              apply Nat.eqb_neq in Hka. rewrite Hka. cbn. rewrite andb_true_r.
              reflexivity.
      * exists ss. split; [reflexivity|].
        split; [apply related_refl, only_alive_refl|].
        intros k s s' Hk Hk'. replace s' with s by congruence.
        rewrite andb_false_r. cbn. rewrite andb_true_r. reflexivity.
    + exists ss. split; [reflexivity|]. split; [apply related_refl, only_alive_refl|].
      intros k s s' Hk Hk'. replace s' with s by congruence.
      rewrite andb_false_r. cbn. rewrite andb_true_r. reflexivity.
  - exists ss. split; [reflexivity|]. split; [apply related_refl, only_alive_refl|].
    intros k s s' Hk Hk'. replace s' with s by congruence.
    rewrite andb_false_r. cbn. rewrite andb_true_r. reflexivity.
  - exists ss. split; [reflexivity|]. split; [apply related_refl, only_alive_refl|].
    intros k s s' Hk Hk'. replace s' with s by congruence.
    rewrite andb_false_r. cbn. rewrite andb_true_r. reflexivity.
Qed.

Lemma bodies_nonempty_only_alive (ss ss' : list Snake) :
  related only_alive ss ss' -> bodies_nonempty ss -> bodies_nonempty ss'.
Proof.
  apply bodies_nonempty_related. intros s s' Hs. apply only_alive_fields in Hs.
  destruct Hs as [-> _]. trivial.
Qed.

(** The inner loop for the entry [ia], started on a roster [ss] that differs
    from the roster [ss0] of the start of the step in alive flags only. *)
Lemma collide_inner (ss0 : list Snake) (ia : nat * nat) (js : list (nat * nat))
    (ss : list Snake) :
  bodies_nonempty ss0 -> related only_alive ss0 ss ->
  exists ss', for_each (collide_pair ia) js ss = Ok ss' /\
    related only_alive ss0 ss' /\
    forall k s s', ss !! k = Some s -> ss' !! k = Some s' ->
      alive s' = alive s && negb ((k =? snd ia)%nat && hit ss0 js ia).
Proof.
  intros Hne. revert ss. induction js as [|jb js IH]; intros ss Hrel.
  - exists ss. split; [reflexivity|]. split; [exact Hrel|].
    intros k s s' Hk Hk'. replace s' with s by congruence.
    cbn. rewrite andb_false_r. cbn. rewrite andb_true_r. reflexivity.
  - assert (exists ss1, collide_pair ia jb ss = Ok ss1 /\ related only_alive ss ss1 /\
              forall k s s', ss !! k = Some s -> ss1 !! k = Some s' ->
                alive s' = alive s &&
                  negb ((k =? snd ia)%nat &&
                        (negb (fst ia =? fst jb)%nat && strikes ss0 (snd ia) (snd jb))))
      as (ss1 & E1 & R1 & A1).
    { unfold collide_pair. destruct (fst ia =? fst jb)%nat.
      - exists ss. split; [reflexivity|]. split; [apply related_refl, only_alive_refl|].
        intros k s s' Hk Hk'. replace s' with s by congruence.
        cbn. rewrite andb_false_r. cbn. rewrite andb_true_r. reflexivity.
      - destruct (collide_spec (snd ia) (snd jb) ss
                    (bodies_nonempty_only_alive _ _ Hrel Hne)) as (ss1 & E1 & R1 & A1).
        exists ss1. split; [exact E1|]. split; [exact R1|].
        intros k s s' Hk Hk'. rewrite (A1 k s s' Hk Hk').
        rewrite (strikes_related ss0 ss _ _ Hrel). reflexivity. }
    assert (related only_alive ss0 ss1) as Hrel1.
    { exact (related_trans _ _ _ _ only_alive_trans Hrel R1). }
    destruct (IH ss1 Hrel1) as (ss' & E' & R' & A').
    exists ss'. split; [cbn [for_each]; rewrite E1; exact E'|]. split; [exact R'|].
    intros k s s' Hk Hk'.
    destruct (related_lookup _ _ _ _ _ R1 Hk) as (s1 & Hk1 & _).
    rewrite (A' k s1 s' Hk1 Hk'), (A1 k s s1 Hk Hk1).
    unfold hit. cbn [existsb].
    destruct (alive s), (k =? snd ia)%nat, (negb (fst ia =? fst jb)%nat),
      (strikes ss0 (snd ia) (snd jb)); reflexivity.
Qed.

Lemma collide_outer (ss0 : list Snake) (es ias : list (nat * nat)) (ss : list Snake) :
  bodies_nonempty ss0 -> related only_alive ss0 ss ->
  exists ss',
    for_each (fun ia => for_each (collide_pair ia) es) ias ss = Ok ss' /\
    related only_alive ss0 ss' /\
    forall k s s', ss !! k = Some s -> ss' !! k = Some s' ->
      alive s' = alive s &&
        negb (existsb (fun ia => (k =? snd ia)%nat && hit ss0 es ia) ias).
Proof.
  intros Hne. revert ss. induction ias as [|ia ias IH]; intros ss Hrel.
  - exists ss. split; [reflexivity|]. split; [exact Hrel|].
    intros k s s' Hk Hk'. replace s' with s by congruence.
    cbn. rewrite andb_true_r. reflexivity.
  - destruct (collide_inner ss0 ia es ss Hne Hrel) as (ss1 & E1 & R1 & A1).
    destruct (IH ss1 R1) as (ss' & E' & R' & A').
    exists ss'. split; [cbn [for_each]; rewrite E1; exact E'|]. split; [exact R'|].
    intros k s s' Hk Hk'.
    assert (exists s1, ss1 !! k = Some s1) as [s1 Hk1].
    { destruct (ss1 !! k) as [s1|] eqn:E; [eauto|].
      apply lookup_ge_None in E. apply lookup_lt_Some in Hk.
      destruct Hrel as [L0 _], R1 as [L1 _]. lia. }
    rewrite (A' k s1 s' Hk1 Hk'), (A1 k s s1 Hk Hk1). cbn [existsb].
    destruct (alive s), (k =? snd ia)%nat, (hit ss0 es ia); reflexivity.
Qed.

(** The collision loops on a roster of bodies with heads return; they clear
    the alive flag of the snakes that strike another entry of the snapshot
    and change nothing else. *)
Lemma collide_all_spec (snapshot : list nat) (ss : list Snake) :
  bodies_nonempty ss ->
  exists ss', collide_all snapshot ss = Ok ss' /\ related only_alive ss ss' /\
    forall k s s', ss !! k = Some s -> ss' !! k = Some s' ->
      alive s' = alive s && negb (struck ss (enumerate snapshot) k).
Proof.
  intros Hne. unfold collide_all, struck.
  apply collide_outer; [exact Hne | apply related_refl, only_alive_refl].
Qed.

Lemma combine_seq_In {A : Type} (l : list A) (start j : nat) (x : A) :
  In (j, x) (combine (seq start (length l)) l) <->
  (start <= j)%nat /\ l !! (j - start)%nat = Some x.
Proof.
  revert start. induction l as [|y l IH]; intros start; cbn [length seq combine In].
  - split; [intros [] | intros [_ E]; discriminate].
  - rewrite IH. split.
    + intros [[= <- <-] | [Hle E]].
      * split; [lia|]. rewrite Nat.sub_diag. reflexivity.
      * split; [lia|]. replace (j - start)%nat with (S (j - S start)) by lia. exact E.
    + intros [Hle E]. destruct (decide (j = start)) as [->|Hne].
      * left. rewrite Nat.sub_diag in E. injection E as <-. reflexivity.
      * right. split; [lia|].
        replace (j - start)%nat with (S (j - S start)) in E by lia. exact E.
Qed.

Lemma enumerate_In {A : Type} (l : list A) (j : nat) (x : A) :
  In (j, x) (enumerate l) <-> l !! j = Some x.
Proof.
  unfold enumerate. rewrite combine_seq_In, Nat.sub_0_r. split; [tauto|].
  intros E. split; [lia | exact E].
Qed.


(** ** The end of a round *)

(** [max(l, key=score)]: the first snake of greatest score. *)
Lemma max_from_score (best : Snake) (l : list Snake) :
  exists k,
    (best :: l) !! k = Some (max_from (fun s b => score b <? score s) best l) /\
    (forall s, In s (best :: l) ->
       score s <= score (max_from (fun s b => score b <? score s) best l)) /\
    (forall j s, (j < k)%nat -> (best :: l) !! j = Some s ->
       score s < score (max_from (fun s b => score b <? score s) best l)).
Proof.
  revert best. induction l as [|x l IH]; intros best.
  - exists 0%nat. cbn [max_from]. split; [reflexivity|]. split.
    + intros s [<- | []]. lia.
    + intros j s Hj. lia.
  - cbn [max_from]. destruct (score best <? score x) eqn:Hlt.
    + apply Z.ltb_lt in Hlt. destruct (IH x) as (k & Hk & Hall & Hfirst).
      set (m := max_from (fun s b => score b <? score s) x l) in *.
      exists (S k). split; [exact Hk|]. split.
      * intros s [<- | Hs]; [|exact (Hall s Hs)].
        specialize (Hall x (or_introl eq_refl)). lia.
      * intros j s Hj Hs. destruct j as [|j].
        -- injection Hs as <-. specialize (Hall x (or_introl eq_refl)). lia.
        -- apply (Hfirst j s); [lia | exact Hs].
    + apply Z.ltb_ge in Hlt. destruct (IH best) as (k & Hk & Hall & Hfirst).
      set (m := max_from (fun s b => score b <? score s) best l) in *.
      assert (Hbest : score best <= score m) by (apply Hall; left; reflexivity).
      destruct k as [|k].
      * exists 0%nat. split; [exact Hk|]. split.
        -- intros s [<- | [<- | Hs]]; [exact Hbest | lia |].
           apply Hall. right. exact Hs.
        -- intros j s Hj. lia.
      * exists (S (S k)). split; [exact Hk|]. split.
        -- intros s [<- | [<- | Hs]]; [exact Hbest | lia |].
           apply Hall. right. exact Hs.
        -- intros j s Hj Hs.
           assert (score best < score m) as Hb.
           { apply (Hfirst 0%nat best); [lia | reflexivity]. }
           destruct j as [|[|j]].
           ++ injection Hs as <-. exact Hb.
           ++ injection Hs as <-. lia.
           ++ apply (Hfirst (S j) s); [lia | exact Hs].
Qed.

Lemma insert_desc_In (e x : ScoreEntry) (l : list ScoreEntry) :
  In x (insert_desc e l) <-> x = e \/ In x l.
Proof.
  induction l as [|y l IH]; cbn [insert_desc].
  - cbn. intuition congruence.
  - destruct (entry_score e <? entry_score y); cbn [In]; [rewrite IH|];
      intuition congruence.
Qed.

Lemma insert_desc_length (e : ScoreEntry) (l : list ScoreEntry) :
  length (insert_desc e l) = S (length l).
Proof.
  induction l as [|y l IH]; cbn [insert_desc]; [reflexivity|].
  destruct (entry_score e <? entry_score y); cbn [length]; [rewrite IH|]; reflexivity.
Qed.

Lemma sort_desc_In (x : ScoreEntry) (l : list ScoreEntry) :
  In x (sort_desc l) <-> In x l.
Proof.
  unfold sort_desc. induction l as [|y l IH]; cbn [foldr]; [reflexivity|].
  rewrite insert_desc_In, IH. cbn [In]. intuition congruence.
Qed.

Lemma sort_desc_length (l : list ScoreEntry) : length (sort_desc l) = length l.
Proof.
  unfold sort_desc. induction l as [|y l IH]; cbn [foldr]; [reflexivity|].
  rewrite insert_desc_length, IH. reflexivity.
Qed.

(** A score added to a list of fewer than 10 entries is in the list. *)
Lemma add_score_recorded (sc : Z) (name : string) (mode : Mode) (stamp : Q)
    (h : HighScoreManager) :
  let table h := match mode with
                 | single => high_scores_single h
                 | multi => high_scores_multi h
                 end in
  (length (table h) < 10)%nat ->
  In (mkScoreEntry name sc stamp) (table (add_score sc name mode stamp h)).
Proof.
  intros table Hlen.
  assert (forall l, (length l < 10)%nat ->
            In (mkScoreEntry name sc stamp)
               (take 10 (sort_desc (l ++ [mkScoreEntry name sc stamp])))) as Hin.
  { intros l Hl. rewrite take_ge.
    - apply sort_desc_In, in_or_app. right. left. reflexivity.
    - rewrite sort_desc_length, length_app. cbn [length]. lia. }
  unfold add_score, table in *. destruct mode; cbn; apply Hin; exact Hlen.
Qed.


(** ** The tick as a whole *)

Lemma collide_related (a b : nat) (ss ss' : list Snake) :
  collide a b ss = Ok ss' -> related only_alive ss ss'.
Proof.
  unfold collide. destruct (ss !! a) as [A|] eqn:Ea; [destruct (ss !! b) as [B|]|];
    try (intros [= <-]; apply related_refl, only_alive_refl).
  destruct (Qle_bool (invulnerable_time A) 0);
    [|intros [= <-]; apply related_refl, only_alive_refl].
  destruct (positions A) as [|h t]; [discriminate|].
  destruct (mem_pos h (positions B)); intros [= <-];
    [|apply related_refl, only_alive_refl].
  apply (related_insert only_alive ss a A _ only_alive_refl Ea). reflexivity.
Qed.

Lemma snake_collisions_frame (snapshot : list nat) (g g' : Game) :
  snake_collisions snapshot g = Ok g' ->
  late_frame g g' /\ related only_alive (snakes g) (snakes g').
Proof.
  unfold snake_collisions.
  destruct (multiplayer g && (1 <? length snapshot)%nat).
  - intros E. apply bind_Ok in E. destruct E as (ss' & E & [= <-]).
    split; [repeat split; reflexivity|]. cbn [snakes set_snakes].
    unfold collide_all in E.
    apply (for_each_inv _ (related only_alive (snakes g)) _ _ _) in E;
      [exact E | | apply related_refl, only_alive_refl].
    intros ia u u' _ Hu Eu.
    apply (for_each_inv _ (related only_alive (snakes g)) _ _ _) in Eu;
      [exact Eu | | exact Hu].
    intros jb v v' _ Hv Ev. unfold collide_pair in Ev.
    destruct (fst ia =? fst jb)%nat; [injection Ev as <-; exact Hv|].
    exact (related_trans _ _ _ _ only_alive_trans Hv (collide_related _ _ _ _ Ev)).
  - intros [= <-]. split; [apply late_frame_refl | apply related_refl, only_alive_refl].
Qed.

Lemma check_game_over_frame (stamp : Q) (g g' : Game) :
  check_game_over stamp g = Ok g' -> late_frame g g' /\ snakes g' = snakes g.
Proof.
  unfold check_game_over. destruct (negb (existsb alive (snakes g)));
    [|intros [= <-]; split; [apply late_frame_refl | reflexivity]].
  change (multiplayer (set_state GAME_OVER g)) with (multiplayer g).
  change (snakes (set_state GAME_OVER g)) with (snakes g).
  destruct (multiplayer g).
  - intros E. apply bind_Ok in E. destruct E as (w & _ & [= <-]).
    split; [repeat split; reflexivity | reflexivity].
  - destruct (snakes g) eqn:Hss; [discriminate|]. intros [= <-].
    split; [repeat split; reflexivity | exact Hss].
Qed.

Section TickSteps.

Variables W H : Z.

(** The steps of a tick that returns. *)
Lemma tick_Ok (f : Frame) (draws : list Pos) (g g' : Game) (draws' : list Pos) :
  tick W H f draws g = Ok (g', draws') ->
  exists ss1 g2 g3 g4,
    move_snakes W H (alive_snakes (snakes g)) (snakes g) = Ok ss1 /\
    food_collisions (alive_snakes (snakes g)) draws
      (set_snakes ss1 (set_move_timer 0 g)) = Ok (g2, draws') /\
    powerup_collisions (frame_time f) (alive_snakes (snakes g)) g2 = Ok g3 /\
    snake_collisions (alive_snakes (snakes g)) g3 = Ok g4 /\
    check_game_over (frame_stamp f) g4 = Ok g'.
Proof.
  unfold tick. change (snakes (set_move_timer 0 g)) with (snakes g). intros E.
  apply bind_Ok in E. destruct E as (ss1 & E1 & E).
  apply bind_Ok in E. destruct E as ([g2 d2] & E2 & E).
  apply bind_Ok in E. destruct E as (g3 & E3 & E).
  apply bind_Ok in E. destruct E as (g4 & E4 & E).
  apply bind_Ok in E. destruct E as (g5 & E5 & [= <- <-]).
  exists ss1, g2, g3, g4. auto.
Qed.

Lemma move_keeps_nonempty (s s' : Snake) (b : bool) :
  move W H s = Ok (s', b) -> positions s <> [] -> positions s' <> [].
Proof.
  intros E Hne. destruct (alive s) eqn:Ha.
  - destruct (move_alive W H s Ha Hne) as (s2 & b2 & E2 & Hcase).
    rewrite E in E2. injection E2 as <- <-.
    destruct Hcase as [[_ ->] | (_ & _ & Hp & _)]; [exact Hne | exact Hp].
  - rewrite (move_dead W H s Ha) in E. injection E as <- _. exact Hne.
Qed.

(** A snake that is not alive after its move has the body it had before. *)
Lemma move_dead_after (s s' : Snake) (b : bool) :
  move W H s = Ok (s', b) -> positions s <> [] -> alive s' = false ->
  positions s' = positions s.
Proof.
  intros E Hne Hdead. destruct (alive s) eqn:Ha.
  - destruct (move_alive W H s Ha Hne) as (s2 & b2 & E2 & Hcase).
    rewrite E in E2. injection E2 as <- <-.
    destruct Hcase as [[_ ->] | (_ & Hal & _)]; [reflexivity | congruence].
  - rewrite (move_dead W H s Ha) in E. injection E as <- _. reflexivity.
Qed.

Lemma move_snakes_related (ss ss' : list Snake) :
  move_snakes W H (alive_snakes ss) ss = Ok ss' ->
  related (fun s s' => exists b, move W H s = Ok (s', b)) ss ss'.
Proof.
  intros E. split; [exact (move_snakes_length W H _ _ _ E)|].
  intros k s s' Hk Hk'.
  destruct (move_snakes_spec W H ss ss' E k s Hk) as (s1 & b & Hs1 & Hm).
  exists b. congruence.
Qed.

(** After the moves of a tick started between two ticks, the match is in
    the state [moved]. *)
Lemma moved_after_moves (g : Game) (ss1 : list Snake) :
  settled g ->
  move_snakes W H (alive_snakes (snakes g)) (snakes g) = Ok ss1 ->
  moved (set_snakes ss1 (set_move_timer 0 g)).
Proof.
  intros (Hne & Hoff & Hval) E. pose proof (move_snakes_related _ _ E) as Hrel.
  split; [|split]; cbn [snakes food set_snakes set_move_timer].
  - apply (bodies_nonempty_related _ _ _ (fun s s' '(ex_intro _ b Hm) =>
             move_keeps_nonempty s s' b Hm) Hrel Hne).
  - intros k s1 Hk1 Hdead.
    destruct (related_lookup_r _ _ _ _ _ Hrel Hk1) as (s & Hk & b & Hm).
    pose proof (Forall_lookup_1 _ _ _ _ Hne Hk) as Hs. cbn beta in Hs.
    rewrite (move_dead_after s s1 b Hm Hs Hdead).
    exact (Forall_lookup_1 _ _ _ _ Hoff Hk).
  - exact Hval.
Qed.

(** The snakes alive after the moves are the snakes of the snapshot that
    are still alive. *)
Lemma alive_after_moves (ss ss1 : list Snake) :
  move_snakes W H (alive_snakes ss) ss = Ok ss1 ->
  List.filter (alive_at ss1) (alive_snakes ss) = alive_snakes ss1.
Proof.
  intros E. pose proof (move_snakes_related _ _ E) as Hrel.
  unfold alive_snakes. rewrite (proj1 Hrel).
  apply (filter_filter_imp (alive_at ss) (alive_at ss1)).
  intros k _ Hk1. unfold alive_at in *.
  destruct (ss1 !! k) as [s1|] eqn:E1; [|discriminate].
  destruct (related_lookup_r _ _ _ _ _ Hrel E1) as (s & -> & b & Hm).
  destruct (alive s) eqn:Ha; [reflexivity|].
  rewrite (move_dead W H s Ha) in Hm. injection Hm as <- _. congruence.
Qed.

End TickSteps.

(** ** The food loop and step 3 of the specification *)

(** On the three difficulties the truncation of the source and the floor of
    the specification give the same points for a food worth 10. *)
Lemma points_floor (d : Difficulty) :
  py_int (inject_Z 10 * multiplier d)%Q = Qfloor (inject_Z 10 * multiplier d)%Q.
Proof. destruct d; vm_compute; reflexivity. Qed.

(** In the state [moved], a round of the food loop for a snake that is alive
    is step 3 of the specification for that agent, and a round for a snake
    that is not alive does nothing. *)
Lemma check_food_agrees (i : nat) (g : Game) (draws : list Pos) :
  moved g ->
  check_food i (g, draws)
  = if alive_at (snakes g) i then spec_pickup i (g, draws) else Ok (g, draws).
Proof.
  intros (Hne & Hdead & Hval). unfold alive_at, check_food, spec_pickup.
  destruct (snakes g !! i) as [s|] eqn:Hi; [|reflexivity].
  pose proof (Forall_lookup_1 _ _ _ _ Hne Hi) as Hs. cbn beta in Hs.
  destruct (positions s) as [|h t] eqn:Hp; [congruence|]. cbn [head].
  destruct (alive s) eqn:Ha.
  - destruct (pos_eqb h (food_position (food g))) eqn:Hh.
    + apply pos_eqb_eq in Hh. subst h.
      rewrite bool_decide_eq_true_2 by reflexivity.
      f_equal. f_equal. f_equal. unfold food_points. rewrite Hval, points_floor.
      change (power_ups (grow 2 s)) with (power_ups s).
      change (score (grow 2 s)) with (score s).
      destruct (power_ups s !! DOUBLE_POINTS) as [e|] eqn:Hd.
      * rewrite bool_decide_eq_true_2 by eauto. f_equal. lia.
      * rewrite bool_decide_eq_false_2 by (intros [? ?]; discriminate). reflexivity.
    + apply pos_eqb_neq in Hh.
      rewrite bool_decide_eq_false_2 by congruence. reflexivity.
  - specialize (Hdead i s Hi Ha). rewrite Hp in Hdead. cbn [head] in Hdead.
    destruct (pos_eqb h (food_position (food g))) eqn:Hh; [|reflexivity].
    apply pos_eqb_eq in Hh. congruence.
Qed.

Lemma alive_at_related (R : Snake -> Snake -> Prop) (ss ss' : list Snake) (k : nat) :
  (forall s s', R s s' -> alive s' = alive s) ->
  related R ss ss' -> alive_at ss' k = alive_at ss k.
Proof.
  intros HR Hrel. unfold alive_at. destruct (ss !! k) as [s|] eqn:E.
  - destruct (related_lookup _ _ _ _ _ Hrel E) as (s' & -> & Hs). exact (HR _ _ Hs).
  - destruct (ss' !! k) as [s'|] eqn:E'; [|reflexivity].
    destruct (related_lookup_r _ _ _ _ _ Hrel E') as (s & Es & _). congruence.
Qed.

(** A round of the food loop keeps the state [moved]. *)
Lemma check_food_moved (i : nat) (g : Game) (draws : list Pos) (g' : Game)
    (draws' : list Pos) :
  moved g -> check_food i (g, draws) = Ok (g', draws') -> moved g'.
Proof.
  intros (Hne & Hdead & Hval) E. pose proof (check_food_frame _ _ _ _ _ E) as Hfr.
  destruct Hfr as (Hrel & Hv & _).
  split; [|split].
  - apply (bodies_nonempty_related keeps_body _ _
             (fun s s' '(conj Hp _) Hs => eq_ind_r (fun l => l <> []) Hs Hp) Hrel Hne).
  - apply check_food_Ok in E.
    destruct E as [(-> & _ & _) | (s & p & Hi & _ & Hfree & ->)]; [exact Hdead|].
    intros k x Hk _ Hh. cbn [snakes food food_position set_food set_snakes] in Hk, Hh.
    destruct (related_lookup_r _ _ _ _ _ Hrel Hk) as (x0 & Hk0 & [Hpos _]).
    apply (Hfree k x0 Hk0). rewrite <- Hpos.
    destruct (positions x) as [|h t]; [discriminate|]. injection Hh as ->.
    left. reflexivity.
  - congruence.
Qed.

(** In the state [moved] the food loop over the snapshot is the loop of the
    specification over the agents of the snapshot that are alive. *)
Lemma food_loop_agrees (snapshot : list nat) (g : Game) (draws : list Pos) :
  moved g ->
  for_each check_food snapshot (g, draws)
  = for_each spec_pickup (List.filter (alive_at (snakes g)) snapshot) (g, draws).
Proof.
  revert g draws. induction snapshot as [|i rest IH]; intros g draws Hg; [reflexivity|].
  cbn [for_each List.filter]. pose proof (check_food_agrees i g draws Hg) as Hi.
  destruct (alive_at (snakes g) i).
  - cbn [for_each]. rewrite <- Hi.
    destruct (check_food i (g, draws)) as [[g1 d1]| |] eqn:E; [|reflexivity..].
    cbn. rewrite (IH g1 d1 (check_food_moved _ _ _ _ _ Hg E)).
    f_equal. apply filter_ext_In. intros k _.
    apply (alive_at_related keeps_body); [intros ? ? [_ Ha]; exact Ha|].
    exact (proj1 (check_food_frame _ _ _ _ _ E)).
  - rewrite Hi. cbn. apply IH. exact Hg.
Qed.

(** ** The states between two ticks *)

Lemma nonempty_head {A : Type} (l l' : list A) :
  head l' = head l -> l <> [] -> l' <> [].
Proof. destruct l, l'; cbn; congruence. Qed.

Lemma powerup_collisions_related (t : Q) (snapshot : list nat) (g g' : Game) :
  NoDup snapshot -> powerup_collisions t snapshot g = Ok g' ->
  related (picked t) (snakes g) (snakes g').
Proof.
  intros Hnd E. destruct (powerup_collisions_spec t snapshot g g' Hnd E)
    as (_ & Hlen & Hall).
  split; [exact Hlen|]. intros k s s' Hk Hk'.
  destruct (Hall k s Hk) as (s1 & Hk1 & Hcase).
  replace s' with s1 by congruence.
  destruct Hcase as [-> | (_ & _ & ty & d & ->)]; [left; reflexivity|].
  right. eauto.
Qed.

Lemma food_off_heads_related (R : Snake -> Snake -> Prop) (g g' : Game) :
  (forall s s', R s s' -> head (positions s') = head (positions s)) ->
  related R (snakes g) (snakes g') -> food g' = food g ->
  food_off_heads g -> food_off_heads g'.
Proof.
  intros HR Hrel Hfood Hoff. unfold food_off_heads in *. rewrite Hfood.
  apply Forall_lookup_2. intros k s' Hk'.
  destruct (related_lookup_r _ _ _ _ _ Hrel Hk') as (s & Hk & Hs).
  rewrite (HR _ _ Hs). exact (Forall_lookup_1 _ _ _ _ Hoff Hk).
Qed.

Section Reachable.

Variables W H : Z.

(** A tick takes a state between two ticks to a state between two ticks. *)
Lemma tick_settled (f : Frame) (draws : list Pos) (g g' : Game) (draws' : list Pos) :
  settled g -> tick W H f draws g = Ok (g', draws') -> settled g'.
Proof.
  intros Hg E. apply tick_Ok in E.
  destruct E as (ss1 & g2 & g3 & g4 & E1 & E2 & E3 & E4 & E5).
  pose proof (moved_after_moves W H g ss1 Hg E1) as Hmoved.
  pose proof (food_collisions_frame _ _ _ _ _ E2) as (R2 & V2 & _).
  pose proof (powerup_collisions_related _ _ _ _ (alive_snakes_NoDup _) E3) as R3.
  pose proof (powerup_collisions_spec _ _ _ _ (alive_snakes_NoDup _) E3)
    as ((F3 & _) & _).
  pose proof (snake_collisions_frame _ _ _ E4) as ((F4 & _) & R4).
  pose proof (check_game_over_frame _ _ _ E5) as ((F5 & _) & S5).
  assert (settled g2) as (N2 & O2 & W2).
  { destruct Hmoved as (Hne & _ & Hval). split; [|split].
    - apply (bodies_nonempty_related keeps_body _ _
               (fun s s' '(conj Hp _) Hs => eq_ind_r (fun l => l <> []) Hs Hp) R2 Hne).
    - refine (food_collisions_off_heads _ _ _ _ _ _ E2). intros k s Hk Hh.
      cbn [snakes food set_snakes set_move_timer] in Hk, Hh.
      destruct (in_dec Nat.eq_dec k (alive_snakes (snakes g))) as [Hin|Hout];
        [exact Hin | exfalso].
      destruct Hg as (Hne0 & Hoff0 & _).
      destruct (related_lookup_r _ _ _ _ _ (move_snakes_related W H _ _ E1) Hk)
        as (s0 & Hk0 & b & Hm).
      assert (alive s0 = false) as Ha0.
      { destruct (alive s0) eqn:Ha; [|reflexivity]. exfalso. apply Hout.
        apply alive_snakes_In. eauto. }
      rewrite (move_dead W H s0 Ha0) in Hm. injection Hm as <- _.
      exact (Forall_lookup_1 _ _ _ _ Hoff0 Hk0 Hh).
    - rewrite V2. exact Hval. }
  assert (settled g3) as (N3 & O3 & W3).
  { split; [|split].
    - apply (bodies_nonempty_related (picked (frame_time f)) _ _
               (fun s s' Hp => nonempty_head _ _ (proj2 (picked_keeps _ _ _ Hp))) R3 N2).
    - apply (food_off_heads_related (picked (frame_time f)) g2 g3
               (fun s s' Hp => proj2 (picked_keeps _ _ _ Hp)) R3 F3 O2).
    - rewrite F3. exact W2. }
  assert (settled g4) as (N4 & O4 & W4).
  { split; [|split].
    - exact (bodies_nonempty_only_alive _ _ R4 N3).
    - apply (food_off_heads_related only_alive g3 g4
               (fun s s' Hs => f_equal head (proj1 (only_alive_fields _ _ Hs))) R4 F4 O3).
    - rewrite F4. exact W3. }
  split; [|split].
  - rewrite S5. exact N4.
  - unfold food_off_heads. rewrite S5, F5. exact O4.
  - rewrite F5. exact W4.
Qed.

Lemma remove_power_up_positions (t : PowerUpType) (s : Snake) :
  positions (remove_power_up t s) = positions s.
Proof.
  unfold remove_power_up. destruct (power_ups s !! t); [|reflexivity].
  destruct t; reflexivity.
Qed.

Lemma Snake_update_positions (dt t : Q) (s : Snake) :
  positions (Snake_update dt t s) = positions s.
Proof.
  unfold Snake_update.
  assert (forall l u, positions (foldl (fun u ty => remove_power_up ty u) u l)
                      = positions u) as Hfold.
  { induction l as [|ty l IH]; intros u; [reflexivity|].
    cbn [foldl]. rewrite IH. apply remove_power_up_positions. }
  destruct (Qlt_bool 0 _); [cbn [positions set_invulnerable_time]|]; apply Hfold.
Qed.

Lemma change_direction_positions (d : Pos) (s : Snake) :
  positions (change_direction d s) = positions s.
Proof. unfold change_direction. destruct (pos_eqb _ _); reflexivity. Qed.

(** A roster rewritten without touching a body, under an unchanged food,
    stays between two ticks. *)
Lemma settled_same_bodies (g g' : Game) :
  related (fun s s' => positions s' = positions s) (snakes g) (snakes g') ->
  food g' = food g -> settled g -> settled g'.
Proof.
  intros Hrel Hfood (Hne & Hoff & Hval). split; [|split].
  - apply (bodies_nonempty_related _ _ _
             (fun s s' Hp Hs => eq_ind_r (fun l => l <> []) Hs Hp) Hrel Hne).
  - apply (food_off_heads_related _ g g' (fun s s' Hp => f_equal head Hp) Hrel Hfood Hoff).
  - rewrite Hfood. exact Hval.
Qed.

Lemma reset_game_settled (draws : list Pos) (g g' : Game) (draws' : list Pos) :
  reset_game W H draws g = Ok (g', draws') -> settled g'.
Proof.
  unfold reset_game. intros E. apply bind_Ok in E.
  destruct E as ([new_food d1] & Ef & E).
  destruct draws as [|p0 rest]; [discriminate|]. injection Ef as <- <-.
  apply respawn_food_Ok in E. destruct E as (p & _ & Hfree & ->).
  cbn [snakes food food_value food_position set_food set_snakes set_move_timer
       set_powerup_manager] in *.
  rewrite occupied_false in Hfree.
  split; [|split]; [| |reflexivity].
  - unfold bodies_nonempty. destruct (multiplayer g); repeat constructor; discriminate.
  - unfold food_off_heads. cbn [snakes food food_position set_food set_snakes].
    apply Forall_forall. intros s Hs Hh. apply list_elem_of_In in Hs.
    apply (Hfree s Hs). destruct (positions s) as [|h t]; [discriminate|].
    injection Hh as ->. left. reflexivity.
Qed.

(** The rosters of [reset_game] have increasing player ids. *)
Lemma reset_game_ids_increasing (draws : list Pos) (g g' : Game) (draws' : list Pos) :
  reset_game W H draws g = Ok (g', draws') -> ids_increasing (snakes g').
Proof.
  unfold reset_game. intros E. apply bind_Ok in E.
  destruct E as ([new_food d1] & _ & E).
  apply respawn_food_Ok in E. destruct E as (p & _ & _ & ->).
  cbn [snakes set_food set_snakes set_move_timer set_powerup_manager].
  intros j k sj sk Hjk Hj Hk.
  destruct (multiplayer g).
  - destruct j as [|[|j]], k as [|[|k]]; try lia; try discriminate.
    injection Hj as <-. injection Hk as <-. reflexivity.
  - destruct j as [|j], k as [|k]; try lia; discriminate.
Qed.

(** Every state the program runs in is a state between two ticks. *)
Lemma reachable_settled (g : Game) : reachable W H g -> settled g.
Proof.
  induction 1 as [g draws g' draws' E | g st _ IH | g t _ IH | g t _ IH
                 | g dt t _ IH | g dt t choice cell _ IH | g i snake d _ IH Hi
                 | g f draws g' draws' _ IH E].
  - exact (reset_game_settled _ _ _ _ E).
  - exact IH.
  - exact IH.
  - exact IH.
  - apply (settled_same_bodies g); [|reflexivity|exact IH].
    cbn [snakes set_snakes]. split; [apply length_map|].
    intros k s s' Hk Hk'. rewrite list_lookup_fmap, Hk in Hk'.
    injection Hk' as <-. apply Snake_update_positions.
  - exact IH.
  - apply (settled_same_bodies g); [|reflexivity|exact IH].
    cbn [snakes set_snakes].
    apply (related_insert (fun s s' => positions s' = positions s) _ i snake _
             (fun x => eq_refl) Hi).
    apply change_direction_positions.
  - exact (tick_settled _ _ _ _ _ IH E).
Qed.

(** [update] stays within [reachable]. *)
Lemma update_reachable (f : Frame) (draws : list Pos) (g g' : Game)
    (draws' : list Pos) :
  reachable W H g -> update W H f draws g = Ok (g', draws') -> reachable W H g'.
Proof.
  intros Hg. unfold update.
  set (t := frame_time f). set (dt := (t - last_update_time g)%Q).
  pose proof (reach_clock W H g t Hg) as H1.
  set (g1 := set_last_update_time t g) in *.
  destruct (state g1); try (intros [= <- <-]; exact H1).
  pose proof (reach_snake_update W H g1 dt t H1) as H2.
  set (g2 := set_snakes (List.map (Snake_update dt t) (snakes g1)) g1) in *.
  assert (reachable W H
            (if powerups (difficulty g2)
             then set_powerup_manager
                    (PowerUpManager_update dt t (frame_choice f) (frame_cell f)
                       (powerup_manager g2)) g2
             else g2)) as H3.
  { destruct (powerups (difficulty g2)); [apply reach_powerups|]; exact H2. }
  set (g3 := if powerups (difficulty g2) then _ else g2) in *.
  intros E. apply bind_Ok in E. destruct E as (fastest & _ & E).
  destruct (Qeq_bool _ 0); [discriminate|].
  pose proof (reach_timer W H g3 (move_timer g3 + dt)%Q H3) as H4.
  set (g4 := set_move_timer (move_timer g3 + dt)%Q g3) in *.
  destruct (Qle_bool _ (move_timer g4)).
  - exact (reach_tick W H g4 f draws g' draws' H4 E).
  - injection E as <- <-. exact H4.
Qed.


End Reachable.

(** ** The length of a body over a tick *)


(** A power-up on the head of an agent that dies at the wall is still picked
    up in that tick: the agent is not alive after the tick and has 4 of its
    8 cells. *)
Example shrink_after_death :
  exists g' s',
    tick GRID_WIDTH GRID_HEIGHT (mkFrame 1 SPEED_BOOST (0, 0) 1) [] shrink_at_wall
      = Ok (g', [])
    /\ snakes g' = [s']
    /\ alive s' = false
    /\ positions s' = straight 59 20 4.
Proof.
  eexists. eexists. split; [vm_compute; reflexivity|].
  repeat split; vm_compute; reflexivity.
Qed.

Section LengthOverTick.

Variables W H : Z.

Lemma move_Ok_nonempty (s s' : Snake) (b : bool) :
  move W H s = Ok (s', b) -> alive s = true -> positions s <> [].
Proof.
  unfold move. intros E Ha. rewrite Ha in E. cbn [negb] in E.
  destruct (positions s); [discriminate | discriminate].
Qed.


End LengthOverTick.

(** ** Instances *)

(** [started] is a result of [reset_game]. *)
Lemma started_reachable : reachable GRID_WIDTH GRID_HEIGHT started.
Proof.
  apply (reach_reset GRID_WIDTH GRID_HEIGHT (blank false) [(15, 20); (16, 20)]
           started []).
  vm_compute. reflexivity.
Qed.


(** In this tick of [started] the snake moves onto the food and eats it. *)
Example started_tick :
  tick GRID_WIDTH GRID_HEIGHT (mkFrame 1 SHRINK (0, 0) 1) [(3, 3)] started
  = Ok (started_next, []).
Proof. vm_compute. reflexivity. Qed.

(** Why C1 is stated for the states the program runs in: the food loop of
    the source goes over the snapshot taken before the moves, and on
    [food_under_head], which is not [settled], it feeds the snake that has
    just died at the wall. *)
Example food_under_head_tick :
  tick GRID_WIDTH GRID_HEIGHT (mkFrame 1 SHRINK (0, 0) 1) [(3, 3)] food_under_head
  = Ok (set_high_score_manager (mkHighScoreManager [mkScoreEntry "Player" 10 1] [])
          (set_state GAME_OVER
             (set_food (mkFood (3, 3) 10)
                (set_snakes
                   [set_alive false (set_score 10 (set_grow_pending 2
                      (set_positions [(59, 20)] (Snake_init 1 (59, 20)))))]
                   food_under_head))), []).
Proof. vm_compute. reflexivity. Qed.


(** In [crossing] the first snake dies and the second one does not. *)
Example crossing_outcome :
  snake_collisions [0%nat; 1%nat] crossing
  = Ok (set_snakes
          [set_alive false (set_positions [(6, 5); (5, 5)] (Snake_init 1 (5, 5)));
           set_positions [(6, 4); (6, 5); (6, 6)] (Snake_init 2 (6, 6))]
          crossing).
Proof. vm_compute. reflexivity. Qed.

(** Two heads that pass through each other: after the tick each snake is
    on the cell the other one left, and both are alive. *)
Example face_to_face_pass :
  tick GRID_WIDTH GRID_HEIGHT (mkFrame 1 SHRINK (0, 0) 1) [] face_to_face
  = Ok (set_snakes
          [set_positions [(6, 5)] (Snake_init 1 (5, 5));
           set_positions [(5, 5)] (set_direction (-1, 0) (Snake_init 2 (6, 5)))]
          face_to_face, []).
Proof. vm_compute. reflexivity. Qed.



(** In [tied] the record goes to player 1. *)
Example tied_outcome :
  check_game_over 7 tied
  = Ok (set_high_score_manager
          (mkHighScoreManager [] [mkScoreEntry "Player 1" 30 7])
          (set_state GAME_OVER tied)).
Proof. vm_compute. reflexivity. Qed.

(** * Further properties of the code

    Properties read off the source beyond the specification: of single
    methods first, then of the key handling and the main loop, then
    invariants of the states the program runs in. As before, [W] and [H]
    stand for the positive constants [GRID_WIDTH] and [GRID_HEIGHT], for
    which [mod] is the [%] of Python. *)

(** ** Moves and turns *)

(** * Further properties of the code *)

(** ** [Snake.move] *)

Lemma in_removelast {A : Type} (x : A) (l : list A) : In x (removelast l) -> In x l.
Proof.
  induction l as [|y l IH]; [intros []|].
  destruct l as [|z l]; [intros []|].
  change (removelast (y :: z :: l)) with (y :: removelast (z :: l)).
  intros [-> | Hin]; [left; reflexivity | right; exact (IH Hin)].
Qed.

Lemma NoDup_removelast {A : Type} (l : list A) : NoDup l -> NoDup (removelast l).
Proof.
  induction l as [|y l IH]; [intros _; constructor|].
  destruct l as [|z l]; [intros _; constructor|].
  change (removelast (y :: z :: l)) with (y :: removelast (z :: l)).
  intros Hnd. apply NoDup_cons in Hnd. destruct Hnd as [Hy Hnd].
  apply NoDup_cons. split; [|exact (IH Hnd)].
  rewrite list_elem_of_In in *. intros Hin. apply Hy. exact (in_removelast _ _ Hin).
Qed.

(** The body after a move that the snake survives. *)
Lemma move_survived_body (W H : Z) (s s' : Snake) (hx hy : Z) (rest : list Pos) :
  alive s = true -> positions s = (hx, hy) :: rest ->
  move W H s = Ok (s', true) ->
  (wall_phase s = true \/ in_grid W H (target W H s hx hy)) /\
  ((invulnerable_time s <= 0)%Q -> ~ In (target W H s hx hy) (positions s)) /\
  (positions s' = target W H s hx hy :: positions s \/
   positions s' = removelast (target W H s hx hy :: positions s)).
Proof.
  intros Ha Hp. unfold move, target. rewrite Ha, Hp. cbn [negb]. rewrite <- Hp.
  assert (Hto : forall p, Ok (move_to p s) = Ok (s', true) ->
    ((invulnerable_time s <= 0)%Q -> ~ In p (positions s)) /\
    (positions s' = p :: positions s \/ positions s' = removelast (p :: positions s))).
  { intros p E. injection E as E. unfold move_to in E.
    destruct (Qle_bool (invulnerable_time s) 0) eqn:Hinv; cbn [andb] in E.
    - destruct (mem_pos p (positions s)) eqn:Hmem; [discriminate|].
      split.
      + intros _ Hin. apply mem_pos_In in Hin. congruence.
      + destruct (0 <? grow_pending s); injection E as <-; [left | right]; reflexivity.
    - split.
      + intros Hle. apply Qle_bool_iff in Hle. congruence.
      + destruct (0 <? grow_pending s); injection E as <-; [left | right]; reflexivity. }
  destruct (wall_phase s); cbn [negb].
  - intros E. split; [left; reflexivity|]. exact (Hto _ E).
  - destruct (off_grid W H _) eqn:Hoff; [discriminate|].
    intros E. split; [right; apply off_grid_false; exact Hoff|]. exact (Hto _ E).
Qed.

Lemma move_on_grid (W H : Z) (s s' : Snake) (b : bool) :
  0 < W -> 0 < H ->
  Forall (in_grid W H) (positions s) ->
  move W H s = Ok (s', b) ->
  Forall (in_grid W H) (positions s').
Proof.
  intros HW HH Hall E. destruct (alive s) eqn:Ha.
  - destruct (positions s) as [|[hx hy] rest] eqn:Hp.
    { unfold move in E. rewrite Ha, Hp in E. discriminate. }
    destruct b.
    + destruct (move_survived_body W H s s' hx hy rest Ha Hp E) as (Hin & _ & Hbody).
      assert (in_grid W H (target W H s hx hy)) as Ht.
      { destruct Hin as [Hw | Hin]; [|exact Hin].
        unfold target. rewrite Hw. split; cbn [fst snd]; apply Z.mod_pos_bound; lia. }
      rewrite <- Hp in Hall.
      destruct Hbody as [-> | ->].
      * constructor; assumption.
      * apply Forall_forall. intros p Hp'. apply list_elem_of_In, in_removelast in Hp'.
        destruct Hp' as [<- | Hp']; [exact Ht|].
        rewrite Forall_forall in Hall. apply Hall, list_elem_of_In. exact Hp'.
    + assert (positions s <> []) as Hne by (rewrite Hp; discriminate).
      destruct (move_alive W H s Ha Hne) as (s2 & b2 & E2 & Hcase).
      rewrite E in E2. injection E2 as <- <-.
      destruct Hcase as [[_ ->] | (Hb & _)]; [|discriminate].
      rewrite <- Hp in Hall. exact Hall.
  - rewrite (move_dead W H s Ha) in E. injection E as <- _. exact Hall.
Qed.

(** X1: [move] keeps a body on the grid: when every cell of the body is on a
    grid of positive width and height, so is every cell after the move,
    with and without wall phase. *)
Theorem move_keeps_body_on_grid (W H : Z) (s s' : Snake) (b : bool) :
  0 < W -> 0 < H ->
  Forall (in_grid W H) (positions s) ->
  move W H s = Ok (s', b) ->
  Forall (in_grid W H) (positions s').
Proof.
  exact (move_on_grid W H s s' b).
Qed.

(** X1 for the first move of a fresh snake on the grid of the source. *)
Lemma move_keeps_body_on_grid_witness :
  Forall (in_grid GRID_WIDTH GRID_HEIGHT)
    (positions (set_positions [(16, 20)] (Snake_init 1 (15, 20)))).
Proof.
  apply (move_keeps_body_on_grid GRID_WIDTH GRID_HEIGHT (Snake_init 1 (15, 20))
           (set_positions [(16, 20)] (Snake_init 1 (15, 20))) true).
  - reflexivity.
  - reflexivity.
  - repeat constructor; vm_compute; easy.
  - reflexivity.
Defined.

(** X2: [move] of a snake that is not invulnerable keeps a body without
    repeated cells free of repeated cells. *)
Theorem move_keeps_body_without_repeats (W H : Z) (s s' : Snake) (b : bool) :
  (invulnerable_time s <= 0)%Q ->
  NoDup (positions s) ->
  move W H s = Ok (s', b) ->
  NoDup (positions s').
Proof.
  intros Hinv Hnd E. destruct (alive s) eqn:Ha.
  - destruct (positions s) as [|[hx hy] rest] eqn:Hp.
    { unfold move in E. rewrite Ha, Hp in E. discriminate. }
    rewrite <- Hp in Hnd. destruct b.
    + destruct (move_survived_body W H s s' hx hy rest Ha Hp E) as (_ & Hfresh & Hbody).
      assert (NoDup (target W H s hx hy :: positions s)) as Hnd'.
      { apply NoDup_cons. split; [|exact Hnd].
        rewrite list_elem_of_In. exact (Hfresh Hinv). }
      destruct Hbody as [-> | ->]; [exact Hnd' | exact (NoDup_removelast _ Hnd')].
    + assert (positions s <> []) as Hne by (rewrite Hp; discriminate).
      destruct (move_alive W H s Ha Hne) as (s2 & b2 & E2 & Hcase).
      rewrite E in E2. injection E2 as <- <-.
      destruct Hcase as [[_ ->] | (Hb & _)]; [exact Hnd | discriminate].
  - rewrite (move_dead W H s Ha) in E. injection E as <- _. exact Hnd.
Qed.

(** X2 for the move of a snake of three cells. *)
Lemma move_keeps_body_without_repeats_witness :
  NoDup (positions (set_positions (straight 21 20 3) (Snake_init 1 (20, 20)))).
Proof.
  apply (move_keeps_body_without_repeats GRID_WIDTH GRID_HEIGHT
           (set_positions (straight 20 20 3) (Snake_init 1 (20, 20)))
           (set_positions (straight 21 20 3) (Snake_init 1 (20, 20))) true).
  - vm_compute. discriminate.
  - apply NoDup_ListNoDup. repeat constructor; cbn; intuition discriminate.
  - reflexivity.
Defined.

(** X3: a snake that is not invulnerable dies when it moves onto its own
    tail cell, although the move would have taken the tail off that cell:
    the body is tested before the tail is dropped. *)
Theorem move_onto_own_tail_kills (W H : Z) (s : Snake) (hx hy : Z) (rest : list Pos) :
  alive s = true -> (invulnerable_time s <= 0)%Q ->
  positions s = (hx, hy) :: rest ->
  wall_phase s = true \/ in_grid W H (target W H s hx hy) ->
  List.last (positions s) (hx, hy) = target W H s hx hy ->
  move W H s = Ok (set_alive false s, false).
Proof.
  intros Ha Hinv Hp Hin Htail.
  assert (In (target W H s hx hy) (positions s)) as Hmem.
  { rewrite <- Htail.
    assert (positions s <> []) as Hne by (rewrite Hp; discriminate).
    rewrite (app_removelast_last (hx, hy) Hne) at 2.
    apply in_or_app. right. left. reflexivity. }
  apply mem_pos_In in Hmem. apply Qle_bool_iff in Hinv.
  unfold move. rewrite Ha, Hp. cbn [negb]. rewrite <- ?Hp.
  unfold target in Hmem, Hin.
  destruct (wall_phase s); cbn [negb].
  - unfold move_to. rewrite Hinv, Hmem. reflexivity.
  - destruct Hin as [? | Hgrid]; [discriminate|].
    apply off_grid_false in Hgrid. rewrite Hgrid.
    unfold move_to. rewrite Hinv, Hmem. reflexivity.
Qed.

(** X3 for a snake of four cells that runs in a square. *)
Lemma move_onto_own_tail_kills_witness :
  move GRID_WIDTH GRID_HEIGHT
    (set_positions [(5, 5); (5, 6); (6, 6); (6, 5)] (Snake_init 1 (5, 5)))
  = Ok (set_alive false
          (set_positions [(5, 5); (5, 6); (6, 6); (6, 5)] (Snake_init 1 (5, 5))),
        false).
Proof.
  apply (move_onto_own_tail_kills GRID_WIDTH GRID_HEIGHT
           (set_positions [(5, 5); (5, 6); (6, 6); (6, 5)] (Snake_init 1 (5, 5)))
           5 5 [(5, 6); (6, 6); (6, 5)]).
  - reflexivity.
  - vm_compute. discriminate.
  - reflexivity.
  - right. split; split; vm_compute; easy.
  - reflexivity.
Defined.

(** X4: while it is invulnerable, a snake under wall phase cannot die by
    moving: on a grid of positive width and height the move answers true and
    puts the head on the cell across the border, which is on the grid. *)
Theorem move_under_wall_phase_wraps (W H : Z) (s : Snake) (hx hy : Z)
    (rest : list Pos) :
  0 < W -> 0 < H ->
  alive s = true -> wall_phase s = true -> (0 < invulnerable_time s)%Q ->
  positions s = (hx, hy) :: rest ->
  exists s',
    move W H s = Ok (s', true) /\ alive s' = true /\
    head (positions s')
      = Some ((hx + fst (direction s)) mod W, (hy + snd (direction s)) mod H) /\
    in_grid W H ((hx + fst (direction s)) mod W, (hy + snd (direction s)) mod H).
Proof.
  intros HW HH Ha Hw Hinv Hp.
  assert (Qle_bool (invulnerable_time s) 0 = false) as Hle.
  { destruct (Qle_bool (invulnerable_time s) 0) eqn:E; [|reflexivity].
    apply Qle_bool_iff in E. exfalso. exact (Qlt_not_le _ _ Hinv E). }
  unfold move. rewrite Ha, Hp, Hw. cbn [negb fst snd]. rewrite <- ?Hp.
  unfold move_to. rewrite Hle. cbn [andb].
  assert (positions s <> []) as Hne by (rewrite Hp; discriminate).
  destruct (0 <? grow_pending s); eexists; (split; [reflexivity|]);
    (split; [exact Ha|]); (split; [|split; cbn [fst snd]; apply Z.mod_pos_bound; lia]).
  - reflexivity.
  - cbn [positions set_positions]. apply removelast_cons_head. exact Hne.
Qed.

(** X4 for a snake on the top row that heads up, just after a wall-phase
    power-up. *)
Lemma move_under_wall_phase_wraps_witness :
  exists s',
    move GRID_WIDTH GRID_HEIGHT
      (add_power_up WALL_PHASE 5 0
         (set_direction (0, -1) (set_positions [(3, 0); (3, 1)] (Snake_init 1 (3, 0)))))
    = Ok (s', true) /\ alive s' = true /\
    head (positions s') = Some ((3 + 0) mod GRID_WIDTH, (0 + -1) mod GRID_HEIGHT) /\
    in_grid GRID_WIDTH GRID_HEIGHT ((3 + 0) mod GRID_WIDTH, (0 + -1) mod GRID_HEIGHT).
Proof.
  apply (move_under_wall_phase_wraps GRID_WIDTH GRID_HEIGHT
           (add_power_up WALL_PHASE 5 0
              (set_direction (0, -1)
                 (set_positions [(3, 0); (3, 1)] (Snake_init 1 (3, 0)))))
           3 0 [(3, 1)]); reflexivity.
Defined.

(** ** [Snake.change_direction] *)

Lemma reversed_twice (d : Pos) : reversed (reversed d) = d.
Proof. destruct d as [x y]. unfold reversed. cbn [fst snd]. f_equal; lia. Qed.

(** X5: [change_direction] never turns a moving snake around: whatever
    direction is asked for, the new heading is the one asked for or the old
    one, and it is not the reverse of the old one. *)
Theorem change_direction_never_reverses (d : Pos) (s : Snake) :
  direction s <> (0, 0) ->
  (direction (change_direction d s) = d \/
   direction (change_direction d s) = direction s) /\
  direction (change_direction d s) <> reversed (direction s).
Proof.
  intros Hmoving. unfold change_direction. fold (reversed d).
  destruct (pos_eqb (reversed d) (direction s)) eqn:E.
  - split; [right; reflexivity|]. intros Hrev. apply Hmoving.
    destruct (direction s) as [x y]. unfold reversed in Hrev. cbn [fst snd] in Hrev.
    injection Hrev as Hx Hy. f_equal; lia.
  - split; [left; reflexivity|]. cbn [direction set_direction].
    apply pos_eqb_neq in E. intros ->. apply E. apply reversed_twice.
Qed.

(** X5 for a fresh snake asked to turn left. *)
Lemma change_direction_never_reverses_witness :
  (direction (change_direction (-1, 0) (Snake_init 1 (15, 20))) = (-1, 0) \/
   direction (change_direction (-1, 0) (Snake_init 1 (15, 20)))
   = direction (Snake_init 1 (15, 20))) /\
  direction (change_direction (-1, 0) (Snake_init 1 (15, 20)))
  <> reversed (direction (Snake_init 1 (15, 20))).
Proof.
  apply (change_direction_never_reverses (-1, 0) (Snake_init 1 (15, 20))).
  discriminate.
Defined.

(** X6: two turns between two moves do turn a snake around: after a turn to
    a direction [p] that is neither the heading nor its reverse, a turn to
    the reverse of the heading is taken, and a snake that is not
    invulnerable, whose second cell lies behind its head, then dies on its
    next move. *)
Theorem two_turns_reverse_and_kill (W H : Z) (s : Snake) (p : Pos)
    (hx hy : Z) (rest : list Pos) :
  alive s = true -> (invulnerable_time s <= 0)%Q ->
  positions s = (hx, hy) :: (hx - fst (direction s), hy - snd (direction s)) :: rest ->
  in_grid W H (hx - fst (direction s), hy - snd (direction s)) ->
  p <> direction s -> p <> reversed (direction s) ->
  direction (change_direction (reversed (direction s)) (change_direction p s))
    = reversed (direction s)
  /\ move W H (change_direction (reversed (direction s)) (change_direction p s))
     = Ok (set_alive false
             (change_direction (reversed (direction s)) (change_direction p s)),
           false).
Proof.
  intros Ha Hinv Hp Hgrid Hne Hnr.
  assert (change_direction p s = set_direction p s) as E1.
  { unfold change_direction. fold (reversed p).
    destruct (pos_eqb (reversed p) (direction s)) eqn:E; [|reflexivity].
    apply pos_eqb_eq in E. exfalso. apply Hnr. rewrite <- E. symmetry.
    apply reversed_twice. }
  assert (change_direction (reversed (direction s)) (set_direction p s)
          = set_direction (reversed (direction s)) s) as E2.
  { unfold change_direction. fold (reversed (reversed (direction s))).
    rewrite reversed_twice. cbn [direction set_direction].
    destruct (pos_eqb (direction s) p) eqn:E; [|reflexivity].
    apply pos_eqb_eq in E. congruence. }
  rewrite E1, E2. split; [reflexivity|].
  set (s2 := set_direction (reversed (direction s)) s).
  assert (target W H s2 hx hy = (hx - fst (direction s), hy - snd (direction s))) as Ht.
  { unfold target, s2. cbn [direction set_direction wall_phase]. unfold reversed.
    cbn [fst snd].
    replace (hx + fst (direction s) * -1) with (hx - fst (direction s)) by lia.
    replace (hy + snd (direction s) * -1) with (hy - snd (direction s)) by lia.
    destruct (wall_phase s); [|reflexivity].
    destruct Hgrid as [Hx Hy]. cbn [fst snd] in *.
    rewrite !Z.mod_small by lia. reflexivity. }
  assert (mem_pos (target W H s2 hx hy) (positions s2) = true) as Hmem.
  { apply mem_pos_In. rewrite Ht. unfold s2. cbn [positions set_direction].
    rewrite Hp. right. left. reflexivity. }
  apply Qle_bool_iff in Hinv.
  unfold move. change (alive s2) with (alive s). change (positions s2) with (positions s).
  change (wall_phase s2) with (wall_phase s).
  rewrite Ha, Hp. cbn [negb]. unfold target in Hmem, Ht.
  change (wall_phase s2) with (wall_phase s) in Hmem, Ht.
  destruct (wall_phase s); cbn [negb].
  - unfold move_to. change (invulnerable_time s2) with (invulnerable_time s).
    rewrite Hinv, Hmem. reflexivity.
  - rewrite Ht. apply off_grid_false in Hgrid. rewrite Hgrid.
    unfold move_to. change (invulnerable_time s2) with (invulnerable_time s).
    rewrite <- Ht, Hinv, Hmem. reflexivity.
Qed.

(** X6 for a snake of two cells that heads right and is turned up and then
    left. *)
Lemma two_turns_reverse_and_kill_witness :
  direction (change_direction (reversed (1, 0))
               (change_direction (0, -1)
                  (set_positions [(20, 20); (19, 20)] (Snake_init 1 (20, 20)))))
    = reversed (1, 0)
  /\ move GRID_WIDTH GRID_HEIGHT
       (change_direction (reversed (1, 0))
          (change_direction (0, -1)
             (set_positions [(20, 20); (19, 20)] (Snake_init 1 (20, 20)))))
     = Ok (set_alive false
             (change_direction (reversed (1, 0))
                (change_direction (0, -1)
                   (set_positions [(20, 20); (19, 20)] (Snake_init 1 (20, 20))))),
           false).
Proof.
  apply (two_turns_reverse_and_kill GRID_WIDTH GRID_HEIGHT
           (set_positions [(20, 20); (19, 20)] (Snake_init 1 (20, 20))) (0, -1)
           20 20 []).
  - reflexivity.
  - vm_compute. discriminate.
  - reflexivity.
  - split; split; vm_compute; easy.
  - discriminate.
  - discriminate.
Defined.

(** ** Power-ups of a snake *)

(** X7: a power-up that is added to a snake at rest (no wall phase, speed
    multiplier 1, no power-up of that type yet) and removed again leaves the
    snake as it was, with two exceptions that the removal does not undo: the
    cut of a shrink and the invulnerability of 2 seconds of a wall phase. *)
Theorem add_then_remove_power_up (t : PowerUpType) (d now : Q) (s : Snake) :
  power_ups s !! t = None -> wall_phase s = false -> speed_multiplier s = 1%Q ->
  remove_power_up t (add_power_up t d now s)
  = match t with
    | SHRINK =>
        if (3 <? length (positions s))%nat
        then set_positions (take (length (positions s) / 2) (positions s)) s
        else s
    | WALL_PHASE => set_invulnerable_time 2 s
    | _ => s
    end.
Proof.
  intros Hnone Hwall Hspeed. destruct s as [pid ps dir gp sc al pu inv sp wp].
  cbn [power_ups wall_phase speed_multiplier positions] in *. subst wp sp.
  destruct t; unfold add_power_up, remove_power_up; snake_fields;
    try (rewrite lookup_insert_eq; snake_fields; rewrite delete_insert_eq,
           (delete_id _ _ Hnone); reflexivity).
  destruct (3 <? length ps)%nat; snake_fields; rewrite lookup_insert_eq; snake_fields;
    rewrite delete_insert_eq, (delete_id _ _ Hnone); reflexivity.
Qed.

(** X7 for a speed boost on a fresh snake. *)
Lemma add_then_remove_power_up_witness :
  remove_power_up SPEED_BOOST (add_power_up SPEED_BOOST 5 3 (Snake_init 1 (15, 20)))
  = Snake_init 1 (15, 20).
Proof.
  apply (add_then_remove_power_up SPEED_BOOST 5 3 (Snake_init 1 (15, 20)));
    reflexivity.
Defined.

(** [remove_power_up] deletes the key, present or not. *)
Lemma remove_power_up_keys (k : PowerUpType) (u : Snake) :
  power_ups (remove_power_up k u) = delete k (power_ups u).
Proof.
  unfold remove_power_up. destruct (power_ups u !! k) eqn:E.
  - destruct k; reflexivity.
  - symmetry. apply delete_id. exact E.
Qed.

Lemma remove_power_up_same_run (k : PowerUpType) (u : Snake) :
  same_run u (remove_power_up k u) /\
  invulnerable_time (remove_power_up k u) = invulnerable_time u.
Proof.
  unfold remove_power_up, same_run. destruct (power_ups u !! k); [|tauto].
  destruct k; cbn; tauto.
Qed.

(** The removals of [Snake.update], for any list of types. *)
Lemma fold_remove_power_up (L : list PowerUpType) (u : Snake) :
  let u' := foldl (fun u k => remove_power_up k u) u L in
  (forall k, In k L -> power_ups u' !! k = None) /\
  (forall k, ~ In k L -> power_ups u' !! k = power_ups u !! k) /\
  speed_multiplier u'
    = (if existsb (fun k => speedy k && holds u k) L then 1%Q else speed_multiplier u) /\
  wall_phase u'
    = (if existsb (fun k => walls k && holds u k) L then false else wall_phase u) /\
  same_run u u' /\ invulnerable_time u' = invulnerable_time u.
Proof.
  revert u. induction L as [|k0 L IH]; intros u; cbn zeta.
  - cbn. unfold same_run. tauto.
  - cbn [foldl]. specialize (IH (remove_power_up k0 u)). cbn zeta in IH.
    set (u1 := remove_power_up k0 u) in *.
    set (u' := foldl (fun u k => remove_power_up k u) u1 L) in *.
    destruct IH as (Hin & Hout & Hsp & Hwl & Hrun & Hinv).
    assert (Hkeys : forall k, power_ups u1 !! k
                              = if decide (k0 = k) then None else power_ups u !! k).
    { intros k. unfold u1. rewrite remove_power_up_keys. apply lookup_delete. }
    assert (Hholds : forall k, holds u1 k = holds u k && negb (bool_decide (k0 = k))).
    { intros k. unfold holds. rewrite Hkeys. destruct (decide (k0 = k)) as [->|Hne].
      - rewrite bool_decide_eq_true_2 by reflexivity. rewrite andb_false_r. reflexivity.
      - rewrite bool_decide_eq_false_2 by exact Hne. rewrite andb_true_r. reflexivity. }
    split; [|split; [|split; [|split; [|split]]]].
    + intros k [<- | Hk].
      * destruct (in_dec PowerUpType_eq_dec k0 L) as [Hl | Hl]; [exact (Hin _ Hl)|].
        rewrite (Hout _ Hl), Hkeys. rewrite decide_True by reflexivity. reflexivity.
      * exact (Hin _ Hk).
    + intros k Hk.
      assert (k0 <> k) as Hne by (intros ->; apply Hk; left; reflexivity).
      rewrite (Hout k (fun h => Hk (or_intror h))), Hkeys.
      rewrite decide_False by exact Hne. reflexivity.
    + rewrite Hsp. cbn [existsb].
      assert (existsb (fun k => speedy k && holds u1 k) L
              = existsb (fun k => speedy k && holds u k) L
                && negb (speedy k0 && holds u k0)
              \/ speedy k0 && holds u k0 = true) as Hex.
      { destruct (speedy k0 && holds u k0) eqn:E0; [right; reflexivity|left].
        rewrite andb_true_r. clear -E0 Hholds. induction L as [|k L IHL]; [reflexivity|].
        cbn [existsb]. rewrite IHL, Hholds.
        destruct (decide (k0 = k)) as [->|Hne].
        - rewrite bool_decide_eq_true_2 by reflexivity. rewrite andb_false_r.
          rewrite andb_false_r. rewrite E0. reflexivity.
        - rewrite bool_decide_eq_false_2 by exact Hne. rewrite andb_true_r. reflexivity. }
      assert (speed_multiplier u1
              = if speedy k0 && holds u k0 then 1%Q else speed_multiplier u) as H1.
      { unfold u1, remove_power_up, holds. destruct (power_ups u !! k0);
          [|rewrite andb_false_r; reflexivity].
        destruct k0; reflexivity. }
      destruct Hex as [-> | E0].
      * destruct (speedy k0 && holds u k0) eqn:E0.
        -- rewrite andb_false_r. exact H1.
        -- rewrite andb_true_r, orb_false_l, H1. reflexivity.
      * rewrite H1, E0. cbn [orb].
        destruct (existsb (fun k => speedy k && holds u1 k) L); reflexivity.
    + rewrite Hwl. cbn [existsb].
      assert (existsb (fun k => walls k && holds u1 k) L
              = existsb (fun k => walls k && holds u k) L
                && negb (walls k0 && holds u k0)
              \/ walls k0 && holds u k0 = true) as Hex.
      { destruct (walls k0 && holds u k0) eqn:E0; [right; reflexivity|left].
        rewrite andb_true_r. clear -E0 Hholds. induction L as [|k L IHL]; [reflexivity|].
        cbn [existsb]. rewrite IHL, Hholds.
        destruct (decide (k0 = k)) as [->|Hne].
        - rewrite bool_decide_eq_true_2 by reflexivity. rewrite andb_false_r.
          rewrite andb_false_r. rewrite E0. reflexivity.
        - rewrite bool_decide_eq_false_2 by exact Hne. rewrite andb_true_r. reflexivity. }
      assert (wall_phase u1
              = if walls k0 && holds u k0 then false else wall_phase u) as H1.
      { unfold u1, remove_power_up, holds. destruct (power_ups u !! k0);
          [|rewrite andb_false_r; reflexivity].
        destruct k0; reflexivity. }
      destruct Hex as [-> | E0].
      * destruct (walls k0 && holds u k0) eqn:E0.
        -- rewrite andb_false_r. exact H1.
        -- rewrite andb_true_r, orb_false_l, H1. reflexivity.
      * rewrite H1, E0. cbn [orb].
        destruct (existsb (fun k => walls k && holds u1 k) L); reflexivity.
    + destruct (remove_power_up_same_run k0 u) as [(A1 & A2 & A3 & A4 & A5 & A6) _].
      destruct Hrun as (B1 & B2 & B3 & B4 & B5 & B6).
      unfold same_run. fold u1 in A1, A2, A3, A4, A5, A6.
      repeat split; congruence.
    + destruct (remove_power_up_same_run k0 u) as [_ A]. fold u1 in A. congruence.
Qed.

Lemma expired_powerups_In (t : Q) (s : Snake) (k : PowerUpType) :
  In k (expired_powerups t s) <-> expired t s k = true.
Proof.
  unfold expired_powerups, expired. rewrite in_map_iff. split.
  - intros ([k' e] & <- & Hin). apply filter_In in Hin. destruct Hin as [Hin He].
    apply list_elem_of_In, elem_of_map_to_list in Hin. cbn [fst snd] in *.
    rewrite Hin. exact He.
  - destruct (power_ups s !! k) as [e|] eqn:E; [|discriminate]. intros He.
    exists (k, e). split; [reflexivity|]. apply filter_In. split; [|exact He].
    apply list_elem_of_In, elem_of_map_to_list. exact E.
Qed.

Lemma existsb_expired (t : Q) (s : Snake) (f : PowerUpType -> bool) :
  existsb (fun k => f k && holds s k) (expired_powerups t s)
  = existsb (fun k => f k && expired t s k) powerup_types.
Proof.
  apply eq_true_iff_eq. rewrite !existsb_exists. split.
  - intros (k & Hin & Hk). exists k. split; [destruct k; cbn; tauto|].
    apply expired_powerups_In in Hin. apply andb_true_iff in Hk.
    rewrite Hin, (proj1 Hk). reflexivity.
  - intros (k & _ & Hk). apply andb_true_iff in Hk. destruct Hk as [Hf He].
    exists k. split; [apply expired_powerups_In; exact He|].
    rewrite Hf. unfold expired in He. unfold holds.
    destruct (power_ups s !! k); [reflexivity | discriminate].
Qed.

Lemma Snake_update_power_ups (dt t : Q) (s : Snake) :
  (forall k, power_ups (Snake_update dt t s) !! k
             = if expired t s k then None else power_ups s !! k)
  /\ same_run s (Snake_update dt t s).
Proof.
  pose proof (fold_remove_power_up (expired_powerups t s) s) as Hfold.
  cbn zeta in Hfold. destruct Hfold as (Hin & Hout & _ & _ & Hrun & _).
  assert (Hsame : forall u, same_run s u ->
            same_run s (if Qlt_bool 0 (invulnerable_time u)
                        then set_invulnerable_time (invulnerable_time u - dt)%Q u
                        else u)).
  { intros u Hu. destruct (Qlt_bool 0 (invulnerable_time u)); exact Hu. }
  split.
  - intros k. unfold Snake_update.
    assert (forall u, power_ups (if Qlt_bool 0 (invulnerable_time u)
                                 then set_invulnerable_time (invulnerable_time u - dt)%Q u
                                 else u) = power_ups u) as ->.
    { intros u. destruct (Qlt_bool 0 (invulnerable_time u)); reflexivity. }
    destruct (expired t s k) eqn:E.
    + apply Hin, expired_powerups_In. exact E.
    + apply Hout. rewrite expired_powerups_In. congruence.
  - unfold Snake_update. apply Hsame. exact Hrun.
Qed.

(** X8: [Snake.update] drops exactly the power-ups whose end time lies
    before the current time and keeps the others with their end times; it
    changes neither the body nor the direction, the pending growth, the score
    or the alive flag. *)
Theorem Snake_update_drops_the_expired (dt t : Q) (s : Snake) :
  (forall k, power_ups (Snake_update dt t s) !! k
             = if expired t s k then None else power_ups s !! k)
  /\ same_run s (Snake_update dt t s).
Proof. exact (Snake_update_power_ups dt t s). Qed.

Lemma Snake_update_effects (dt t : Q) (s : Snake) :
  speed_multiplier (Snake_update dt t s)
    = (if expired t s SPEED_BOOST || expired t s SLOW_DOWN
       then 1%Q else speed_multiplier s)
  /\ wall_phase (Snake_update dt t s)
    = (if expired t s WALL_PHASE then false else wall_phase s).
Proof.
  pose proof (fold_remove_power_up (expired_powerups t s) s) as Hfold.
  cbn zeta in Hfold. destruct Hfold as (_ & _ & Hsp & Hwl & _ & _).
  rewrite !existsb_expired in Hsp, Hwl.
  unfold Snake_update.
  set (u := foldl (fun u k => remove_power_up k u) s (expired_powerups t s)) in *.
  assert (speed_multiplier (if Qlt_bool 0 (invulnerable_time u)
                            then set_invulnerable_time (invulnerable_time u - dt)%Q u
                            else u) = speed_multiplier u) as ->.
  { destruct (Qlt_bool 0 (invulnerable_time u)); reflexivity. }
  assert (wall_phase (if Qlt_bool 0 (invulnerable_time u)
                      then set_invulnerable_time (invulnerable_time u - dt)%Q u
                      else u) = wall_phase u) as ->.
  { destruct (Qlt_bool 0 (invulnerable_time u)); reflexivity. }
  rewrite Hsp, Hwl. cbn [existsb powerup_types speedy walls andb orb].
  rewrite !orb_false_r. split; reflexivity.
Qed.

(** X9: when [Snake.update] expires a speed boost or a slow-down it sets the
    speed multiplier to 1, also when the other of the two is still active,
    and leaves it alone otherwise; when it expires a wall phase it clears the
    wall-phase flag, and leaves it alone otherwise. *)
Theorem Snake_update_reverts_effects (dt t : Q) (s : Snake) :
  speed_multiplier (Snake_update dt t s)
    = (if expired t s SPEED_BOOST || expired t s SLOW_DOWN
       then 1%Q else speed_multiplier s)
  /\ wall_phase (Snake_update dt t s)
    = (if expired t s WALL_PHASE then false else wall_phase s).
Proof. exact (Snake_update_effects dt t s). Qed.

(** ** Picking a power-up off the board *)

(** X10: [check_collision] takes out the first active power-up that lies on
    the given cell and returns it, keeping the others in their order; when
    none lies there it returns nothing and the list is unchanged. *)
Theorem check_collision_takes_the_first (p : Pos) (l : list PowerUp) :
  match check_collision p l with
  | (Some x, l') =>
      exists l1 l2, l = l1 ++ x :: l2 /\ l' = l1 ++ l2 /\ pu_position x = p /\
                    Forall (fun y => pu_position y <> p) l1
  | (None, l') => l' = l /\ Forall (fun y => pu_position y <> p) l
  end.
Proof.
  induction l as [|y l IH]; cbn [check_collision].
  - split; [reflexivity | constructor].
  - destruct (pos_eqb (pu_position y) p) eqn:E.
    + apply pos_eqb_eq in E. exists [], l. repeat split; [exact E | constructor].
    + apply pos_eqb_neq in E. destruct (check_collision p l) as [[x|] l'].
      * destruct IH as (l1 & l2 & -> & -> & Hx & Hl1).
        exists (y :: l1), l2. repeat split; [exact Hx|]. constructor; assumption.
      * destruct IH as [-> Hl]. split; [reflexivity|]. constructor; assumption.
Qed.

(** ** The high-score tables *)

Lemma descending_insert (e : ScoreEntry) (l : list ScoreEntry) :
  descending l -> descending (insert_desc e l).
Proof.
  induction l as [|x l IH]; cbn [insert_desc descending].
  - intros _. split; [intros y []|exact I].
  - intros [Hx Hl]. destruct (entry_score e <? entry_score x) eqn:E.
    + apply Z.ltb_lt in E. cbn [descending]. split; [|exact (IH Hl)].
      intros y Hy. apply insert_desc_In in Hy. destruct Hy as [-> | Hy]; [lia|].
      exact (Hx y Hy).
    + apply Z.ltb_ge in E. cbn [descending]. split; [|split; assumption].
      intros y [<- | Hy]; [exact E|]. specialize (Hx y Hy). lia.
Qed.

Lemma descending_sort (l : list ScoreEntry) : descending (sort_desc l).
Proof.
  unfold sort_desc. induction l as [|x l IH]; cbn [foldr]; [exact I|].
  apply descending_insert. exact IH.
Qed.

Lemma descending_take (n : nat) (l : list ScoreEntry) :
  descending l -> descending (take n l).
Proof.
  revert n. induction l as [|x l IH]; intros [|n]; cbn; try tauto.
  intros [Hx Hl]. split; [|exact (IH n Hl)].
  intros y Hy. apply Hx. apply list_elem_of_In in Hy. apply list_elem_of_In.
  exact (subseteq_take n l y Hy).
Qed.

(** X11: after [add_score] the table of the mode is sorted with the greatest
    score first, whatever its order before, holds at most 10 entries, each of
    them the new entry or one of the old ones, and the table of the other
    mode is untouched. *)
Theorem add_score_keeps_a_sorted_top_ten (sc : Z) (name : string) (mode : Mode)
    (stamp : Q) (h : HighScoreManager) :
  let h' := add_score sc name mode stamp h in
  descending (table mode h')
  /\ (length (table mode h') <= 10)%nat
  /\ (forall e, In e (table mode h') ->
                e = mkScoreEntry name sc stamp \/ In e (table mode h))
  /\ table (match mode with single => multi | multi => single end) h'
     = table (match mode with single => multi | multi => single end) h.
Proof.
  cbn zeta.
  assert (Htop : forall l,
    let l' := take 10 (sort_desc (l ++ [mkScoreEntry name sc stamp])) in
    descending l' /\ (length l' <= 10)%nat /\
    (forall e, In e l' -> e = mkScoreEntry name sc stamp \/ In e l)).
  { intros l. cbn zeta. split; [apply descending_take, descending_sort|]. split.
    - rewrite length_take. lia.
    - intros e He. apply list_elem_of_In in He. apply subseteq_take in He.
      apply list_elem_of_In, sort_desc_In, in_app_or in He.
      destruct He as [He | [<- | []]]; [right; exact He | left; reflexivity]. }
  destruct mode; cbn [add_score table high_scores_single high_scores_multi].
  - destruct (Htop (high_scores_single h)) as (A & B & C). repeat split; assumption.
  - destruct (Htop (high_scores_multi h)) as (A & B & C). repeat split; assumption.
Qed.

Lemma insert_desc_head (x : ScoreEntry) (l : list ScoreEntry) :
  (forall y, In y l -> entry_score y <= entry_score x) -> insert_desc x l = x :: l.
Proof.
  destruct l as [|y l]; [reflexivity|]. intros Hx. cbn [insert_desc].
  specialize (Hx y (or_introl eq_refl)).
  destruct (entry_score x <? entry_score y) eqn:E; [apply Z.ltb_lt in E; lia|reflexivity].
Qed.

Lemma sort_desc_append (e : ScoreEntry) (l : list ScoreEntry) :
  descending l ->
  sort_desc (l ++ [e])
  = List.filter (fun x => entry_score e <=? entry_score x) l
    ++ e :: List.filter (fun x => entry_score x <? entry_score e) l.
Proof.
  unfold sort_desc. induction l as [|x l IH]; [reflexivity|].
  intros [Hx Hl]. cbn [app foldr]. rewrite (IH Hl). cbn [List.filter].
  destruct (entry_score e <=? entry_score x) eqn:E.
  - apply Z.leb_le in E.
    assert ((entry_score x <? entry_score e) = false) as -> by (apply Z.ltb_ge; lia).
    cbn [app]. apply insert_desc_head. intros y Hy. apply in_app_or in Hy.
    destruct Hy as [Hy | [<- | Hy]]; [| exact E |];
      apply filter_In in Hy; apply Hx; tauto.
  - apply Z.leb_gt in E.
    assert ((entry_score x <? entry_score e) = true) as -> by (apply Z.ltb_lt; lia).
    assert (List.filter (fun x => entry_score e <=? entry_score x) l = []) as ->.
    { clear -Hx E. induction l as [|y l IHl]; [reflexivity|]. cbn [List.filter].
      assert ((entry_score e <=? entry_score y) = false) as ->.
      { apply Z.leb_gt. specialize (Hx y (or_introl eq_refl)). lia. }
      apply IHl. intros z Hz. apply Hx. right. exact Hz. }
    assert (List.filter (fun x => entry_score x <? entry_score e) l = l) as ->.
    { clear -Hx E. induction l as [|y l IHl]; [reflexivity|]. cbn [List.filter].
      assert ((entry_score y <? entry_score e) = true) as ->.
      { apply Z.ltb_lt. specialize (Hx y (or_introl eq_refl)). lia. }
      f_equal. apply IHl. intros z Hz. apply Hx. right. exact Hz. }
    cbn [app insert_desc]. apply Z.ltb_lt in E. rewrite E. f_equal.
    apply insert_desc_head. exact Hx.
Qed.

(** X12: on a table that is sorted, [add_score] puts the new entry behind
    every entry with at least its score and before every entry with a smaller
    one, and cuts the result to 10: among equal scores the older entries stay
    ahead. *)
Theorem add_score_places_new_entry_after_ties (sc : Z) (name : string)
    (mode : Mode) (stamp : Q) (h : HighScoreManager) :
  descending (table mode h) ->
  table mode (add_score sc name mode stamp h)
  = take 10 (List.filter (fun x => sc <=? entry_score x) (table mode h)
             ++ mkScoreEntry name sc stamp
                :: List.filter (fun x => entry_score x <? sc) (table mode h)).
Proof.
  intros Hd.
  destruct mode; cbn [add_score table high_scores_single high_scores_multi] in *;
    rewrite (sort_desc_append _ _ Hd); reflexivity.
Qed.

(** X12 for a tie with the only entry of the single-player table. *)
Lemma add_score_places_new_entry_after_ties_witness :
  descending [mkScoreEntry "Player 1" 30 1] /\
  table single (add_score 30 "Player 1" single 2
                  (mkHighScoreManager [mkScoreEntry "Player 1" 30 1] []))
  = [mkScoreEntry "Player 1" 30 1; mkScoreEntry "Player 1" 30 2].
Proof.
  assert (Hd : descending (table single
                 (mkHighScoreManager [mkScoreEntry "Player 1" 30 1] []))).
  { cbn. split; [intros y []|exact I]. }
  split; [exact Hd|].
  exact (add_score_places_new_entry_after_ties 30 "Player 1" single 2
           (mkHighScoreManager [mkScoreEntry "Player 1" 30 1] []) Hd).
Defined.

(** X13: a score that does not exceed any entry of a sorted table of 10
    entries is not recorded: [add_score] leaves the table as it was, also when
    the score ties with the tenth entry. *)
Theorem add_score_needs_to_beat_a_full_table (sc : Z) (name : string)
    (mode : Mode) (stamp : Q) (h : HighScoreManager) :
  descending (table mode h) ->
  length (table mode h) = 10%nat ->
  (forall e, In e (table mode h) -> sc <= entry_score e) ->
  add_score sc name mode stamp h = h.
Proof.
  intros Hd Hlen Hall.
  assert (Htop : take 10 (sort_desc (table mode h ++ [mkScoreEntry name sc stamp]))
                 = table mode h).
  { rewrite (sort_desc_append _ _ Hd). cbn [entry_score].
    assert (List.filter (fun x => sc <=? entry_score x) (table mode h) = table mode h)
      as ->.
    { clear -Hall. induction (table mode h) as [|y l IHl]; [reflexivity|].
      cbn [List.filter].
      assert ((sc <=? entry_score y) = true) as ->
        by (apply Z.leb_le, Hall; left; reflexivity).
      f_equal. apply IHl. intros e He. apply Hall. right. exact He. }
    rewrite <- Hlen. apply take_app_length. }
  destruct h as [hs hm]. destruct mode; cbn [add_score table high_scores_single
    high_scores_multi] in *; rewrite Htop; reflexivity.
Qed.

(** X13 on a table of ten entries of 50 points and a new score of 50. *)
Lemma add_score_needs_to_beat_a_full_table_witness :
  add_score 50 "Player 2" multi 9
    (mkHighScoreManager [] (repeat (mkScoreEntry "Player 1" 50 1) 10))
  = mkHighScoreManager [] (repeat (mkScoreEntry "Player 1" 50 1) 10).
Proof.
  apply (add_score_needs_to_beat_a_full_table 50 "Player 2" multi 9
           (mkHighScoreManager [] (repeat (mkScoreEntry "Player 1" 50 1) 10))).
  - cbn. repeat (split; [intros y Hy; repeat (destruct Hy as [<- | Hy]; [cbn; lia|]);
                         destruct Hy|]). exact I.
  - reflexivity.
  - intros e He. cbn in He. repeat (destruct He as [<- | He]; [cbn; lia|]). destruct He.
Defined.

(** ** The menu *)

Lemma menu_index_cases (i : Z) :
  0 <= i < 5 -> i = 0 \/ i = 1 \/ i = 2 \/ i = 3 \/ i = 4.
Proof. lia. Qed.

Lemma handle_menu_input_in_range (event : Event) (m : MenuSystem) :
  0 <= selected_option m < 5 ->
  exists m' action,
    handle_menu_input event m = Ok (m', action) /\
    0 <= selected_option m' < 5 /\
    match action with
    | Some a =>
        m' = m /\ event = KEYDOWN K_RETURN /\
        menu_options !! Z.to_nat (selected_option m) = Some a
    | None => event <> KEYDOWN K_RETURN
    end.
Proof.
  destruct m as [i]. cbn [selected_option]. intros Hi.
  destruct event as [|key|].
  - exists (mkMenuSystem i), None. cbn. split; [reflexivity|]. split; [exact Hi|easy].
  - destruct key;
      try (exists (mkMenuSystem i), None; cbn; split; [reflexivity|];
           split; [exact Hi|easy]).
    + eexists _, None. cbn [handle_menu_input]. split; [reflexivity|].
      cbn [selected_option menu_options length]. split; [|easy].
      apply Z.mod_pos_bound. lia.
    + eexists _, None. cbn [handle_menu_input]. split; [reflexivity|].
      cbn [selected_option menu_options length]. split; [|easy].
      apply Z.mod_pos_bound. lia.
    + destruct (menu_index_cases i Hi) as [-> | [-> | [-> | [-> | ->]]]];
        eexists _, (Some _); (split; [reflexivity|]); cbn; repeat split; lia.
  - exists (mkMenuSystem i), None. cbn. split; [reflexivity|]. split; [exact Hi|easy].
Qed.

(** X14: with the selection on one of the five entries, the menu never
    raises and keeps the selection on one of the five entries; it returns an
    action only for the return key, and the action is the entry under the
    selection, which stays where it is. *)
Theorem menu_selection_stays_on_an_entry (event : Event) (m : MenuSystem) :
  0 <= selected_option m < 5 ->
  exists m' action,
    handle_menu_input event m = Ok (m', action) /\
    0 <= selected_option m' < 5 /\
    match action with
    | Some a =>
        m' = m /\ event = KEYDOWN K_RETURN /\
        menu_options !! Z.to_nat (selected_option m) = Some a
    | None => event <> KEYDOWN K_RETURN
    end.
Proof. exact (handle_menu_input_in_range event m). Qed.

(** X14 for the return key on the second entry. *)
Lemma menu_selection_stays_on_an_entry_witness :
  exists m' action,
    handle_menu_input (KEYDOWN K_RETURN) (mkMenuSystem 1) = Ok (m', action) /\
    0 <= selected_option m' < 5 /\
    match action with
    | Some a =>
        m' = mkMenuSystem 1 /\ KEYDOWN K_RETURN = KEYDOWN K_RETURN /\
        menu_options !! Z.to_nat (selected_option (mkMenuSystem 1)) = Some a
    | None => KEYDOWN K_RETURN <> KEYDOWN K_RETURN
    end.
Proof.
  apply (menu_selection_stays_on_an_entry (KEYDOWN K_RETURN) (mkMenuSystem 1)).
  cbn. lia.
Defined.

(** X15: the up and the down key of the menu undo each other, also across
    the ends of the list: up from the first entry selects the last one, down
    from the last entry the first one. *)
Theorem menu_up_and_down_undo_each_other (m : MenuSystem) :
  0 <= selected_option m < 5 ->
  (st ← handle_menu_input (KEYDOWN K_UP) m;
   handle_menu_input (KEYDOWN K_DOWN) (fst st)) = Ok (m, None)
  /\ (st ← handle_menu_input (KEYDOWN K_DOWN) m;
      handle_menu_input (KEYDOWN K_UP) (fst st)) = Ok (m, None)
  /\ (selected_option m = 0 ->
      handle_menu_input (KEYDOWN K_UP) m = Ok (mkMenuSystem 4, None))
  /\ (selected_option m = 4 ->
      handle_menu_input (KEYDOWN K_DOWN) m = Ok (mkMenuSystem 0, None)).
Proof.
  destruct m as [i]. cbn [selected_option]. intros Hi.
  destruct (menu_index_cases i Hi) as [-> | [-> | [-> | [-> | ->]]]];
    repeat split; try reflexivity; intros [=].
Qed.

(** X15 on the first entry. *)
Lemma menu_up_and_down_undo_each_other_witness :
  (st ← handle_menu_input (KEYDOWN K_UP) (mkMenuSystem 0);
   handle_menu_input (KEYDOWN K_DOWN) (fst st)) = Ok (mkMenuSystem 0, None).
Proof.
  apply (menu_up_and_down_undo_each_other (mkMenuSystem 0)). cbn. lia.
Defined.

(** ** Key presses *)

Section Keys.

Variables W H : Z.

Lemma reset_game_keeps (draws : list Pos) (g g' : Game) (draws' : list Pos) :
  reset_game W H draws g = Ok (g', draws') ->
  state g' = state g /\ difficulty g' = difficulty g /\
  multiplayer g' = multiplayer g /\
  high_score_manager g' = high_score_manager g /\
  last_update_time g' = last_update_time g /\
  snakes g' = (if multiplayer g
               then [Snake_init 1 (W / 4, H / 2);
                     set_direction (-1, 0) (Snake_init 2 (3 * W / 4, H / 2))]
               else [Snake_init 1 (W / 4, H / 2)]) /\
  powerup_manager g' = PowerUpManager_init /\ move_timer g' = 0%Q.
Proof.
  unfold reset_game. intros E. apply bind_Ok in E.
  destruct E as ([new_food d1] & Ef & E).
  apply respawn_food_Ok in E. destruct E as (p & _ & _ & ->).
  cbn. repeat split; reflexivity.
Qed.

Lemma reset_app_Ok (draws : list Pos) (app app' : App) (draws' : list Pos) :
  reset_app W H draws app = Ok (app', draws') ->
  reset_game W H draws (game app) = Ok (game app', draws') /\
  menu_system app' = menu_system app.
Proof.
  unfold reset_app. intros E. apply bind_Ok in E. destruct E as ([g d] & E1 & E).
  injection E as <- <-. split; [exact E1 | reflexivity].
Qed.

(** What one key press does to the game. *)
Lemma handle_key_Ok (key : Key) (draws : list Pos) (app app' : App)
    (draws' : list Pos) (go_on : bool) :
  handle_key W H key draws app = Ok (app', draws', go_on) ->
  (game app' = game app /\ draws' = draws /\
   (go_on = false -> state (game app) = MENU /\ key = K_RETURN))
  \/ (exists st, game app' = set_state st (game app) /\ draws' = draws /\
                 go_on = true /\
                 match state (game app) with
                 | MENU => st = HIGH_SCORES \/ st = SETTINGS
                 | PLAYING => st = PAUSED
                 | PAUSED => st = PLAYING \/ st = MENU
                 | GAME_OVER => st = MENU
                 | HIGH_SCORES | SETTINGS => st = MENU
                 end)
  \/ (state (game app) = PLAYING /\ draws' = draws /\ go_on = true /\
      game app'
      = set_snakes (steer key (bindings app) (snakes (game app))) (game app))
  \/ (exists g0 g1,
        reset_game W H draws g0 = Ok (g1, draws') /\
        game app' = set_state PLAYING g1 /\ go_on = true /\
        ((g0 = game app /\
          (state (game app) = PAUSED \/ state (game app) = GAME_OVER))
         \/ (state (game app) = MENU /\
             exists b, g0 = set_state PLAYING (set_multiplayer b (game app))))).
Proof.
  unfold handle_key. destruct (state (game app)) eqn:Hst.
  - (* MENU *)
    intros E. apply bind_Ok in E. destruct E as ([m action] & Em & E).
    assert (Hret : action <> None -> key = K_RETURN).
    { intros Ha. destruct key; cbn in Em; try (injection Em as <- <-; congruence).
      reflexivity. }
    destruct action as [a|]; [|injection E as <- <- <-; left; cbn; easy].
    specialize (Hret ltac:(discriminate)).
    destruct (String.eqb a "Single Player").
    { apply bind_Ok in E. destruct E as ([app1 d1] & E1 & E).
      injection E as <- <- <-. apply reset_app_Ok in E1. destruct E1 as [E1 _].
      cbn [game set_game] in E1. right. right. right.
      eexists _, (game app1). split; [exact E1|].
      replace (game app1) with (set_state PLAYING (game app1)) at 1.
      - split; [reflexivity|]. split; [reflexivity|]. right.
        split; [reflexivity|]. exists false. reflexivity.
      - apply reset_game_keeps in E1. destruct E1 as (S1 & _). cbn in S1.
        destruct (game app1); cbn in *. subst. reflexivity. }
    destruct (String.eqb a "Multiplayer").
    { apply bind_Ok in E. destruct E as ([app1 d1] & E1 & E).
      injection E as <- <- <-. apply reset_app_Ok in E1. destruct E1 as [E1 _].
      cbn [game set_game] in E1. right. right. right.
      eexists _, (game app1). split; [exact E1|].
      replace (game app1) with (set_state PLAYING (game app1)) at 1.
      - split; [reflexivity|]. split; [reflexivity|]. right.
        split; [reflexivity|]. exists true. reflexivity.
      - apply reset_game_keeps in E1. destruct E1 as (S1 & _). cbn in S1.
        destruct (game app1); cbn in *. subst. reflexivity. }
    destruct (String.eqb a "High Scores").
    { injection E as <- <- <-. right. left. exists HIGH_SCORES. cbn. tauto. }
    destruct (String.eqb a "Settings").
    { injection E as <- <- <-. right. left. exists SETTINGS. cbn. tauto. }
    destruct (String.eqb a "Quit"); injection E as <- <- <-; left; cbn; easy.
  - (* PLAYING *)
    destruct key; intros [= <- <- <-];
      try (right; right; left; cbn; easy).
    right. left. exists PAUSED. cbn. tauto.
  - (* PAUSED *)
    destruct key; try (intros [= <- <- <-]; left; cbn; easy).
    + intros [= <- <- <-]. right. left. exists PLAYING. cbn. tauto.
    + intros E. apply bind_Ok in E. destruct E as ([app1 d1] & E1 & E).
      injection E as <- <- <-. apply reset_app_Ok in E1. destruct E1 as [E1 _].
      right. right. right. exists (game app), (game app1). cbn. tauto.
    + intros [= <- <- <-]. right. left. exists MENU. cbn. tauto.
  - (* GAME_OVER *)
    destruct key; try (intros [= <- <- <-]; left; cbn; easy).
    + intros E. apply bind_Ok in E. destruct E as ([app1 d1] & E1 & E).
      injection E as <- <- <-. apply reset_app_Ok in E1. destruct E1 as [E1 _].
      right. right. right. exists (game app), (game app1). cbn. tauto.
    + intros [= <- <- <-]. right. left. exists MENU. cbn. tauto.
  - destruct key; intros [= <- <- <-]; try (left; cbn; easy).
    right. left. exists MENU. cbn. tauto.
  - destruct key; intros [= <- <- <-]; try (left; cbn; easy).
    right. left. exists MENU. cbn. tauto.
Qed.

End Keys.

(** X16: one key press leads from the menu to a match, the high scores or
    the settings, from a match to the pause, from the pause to the match or
    the menu, from the end of a match to a new match or the menu, and from
    the high scores and the settings to the menu, or leaves the state as it
    is. No key press ends a match, and only the return key in the menu ends
    the program. *)
Theorem key_press_state_changes (W H : Z) (key : Key) (draws : list Pos)
    (app app' : App) (draws' : list Pos) (go_on : bool) :
  handle_key W H key draws app = Ok (app', draws', go_on) ->
  may_follow (state (game app)) (state (game app'))
  /\ (state (game app') = GAME_OVER -> state (game app) = GAME_OVER)
  /\ (go_on = false ->
      state (game app) = MENU /\ key = K_RETURN /\ game app' = game app).
Proof.
  intros E. apply handle_key_Ok in E. unfold may_follow.
  destruct E as [(Hg & _ & Hq) | [(st & Hg & _ & Hgo & Hst)
                | [(Hp & _ & Hgo & Hg) | (g0 & g1 & _ & Hg & Hgo & Hfrom)]]];
    rewrite Hg; cbn [state set_state set_snakes].
  - split; [left; reflexivity|]. split; [tauto|]. intros Hgo. specialize (Hq Hgo). tauto.
  - split; [|split; [|congruence]].
    + right. destruct (state (game app)); tauto.
    + intros ->. destruct (state (game app)); intuition discriminate.
  - split; [left; reflexivity|]. split; [tauto | congruence].
  - split; [|split; [discriminate | congruence]].
    destruct Hfrom as [[_ [-> | ->]] | [-> _]]; tauto.
Qed.

(** X16 for the return key on the first entry of the menu. *)
Lemma key_press_state_changes_witness :
  may_follow (state (game first_app)) (state (game first_match))
  /\ (state (game first_match) = GAME_OVER -> state (game first_app) = GAME_OVER)
  /\ (true = false ->
      state (game first_app) = MENU /\ K_RETURN = K_RETURN /\
      game first_match = game first_app).
Proof.
  apply (key_press_state_changes GRID_WIDTH GRID_HEIGHT K_RETURN
           [(15, 20); (16, 20)] first_app first_match [] true).
  vm_compute. reflexivity.
Defined.

(** X17: [handle_events] stops at the first quit event: the events behind it
    are not looked at, and the answer, if there is one, is to end the
    program. *)
Theorem events_after_quit_are_dropped (W H : Z) (before after : list Event)
    (draws : list Pos) (app : App) :
  handle_events W H (before ++ QUIT :: after) draws app
  = handle_events W H (before ++ [QUIT]) draws app
  /\ forall app' draws' go_on,
       handle_events W H (before ++ QUIT :: after) draws app
       = Ok (app', draws', go_on) -> go_on = false.
Proof.
  revert draws app. induction before as [|e before IH]; intros draws app.
  - cbn. split; [reflexivity|]. intros app' draws' go_on [= _ _ <-]. reflexivity.
  - cbn [List.app handle_events]. destruct e as [|key|].
    + split; [reflexivity|]. intros app' draws' go_on [= _ _ <-]. reflexivity.
    + destruct (handle_key W H key draws app) as [[[app1 d1] go1]| |]; cbn.
      * destruct go1; [exact (IH d1 app1)|]. split; [reflexivity|].
        intros app' draws' go_on [= _ _ <-]. reflexivity.
      * split; [reflexivity | discriminate].
      * split; [reflexivity | discriminate].
    + exact (IH draws app).
Qed.

(** ** The states of the program are reachable *)

Section Program.

Variables W H : Z.

Lemma steer_reachable (key : Key) (binds : list Controls) (g : Game) :
  reachable W H g -> reachable W H (set_snakes (steer key binds (snakes g)) g).
Proof.
  unfold steer.
  set (turn := fun (i : nat) (snake : Snake) =>
                 match binds !! i with
                 | Some controls =>
                     match controls key with
                     | Some d => change_direction d snake
                     | None => snake
                     end
                 | None => snake
                 end).
  assert (Hturn : forall i s, turn i s = s \/ exists d, turn i s = change_direction d s).
  { intros i s. unfold turn. destruct (binds !! i) as [c|]; [|left; reflexivity].
    destruct (c key) as [d|]; [right; exists d|left]; reflexivity. }
  clearbody turn.
  assert (Hgen : forall ss pre (f : nat -> Snake -> Snake),
            (forall i s, f i s = s \/ exists d, f i s = change_direction d s) ->
            reachable W H (set_snakes (pre ++ ss) g) ->
            reachable W H (set_snakes (pre ++ imap f ss) g)).
  { induction ss as [|x ss IH]; intros pre f Hf Hr; [exact Hr|].
    cbn [imap]. rewrite (cons_middle (f 0%nat x)), app_assoc.
    apply IH; [intros i s; apply Hf|]. rewrite <- app_assoc. cbn [app].
    destruct (Hf 0%nat x) as [-> | [d ->]]; [exact Hr|].
    pose proof (reach_steer W H _ (length pre) x d Hr) as Hs.
    cbn [snakes set_snakes] in Hs.
    rewrite list_lookup_middle in Hs by reflexivity. specialize (Hs eq_refl).
    rewrite insert_app_r_alt in Hs by lia.
    rewrite Nat.sub_diag in Hs. exact Hs. }
  intros Hr. apply (Hgen (snakes g) [] turn Hturn). cbn [app].
  destruct g; exact Hr.
Qed.

Lemma handle_key_reachable (key : Key) (draws : list Pos) (app app' : App)
    (draws' : list Pos) (go_on : bool) :
  reachable W H (game app) ->
  handle_key W H key draws app = Ok (app', draws', go_on) ->
  reachable W H (game app').
Proof.
  intros Hr E. apply handle_key_Ok in E.
  destruct E as [(-> & _) | [(st & -> & _) | [(_ & _ & _ & ->) | (g0 & g1 & E & -> & _)]]].
  - exact Hr.
  - apply reach_state. exact Hr.
  - apply steer_reachable. exact Hr.
  - apply reach_state. exact (reach_reset W H g0 draws g1 draws' E).
Qed.

Lemma handle_events_reachable (events : list Event) (draws : list Pos)
    (app app' : App) (draws' : list Pos) (go_on : bool) :
  reachable W H (game app) ->
  handle_events W H events draws app = Ok (app', draws', go_on) ->
  reachable W H (game app').
Proof.
  revert draws app. induction events as [|e events IH]; intros draws app Hr E.
  - injection E as <- _ _. exact Hr.
  - cbn [handle_events] in E. destruct e as [|key|].
    + injection E as <- _ _. exact Hr.
    + apply bind_Ok in E. destruct E as ([[app1 d1] go1] & E1 & E).
      pose proof (handle_key_reachable _ _ _ _ _ _ Hr E1) as Hr1.
      destruct go1; [exact (IH _ _ Hr1 E)|]. injection E as <- _ _. exact Hr1.
    + exact (IH _ _ Hr E).
Qed.

Lemma App_init_reachable (loaded : HighScoreManager) (now : Q) (draws : list Pos)
    (app : App) (draws' : list Pos) :
  App_init W H loaded now draws = Ok (app, draws') -> reachable W H (game app).
Proof.
  unfold App_init. intros E. apply reset_app_Ok in E. destruct E as [E _].
  exact (reach_reset W H _ _ _ _ E).
Qed.

Lemma run_reachable (frames : list (list Event * Frame)) (draws : list Pos)
    (app app' : App) (draws' : list Pos) :
  reachable W H (game app) ->
  run W H frames draws app = Ok (app', draws') ->
  reachable W H (game app').
Proof.
  revert draws app. induction frames as [|[events f] frames IH]; intros draws app Hr E;
    [discriminate|].
  cbn [run] in E. apply bind_Ok in E. destruct E as ([[app1 d1] go1] & E1 & E).
  apply bind_Ok in E. destruct E as ([g2 d2] & E2 & E).
  pose proof (handle_events_reachable _ _ _ _ _ _ Hr E1) as Hr1.
  pose proof (update_reachable W H _ _ _ _ _ Hr1 E2) as Hr2.
  destruct go1.
  - apply (IH d2 (set_game g2 app1)); [exact Hr2 | exact E].
  - injection E as <- _. exact Hr2.
Qed.

End Program.

(** X18: [handle_events] leads from a reachable state of the game to a
    reachable state, whatever the events are: the key presses only change
    the state of the match, turn snakes, or start a match anew. *)
Theorem handle_events_keeps_reachable (W H : Z) (events : list Event)
    (draws : list Pos) (app app' : App) (draws' : list Pos) (go_on : bool) :
  reachable W H (game app) ->
  handle_events W H events draws app = Ok (app', draws', go_on) ->
  reachable W H (game app').
Proof. exact (handle_events_reachable W H events draws app app' draws' go_on). Qed.

(** X19: the game that [Game.__init__] builds is reachable, and so is the
    game at the end of every run of the main loop from there. *)
Theorem run_ends_in_a_reachable_state (W H : Z) (loaded : HighScoreManager)
    (now : Q) (draws : list Pos) (frames : list (list Event * Frame))
    (app app' : App) (draws' draws'' : list Pos) :
  App_init W H loaded now draws = Ok (app, draws') ->
  run W H frames draws' app = Ok (app', draws'') ->
  reachable W H (game app) /\ reachable W H (game app').
Proof.
  intros E0 E. pose proof (App_init_reachable W H _ _ _ _ _ E0) as Hr.
  split; [exact Hr|]. exact (run_reachable W H _ _ _ _ _ Hr E).
Qed.

(** X18 for the return key on the first entry of the menu. *)
Lemma handle_events_keeps_reachable_witness :
  reachable GRID_WIDTH GRID_HEIGHT (game first_match).
Proof.
  apply (handle_events_keeps_reachable GRID_WIDTH GRID_HEIGHT [KEYDOWN K_RETURN]
           [(15, 20); (16, 20)] first_app first_match [] true).
  - exact started_reachable.
  - vm_compute. reflexivity.
Defined.

(** X19 for a run of one frame that holds a quit event. *)
Lemma run_ends_in_a_reachable_state_witness :
  reachable GRID_WIDTH GRID_HEIGHT (game first_app)
  /\ reachable GRID_WIDTH GRID_HEIGHT (set_last_update_time 1 started).
Proof.
  apply (run_ends_in_a_reachable_state GRID_WIDTH GRID_HEIGHT no_scores 0
           [(15, 20); (16, 20)] [([QUIT], mkFrame 1 SHRINK (3, 3) 1)]
           first_app (mkApp MenuSystem_init (set_last_update_time 1 started)
                        [p1_controls]) [] []).
  - vm_compute. reflexivity.
  - vm_compute. reflexivity.
Defined.

(** ** The program raises no exception *)

Lemma quiet_bind {A B : Type} (m : result A) (f : A -> result B) :
  quiet m -> (forall a, m = Ok a -> quiet (f a)) -> quiet (a ← m; f a).
Proof.
  destruct m as [a| |]; cbn; [|tauto|tauto]. intros _ Hf. exact (Hf a eq_refl).
Qed.

Lemma for_each_quiet {A St : Type} (body : A -> St -> result St) (I : St -> Prop)
    (l : list A) (st : St) :
  (forall x st, In x l -> I st ->
     quiet (body x st) /\ forall st', body x st = Ok st' -> I st') ->
  I st -> quiet (for_each body l st).
Proof.
  revert st. induction l as [|x l IH]; intros st Hb Hst; cbn [for_each]; [exact Logic.I|].
  destruct (Hb x st (or_introl eq_refl) Hst) as [Hq Hnext].
  apply quiet_bind; [exact Hq|]. intros st1 E1. apply IH.
  - intros y st2 Hy. apply Hb. right. exact Hy.
  - exact (Hnext st1 E1).
Qed.

Lemma respawn_food_quiet (draws : list Pos) (g : Game) : quiet (respawn_food draws g).
Proof.
  revert g. induction draws as [|p rest IH]; intros g; cbn [respawn_food]; [exact I|].
  destruct (occupied _ _); [apply IH | exact I].
Qed.

Lemma related_impl (R R' : Snake -> Snake -> Prop) (ss ss' : list Snake) :
  (forall s s', R s s' -> R' s s') -> related R ss ss' -> related R' ss ss'.
Proof.
  intros HR [L Hrel]. split; [exact L|]. intros k s s' Hk Hk'.
  exact (HR s s' (Hrel k s s' Hk Hk')).
Qed.

Lemma Forall_related (R : Snake -> Snake -> Prop) (P : Snake -> Prop)
    (ss ss' : list Snake) :
  (forall s s', R s s' -> P s -> P s') -> related R ss ss' ->
  Forall P ss -> Forall P ss'.
Proof.
  intros HR Hrel HP. apply Forall_lookup_2. intros k s' Hk.
  destruct (related_lookup_r R ss ss' k s' Hrel Hk) as (s & Hs & Hss).
  apply (HR s s' Hss). exact (Forall_lookup_1 _ _ _ _ HP Hs).
Qed.

Lemma existsb_alive_lookup (ss : list Snake) :
  existsb alive ss = true <-> exists k s, ss !! k = Some s /\ alive s = true.
Proof.
  rewrite existsb_exists. split.
  - intros (s & Hin & Ha). apply list_elem_of_In, list_elem_of_lookup in Hin.
    destruct Hin as [k Hk]. eauto.
  - intros (k & s & Hk & Ha). exists s. split; [|exact Ha].
    apply list_elem_of_In, list_elem_of_lookup. eauto.
Qed.

Lemma existsb_alive_related (R : Snake -> Snake -> Prop) (ss ss' : list Snake) :
  (forall s s', R s s' -> alive s' = alive s) -> related R ss ss' ->
  existsb alive ss' = existsb alive ss.
Proof.
  intros HR Hrel. apply eq_true_iff_eq. rewrite !existsb_alive_lookup. split.
  - intros (k & s' & Hk & Ha).
    destruct (related_lookup_r R ss ss' k s' Hrel Hk) as (s & Hs & Hss).
    exists k, s. split; [exact Hs|]. rewrite <- (HR s s' Hss). exact Ha.
  - intros (k & s & Hk & Ha).
    destruct (related_lookup R ss ss' k s Hrel Hk) as (s' & Hs & Hss).
    exists k, s'. split; [exact Hs|]. rewrite (HR s s' Hss). exact Ha.
Qed.

Lemma steady_refl (s : Snake) : steady s s.
Proof. split; trivial. Qed.

Lemma steady_trans (x y z : Snake) : steady x y -> steady y z -> steady x z.
Proof. intros [A B] [C D]. split; auto. Qed.

Lemma fit_related (R : Snake -> Snake -> Prop) (g g' : Game) :
  (forall s s', R s s' ->
     positions s' = positions s /\ alive s' = alive s /\
     (speed_known s -> speed_known s')) ->
  related R (snakes g) (snakes g') -> food g' = food g ->
  (state g' = PLAYING \/ state g' = PAUSED -> state g = PLAYING \/ state g = PAUSED) ->
  fit g -> fit g'.
Proof.
  intros HR Hrel Hfood Hstate (Hset & Hne & Hsp & Hal). split; [|split; [|split]].
  - apply (settled_same_bodies g g'); [|exact Hfood|exact Hset].
    apply (related_impl R); [|exact Hrel]. intros s s' Hs. apply (HR s s' Hs).
  - destruct Hrel as [L _]. destruct (snakes g'); [|discriminate].
    destruct (snakes g); [congruence | discriminate].
  - apply (Forall_related R speed_known (snakes g)); [|exact Hrel|exact Hsp].
    intros s s' Hs. apply (HR s s' Hs).
  - intros Hst. rewrite (existsb_alive_related R (snakes g)); [|  |exact Hrel].
    + exact (Hal (Hstate Hst)).
    + intros s s' Hs. apply (HR s s' Hs).
Qed.

Lemma fit_same (g g' : Game) :
  snakes g' = snakes g -> food g' = food g ->
  (state g' = PLAYING \/ state g' = PAUSED -> state g = PLAYING \/ state g = PAUSED) ->
  fit g -> fit g'.
Proof.
  intros Hs Hf Hst. apply (fit_related eq); [| |exact Hf|exact Hst].
  - intros s s' <-. tauto.
  - rewrite Hs. apply related_refl. reflexivity.
Qed.

Lemma Snake_update_keeps (dt t : Q) (s : Snake) :
  positions (Snake_update dt t s) = positions s /\
  alive (Snake_update dt t s) = alive s /\
  (speed_known s -> speed_known (Snake_update dt t s)).
Proof.
  pose proof (fold_remove_power_up (expired_powerups t s) s) as Hfold.
  cbn zeta in Hfold. destruct Hfold as (_ & _ & Hsp & _ & Hrun & _).
  unfold Snake_update.
  set (u := foldl (fun u k => remove_power_up k u) s (expired_powerups t s)) in *.
  destruct Hrun as (_ & Hp & _ & _ & _ & Ha).
  assert (Hk : speed_known s -> speed_known u).
  { unfold speed_known. rewrite Hsp. destruct (existsb _ _); tauto. }
  destruct (Qlt_bool 0 (invulnerable_time u)); cbn; tauto.
Qed.

Lemma change_direction_keeps (d : Pos) (s : Snake) :
  positions (change_direction d s) = positions s /\
  alive (change_direction d s) = alive s /\
  speed_multiplier (change_direction d s) = speed_multiplier s.
Proof. unfold change_direction. destruct (pos_eqb _ _); cbn; tauto. Qed.

Section NoRaise.

Variables W H : Z.

Lemma fit_reset (draws : list Pos) (g g' : Game) (draws' : list Pos) (st : GameState) :
  reset_game W H draws g = Ok (g', draws') -> fit (set_state st g').
Proof.
  intros E. pose proof (reset_game_settled W H _ _ _ _ E) as Hset.
  apply reset_game_keeps in E. destruct E as (_ & _ & _ & _ & _ & Hss & _).
  split; [exact Hset|]. cbn [snakes set_state state]. rewrite Hss.
  unfold speed_known.
  destruct (multiplayer g); (split; [discriminate|]); (split; [|reflexivity]);
    repeat constructor.
Qed.

Lemma reset_app_quiet (draws : list Pos) (app : App) : quiet (reset_app W H draws app).
Proof.
  unfold reset_app, reset_game. apply quiet_bind.
  - apply quiet_bind; [destruct draws; exact I|]. intros [new_food d] _.
    apply respawn_food_quiet.
  - intros [g d] _. exact I.
Qed.

Lemma handle_key_quiet (key : Key) (draws : list Pos) (app : App) :
  0 <= selected_option (menu_system app) < 5 ->
  quiet (handle_key W H key draws app).
Proof.
  intros Hm. unfold handle_key. destruct (state (game app)).
  - destruct (handle_menu_input_in_range (KEYDOWN key) (menu_system app) Hm)
      as (m' & action & -> & _). cbn.
    destruct action as [a|]; [|exact I].
    repeat (match goal with
            | |- quiet (if ?c then _ else _) => destruct c
            end);
      try exact I;
      (apply quiet_bind; [apply reset_app_quiet|]; intros [app1 d1] _; exact I).
  - destruct key; exact I.
  - destruct key; try exact I.
    apply quiet_bind; [apply reset_app_quiet|]. intros [app1 d1] _. exact I.
  - destruct key; try exact I.
    apply quiet_bind; [apply reset_app_quiet|]. intros [app1 d1] _. exact I.
  - destruct key; exact I.
  - destruct key; exact I.
Qed.

Lemma handle_key_menu (key : Key) (draws : list Pos) (app app' : App)
    (draws' : list Pos) (go_on : bool) :
  0 <= selected_option (menu_system app) < 5 ->
  handle_key W H key draws app = Ok (app', draws', go_on) ->
  0 <= selected_option (menu_system app') < 5.
Proof.
  intros Hm. unfold handle_key. destruct (state (game app)).
  - destruct (handle_menu_input_in_range (KEYDOWN key) (menu_system app) Hm)
      as (m' & action & -> & Hm' & _). cbn.
    destruct action as [a|]; [|intros [= <- _ _]; exact Hm'].
    repeat (match goal with
            | |- (if ?c then _ else _) = _ -> _ => destruct c
            end);
      try (intros [= <- _ _]; exact Hm');
      (intros E; apply bind_Ok in E; destruct E as ([app1 d1] & E1 & E);
       injection E as <- _ _; apply reset_app_Ok in E1; destruct E1 as [_ ->];
       exact Hm').
  - destruct key; intros [= <- _ _]; exact Hm.
  - destruct key; try (intros [= <- _ _]; exact Hm).
    intros E; apply bind_Ok in E; destruct E as ([app1 d1] & E1 & E).
    injection E as <- _ _. apply reset_app_Ok in E1. destruct E1 as [_ E1].
    cbn. rewrite E1. exact Hm.
  - destruct key; try (intros [= <- _ _]; exact Hm).
    intros E; apply bind_Ok in E; destruct E as ([app1 d1] & E1 & E).
    injection E as <- _ _. apply reset_app_Ok in E1. destruct E1 as [_ E1].
    cbn. rewrite E1. exact Hm.
  - destruct key; intros [= <- _ _]; exact Hm.
  - destruct key; intros [= <- _ _]; exact Hm.
Qed.

Lemma steer_related (key : Key) (binds : list Controls) (ss : list Snake) :
  related (fun s s' => s' = s \/ exists d, s' = change_direction d s)
    ss (steer key binds ss).
Proof.
  unfold steer. split; [apply length_imap|]. intros k s s' Hk Hk'.
  rewrite list_lookup_imap, Hk in Hk'. injection Hk' as <-.
  destruct (binds !! k) as [c|]; [|left; reflexivity].
  destruct (c key) as [d|]; [right; exists d|left]; reflexivity.
Qed.

Lemma handle_key_fit (key : Key) (draws : list Pos) (app app' : App)
    (draws' : list Pos) (go_on : bool) :
  fit (game app) ->
  handle_key W H key draws app = Ok (app', draws', go_on) ->
  fit (game app').
Proof.
  intros Hfit E. apply handle_key_Ok in E.
  destruct E as [(-> & _) | [(st & -> & _ & _ & Hst)
                | [(_ & _ & _ & ->) | (g0 & g1 & E & -> & _)]]].
  - exact Hfit.
  - apply (fit_same (game app)); [reflexivity | reflexivity | | exact Hfit].
    cbn [state set_state]. destruct (state (game app)); intuition congruence.
  - apply (fit_related (fun s s' => s' = s \/ exists d, s' = change_direction d s)
             (game app)); [| apply steer_related | reflexivity | tauto | exact Hfit].
    intros s s' [-> | [d ->]]; [tauto|].
    destruct (change_direction_keeps d s) as (Hp & Ha & Hs).
    unfold speed_known. rewrite Hs. tauto.
  - exact (fit_reset _ _ _ _ _ E).
Qed.

Lemma handle_events_sound (events : list Event) (draws : list Pos) (app : App) :
  sound app ->
  quiet (handle_events W H events draws app) /\
  forall app' draws' go_on,
    handle_events W H events draws app = Ok (app', draws', go_on) -> sound app'.
Proof.
  revert draws app. induction events as [|e events IH]; intros draws app Hs.
  - split; [exact I|]. intros app' draws' go_on [= <- _ _]. exact Hs.
  - cbn [handle_events]. destruct e as [|key|].
    + split; [exact I|]. intros app' draws' go_on [= <- _ _]. exact Hs.
    + pose proof (handle_key_quiet key draws app (proj2 Hs)) as Hq.
      destruct (handle_key W H key draws app) as [[[app1 d1] go1]| |] eqn:E1;
        [|destruct Hq|split; [exact I|discriminate]].
      assert (sound app1) as Hs1.
      { split; [exact (handle_key_fit _ _ _ _ _ _ (proj1 Hs) E1)|].
        exact (handle_key_menu _ _ _ _ _ _ (proj2 Hs) E1). }
      cbn. destruct go1; [exact (IH d1 app1 Hs1)|].
      split; [exact I|]. intros app' draws' go_on [= <- _ _]. exact Hs1.
    + exact (IH draws app Hs).
Qed.

End NoRaise.

Lemma max_from_In {A : Type} (gtb : A -> A -> bool) (best : A) (l : list A) :
  In (max_from gtb best l) (best :: l).
Proof.
  revert best. induction l as [|x l IH]; intros best; cbn [max_from].
  - left. reflexivity.
  - destruct (IH (if gtb x best then x else best)) as [Hm | Hm].
    + destruct (gtb x best); [right; left | left]; exact Hm.
    + right. right. exact Hm.
Qed.

Lemma add_power_up_steady (ty : PowerUpType) (d t : Q) (s : Snake) :
  steady s (add_power_up ty d t s).
Proof.
  split.
  - destruct (add_power_up_effect ty d t s) as (_ & Hh & _).
    intros Hne. exact (nonempty_head _ _ Hh Hne).
  - unfold speed_known, add_power_up.
    destruct ty; cbn [set_power_ups set_speed_multiplier speed_multiplier
                      set_invulnerable_time set_wall_phase positions]; auto.
    destruct (3 <? length (positions s))%nat; cbn; auto.
Qed.

Section TickNoRaise.

Variables W H : Z.

Lemma move_steady (s s' : Snake) (b : bool) :
  move W H s = Ok (s', b) -> steady s s'.
Proof.
  intros E. split.
  - exact (move_keeps_nonempty W H s s' b E).
  - assert (speed_multiplier s' = speed_multiplier s) as Hs.
    { unfold move in E. destruct (negb (alive s)); [injection E as <- _; reflexivity|].
      destruct (positions s) as [|[hx hy] rest]; [discriminate|].
      assert (forall p, speed_multiplier (fst (move_to p s)) = speed_multiplier s) as Hto.
      { intros p. unfold move_to. destruct (_ && _); [reflexivity|].
        destruct (0 <? grow_pending s); reflexivity. }
      destruct (negb (wall_phase s)).
      - destruct (off_grid _ _ _); [injection E as <- _; reflexivity|].
        injection E as E. rewrite <- (Hto (hx + fst (direction s), hy + snd (direction s))).
        rewrite E. reflexivity.
      - injection E as E. rewrite <- (Hto ((hx + fst (direction s)) mod W,
                                          (hy + snd (direction s)) mod H)).
        cbn [fst snd] in E. rewrite E. reflexivity. }
    unfold speed_known. rewrite Hs. tauto.
Qed.

Lemma check_food_steady (i : nat) (g0 g : Game) (draws : list Pos) (g' : Game)
    (draws' : list Pos) :
  related steady (snakes g0) (snakes g) ->
  check_food i (g, draws) = Ok (g', draws') ->
  related steady (snakes g0) (snakes g').
Proof.
  intros Hrel E. apply check_food_Ok in E.
  destruct E as [(-> & _) | (s & p & Hi & _ & _ & ->)]; [exact Hrel|].
  cbn [snakes set_food set_snakes].
  apply (related_trans steady _ (snakes g)); [exact steady_trans | exact Hrel|].
  apply (related_insert steady _ i s); [exact steady_refl | exact Hi|].
  split; cbn; tauto.
Qed.

Lemma food_collisions_steady (snapshot : list nat) (draws : list Pos) (g g' : Game)
    (draws' : list Pos) :
  food_collisions snapshot draws g = Ok (g', draws') ->
  related steady (snakes g) (snakes g').
Proof.
  unfold food_collisions. intros E.
  apply (for_each_inv check_food
           (fun st => related steady (snakes g) (snakes (fst st)))
           snapshot (g, draws) (g', draws')); [| |exact E].
  - intros i [g1 d1] [g2 d2] _ Hrel E1. exact (check_food_steady i g g1 d1 g2 d2 Hrel E1).
  - apply related_refl. exact steady_refl.
Qed.

Lemma check_food_quiet (i : nat) (g : Game) (draws : list Pos) :
  bodies_nonempty (snakes g) -> quiet (check_food i (g, draws)).
Proof.
  intros Hne. unfold check_food. destruct (snakes g !! i) as [s|] eqn:Hi; [|exact I].
  pose proof (Forall_lookup_1 _ _ _ _ Hne Hi) as Hs. cbn beta in Hs.
  destruct (positions s) as [|h t]; [congruence|].
  destruct (pos_eqb h _); [apply respawn_food_quiet | exact I].
Qed.

Lemma food_collisions_quiet (snapshot : list nat) (draws : list Pos) (g : Game) :
  bodies_nonempty (snakes g) -> quiet (food_collisions snapshot draws g).
Proof.
  intros Hne. unfold food_collisions.
  apply (for_each_quiet check_food (fun st => bodies_nonempty (snakes (fst st))));
    [|exact Hne].
  intros i [g1 d1] _ Hne1. cbn [fst] in Hne1. split.
  - apply check_food_quiet. exact Hne1.
  - intros [g2 d2] E. apply check_food_frame in E. destruct E as (Hrel & _).
    cbn [fst]. apply (bodies_nonempty_related keeps_body (snakes g1));
      [|exact Hrel|exact Hne1].
    intros s s' [Hp _]. rewrite Hp. trivial.
Qed.

Lemma check_powerup_quiet (t : Q) (i : nat) (g : Game) :
  bodies_nonempty (snakes g) -> quiet (check_powerup t i g).
Proof.
  intros Hne. unfold check_powerup. destruct (snakes g !! i) as [s|] eqn:Hi; [|exact I].
  pose proof (Forall_lookup_1 _ _ _ _ Hne Hi) as Hs. cbn beta in Hs.
  destruct (positions s) as [|h tl]; [congruence|].
  destruct (check_collision h _) as [[pu|] rest]; exact I.
Qed.

Lemma picked_steady (t : Q) (s s' : Snake) : picked t s s' -> steady s s'.
Proof.
  intros [-> | (ty & d & ->)]; [apply steady_refl | apply add_power_up_steady].
Qed.

Lemma powerup_collisions_quiet (t : Q) (snapshot : list nat) (g : Game) :
  bodies_nonempty (snakes g) -> quiet (powerup_collisions t snapshot g).
Proof.
  intros Hne. unfold powerup_collisions. destruct (powerups (difficulty g)); [|exact I].
  apply (for_each_quiet (check_powerup t) (fun g => bodies_nonempty (snakes g)));
    [|exact Hne].
  intros i g1 _ Hne1. split; [apply check_powerup_quiet; exact Hne1|].
  intros g2 E. destruct (check_powerup_local t i g1 g2 E) as [_ Hloc].
  pose proof (check_powerup_length t i g1 g2 E) as Hlen.
  apply Forall_lookup_2. intros k s' Hk'.
  destruct (snakes g1 !! k) as [s|] eqn:Hk.
  - destruct (Hloc k s Hk) as (s2 & Hk2 & Hother & Hsame).
    rewrite Hk' in Hk2. injection Hk2 as <-.
    pose proof (Forall_lookup_1 _ _ _ _ Hne1 Hk) as Hs. cbn beta in Hs.
    destruct (decide (k = i)) as [Hki | Hki].
    + exact (proj1 (picked_steady t s s' (Hsame Hki)) Hs).
    + rewrite (Hother Hki). exact Hs.
  - apply lookup_ge_None in Hk. apply lookup_lt_Some in Hk'. lia.
Qed.

Lemma snake_collisions_quiet (snapshot : list nat) (g : Game) :
  bodies_nonempty (snakes g) -> quiet (snake_collisions snapshot g).
Proof.
  intros Hne. unfold snake_collisions. destruct (_ && _); [|exact I].
  destruct (collide_all_spec snapshot (snakes g) Hne) as (ss' & -> & _). exact I.
Qed.

Lemma check_game_over_quiet (stamp : Q) (g : Game) :
  snakes g <> [] -> quiet (check_game_over stamp g).
Proof.
  intros Hne. unfold check_game_over. destruct (negb _); [|exact I].
  cbn [multiplayer set_state snakes]. destruct (multiplayer g).
  - destruct (snakes g); [congruence | exact I].
  - destruct (snakes g); [congruence | exact I].
Qed.

Lemma only_alive_steady (s s' : Snake) : only_alive s s' -> steady s s'.
Proof. unfold only_alive. intros ->. split; cbn; tauto. Qed.

Lemma related_nonempty (R : Snake -> Snake -> Prop) (ss ss' : list Snake) :
  related R ss ss' -> ss <> [] -> ss' <> [].
Proof. intros [L _]. destruct ss, ss'; cbn in *; congruence. Qed.

Lemma steady_bodies (ss ss' : list Snake) :
  related steady ss ss' -> bodies_nonempty ss -> bodies_nonempty ss'.
Proof. apply bodies_nonempty_related. intros s s' [Hp _]. exact Hp. Qed.

(** The roster through the steps of a tick. *)
Lemma tick_steps_steady (f : Frame) (draws : list Pos) (g : Game) :
  forall ss1, move_snakes W H (alive_snakes (snakes g)) (snakes g) = Ok ss1 ->
    related steady (snakes g) ss1 /\
  forall g2 d2, food_collisions (alive_snakes (snakes g)) draws
                  (set_snakes ss1 (set_move_timer 0 g)) = Ok (g2, d2) ->
    related steady (snakes g) (snakes g2) /\
  forall g3, powerup_collisions (frame_time f) (alive_snakes (snakes g)) g2 = Ok g3 ->
    related steady (snakes g) (snakes g3) /\
  forall g4, snake_collisions (alive_snakes (snakes g)) g3 = Ok g4 ->
    related steady (snakes g) (snakes g4) /\
  forall g5, check_game_over (frame_stamp f) g4 = Ok g5 ->
    related steady (snakes g) (snakes g5).
Proof.
  intros ss1 E1.
  assert (R1 : related steady (snakes g) ss1).
  { apply (related_impl _ _ _ _ (fun s s' '(ex_intro _ b Hb) => move_steady s s' b Hb)
             (move_snakes_related W H _ _ E1)). }
  split; [exact R1|]. intros g2 d2 E2.
  assert (R2 : related steady (snakes g) (snakes g2)).
  { apply (related_trans steady _ ss1); [exact steady_trans | exact R1|].
    exact (food_collisions_steady _ _ _ _ _ E2). }
  split; [exact R2|]. intros g3 E3.
  assert (R3 : related steady (snakes g) (snakes g3)).
  { apply (related_trans steady _ (snakes g2)); [exact steady_trans | exact R2|].
    apply (related_impl (picked (frame_time f))); [exact (picked_steady _)|].
    exact (powerup_collisions_related _ _ _ _ (alive_snakes_NoDup _) E3). }
  split; [exact R3|]. intros g4 E4.
  assert (R4 : related steady (snakes g) (snakes g4)).
  { apply (related_trans steady _ (snakes g3)); [exact steady_trans | exact R3|].
    apply (related_impl only_alive); [exact only_alive_steady|].
    exact (proj2 (snake_collisions_frame _ _ _ E4)). }
  split; [exact R4|]. intros g5 E5.
  rewrite (proj2 (check_game_over_frame _ _ _ E5)). exact R4.
Qed.

Lemma tick_quiet (f : Frame) (draws : list Pos) (g : Game) :
  bodies_nonempty (snakes g) -> snakes g <> [] -> quiet (tick W H f draws g).
Proof.
  intros Hne Hroster. unfold tick.
  change (snakes (set_move_timer 0 g)) with (snakes g).
  destruct (move_snakes_total W H (alive_snakes (snakes g)) (snakes g) Hne) as [ss1 E1].
  destruct (tick_steps_steady f draws g ss1 E1) as [R1 Hsteps].
  apply quiet_bind; [rewrite E1; exact I|]. intros ss E. rewrite E1 in E.
  injection E as <-.
  apply quiet_bind.
  { apply food_collisions_quiet. exact (steady_bodies _ _ R1 Hne). }
  intros [g2 d2] E2. destruct (Hsteps g2 d2 E2) as [R2 Hsteps2].
  apply quiet_bind.
  { apply powerup_collisions_quiet. exact (steady_bodies _ _ R2 Hne). }
  intros g3 E3. destruct (Hsteps2 g3 E3) as [R3 Hsteps3].
  apply quiet_bind.
  { apply snake_collisions_quiet. exact (steady_bodies _ _ R3 Hne). }
  intros g4 E4. destruct (Hsteps3 g4 E4) as [R4 _].
  apply quiet_bind.
  { apply check_game_over_quiet. exact (related_nonempty _ _ _ R4 Hroster). }
  intros g5 _. exact I.
Qed.

Lemma tick_fit (f : Frame) (draws : list Pos) (g g' : Game) (draws' : list Pos) :
  fit g -> tick W H f draws g = Ok (g', draws') -> fit g'.
Proof.
  intros (Hset & Hroster & Hsp & _) E.
  pose proof (tick_settled W H f draws g g' draws' Hset E) as Hset'.
  apply tick_Ok in E. destruct E as (ss1 & g2 & g3 & g4 & E1 & E2 & E3 & E4 & E5).
  destruct (tick_steps_steady f draws g ss1 E1) as [_ Hsteps].
  destruct (Hsteps g2 draws' E2) as [_ Hsteps2].
  destruct (Hsteps2 g3 E3) as [_ Hsteps3].
  destruct (Hsteps3 g4 E4) as [_ Hsteps4].
  pose proof (Hsteps4 g' E5) as R5.
  split; [exact Hset'|]. split; [exact (related_nonempty _ _ _ R5 Hroster)|]. split.
  - apply (Forall_related steady speed_known (snakes g)); [|exact R5|exact Hsp].
    intros s s' [_ Hs]. exact Hs.
  - unfold check_game_over in E5. destruct (existsb alive (snakes g4)) eqn:Ha.
    + injection E5 as <-. intros _. exact Ha.
    + cbn [negb] in E5. intros Hst. exfalso.
      assert (state g' = GAME_OVER) as Hover.
      { cbn [multiplayer set_state snakes] in E5. destruct (multiplayer g4).
        - apply bind_Ok in E5. destruct E5 as (w & _ & E5). injection E5 as <-.
          reflexivity.
        - destruct (snakes g4); [discriminate|]. injection E5 as <-. reflexivity. }
      rewrite Hover in Hst. destruct Hst; discriminate.
Qed.

Lemma pace_not_zero (d : Difficulty) (x : Q) :
  x = 1%Q \/ x = 2%Q \/ x = (1 # 2)%Q ->
  Qeq_bool (inject_Z (speed d) * x) 0 = false.
Proof. intros [-> | [-> | ->]]; destruct d; reflexivity. Qed.

Lemma update_sound (f : Frame) (draws : list Pos) (g : Game) :
  fit g ->
  quiet (update W H f draws g) /\
  forall g' draws', update W H f draws g = Ok (g', draws') -> fit g'.
Proof.
  intros Hfit. unfold update.
  set (t := frame_time f). set (dt := (t - last_update_time g)%Q).
  assert (H1 : fit (set_last_update_time t g)).
  { apply (fit_same g); [reflexivity | reflexivity | tauto | exact Hfit]. }
  set (g1 := set_last_update_time t g) in *.
  destruct (state g1) eqn:Hst;
    try (split; [exact I | intros g' draws' [= <- <-]; exact H1]).
  assert (H2 : fit (set_snakes (List.map (Snake_update dt t) (snakes g1)) g1)).
  { apply (fit_related (fun s s' => s' = Snake_update dt t s) g1);
      [| |reflexivity|tauto|exact H1].
    - intros s s' ->. apply Snake_update_keeps.
    - cbn [snakes set_snakes]. split; [apply length_map|].
      intros k s s' Hk Hk'. rewrite list_lookup_fmap, Hk in Hk'.
      injection Hk' as <-. reflexivity. }
  set (g2 := set_snakes (List.map (Snake_update dt t) (snakes g1)) g1) in *.
  assert (H3 : fit (if powerups (difficulty g2)
                    then set_powerup_manager
                           (PowerUpManager_update dt t (frame_choice f) (frame_cell f)
                              (powerup_manager g2)) g2
                    else g2)).
  { destruct (powerups (difficulty g2)); [|exact H2].
    apply (fit_same g2); [reflexivity | reflexivity | tauto | exact H2]. }
  assert (Hst3 : state (if powerups (difficulty g2)
                        then set_powerup_manager
                               (PowerUpManager_update dt t (frame_choice f)
                                  (frame_cell f) (powerup_manager g2)) g2
                        else g2) = PLAYING).
  { destruct (powerups (difficulty g2)); exact Hst. }
  set (g3 := if powerups (difficulty g2) then _ else g2) in *.
  destruct H3 as (Hset3 & Hroster3 & Hsp3 & Hal3).
  specialize (Hal3 (or_introl Hst3)).
  apply existsb_exists in Hal3. destruct Hal3 as (s0 & Hin0 & Ha0).
  assert (Hin : In (speed_multiplier s0)
                  (List.map speed_multiplier (List.filter alive (snakes g3)))).
  { apply in_map, filter_In. split; assumption. }
  destruct (List.map speed_multiplier (List.filter alive (snakes g3)))
    as [|x rest] eqn:Hl; [destruct Hin|].
  cbn [py_max].
  pose proof (max_from_In (fun x best => Qlt_bool best x) x rest) as Hmax.
  rewrite <- Hl in Hmax. apply in_map_iff in Hmax.
  destruct Hmax as (s1 & Hs1 & Hin1). apply filter_In in Hin1.
  pose proof (proj1 (Forall_forall _ _) Hsp3 s1
                (proj2 (list_elem_of_In _ _) (proj1 Hin1))) as Hknown.
  unfold speed_known in Hknown. rewrite Hs1 in Hknown.
  set (fastest := max_from (fun x best => Qlt_bool best x) x rest) in *.
  change (Ok fastest ≫= ?k) with (k fastest). cbn beta.
  rewrite (pace_not_zero (difficulty g3) fastest Hknown).
  assert (H4 : fit (set_move_timer (move_timer g3 + dt)%Q g3)).
  { apply (fit_same g3); [reflexivity | reflexivity | tauto|].
    split; [exact Hset3|]. split; [exact Hroster3|]. split; [exact Hsp3|].
    intros _. apply existsb_exists. exists s0. split; assumption. }
  set (g4 := set_move_timer (move_timer g3 + dt)%Q g3) in *.
  destruct (Qle_bool _ (move_timer g4)).
  - split.
    + apply tick_quiet; [exact (proj1 (proj1 H4)) | exact (proj1 (proj2 H4))].
    + intros g' draws' E. exact (tick_fit f draws g4 g' draws' H4 E).
  - split; [exact I|]. intros g' draws' [= <- <-]. exact H4.
Qed.

Lemma run_quiet (frames : list (list Event * Frame)) (draws : list Pos) (app : App) :
  sound app -> quiet (run W H frames draws app).
Proof.
  revert draws app. induction frames as [|[events f] frames IH]; intros draws app Hs;
    [exact I|].
  cbn [run]. destruct (handle_events_sound W H events draws app Hs) as [Hq Hnext].
  apply quiet_bind; [exact Hq|]. intros [[app1 d1] go1] E1.
  specialize (Hnext app1 d1 go1 E1). destruct Hnext as [Hfit1 Hm1].
  destruct (update_sound f d1 (game app1) Hfit1) as [Hq2 Hnext2].
  apply quiet_bind; [exact Hq2|]. intros [g2 d2] E2.
  destruct go1; [|exact I]. apply IH. split; [exact (Hnext2 g2 d2 E2) | exact Hm1].
Qed.

Lemma App_init_sound (loaded : HighScoreManager) (now : Q) (draws : list Pos) :
  quiet (App_init W H loaded now draws) /\
  forall app draws', App_init W H loaded now draws = Ok (app, draws') -> sound app.
Proof.
  unfold App_init. split; [apply reset_app_quiet|].
  intros app draws' E. apply reset_app_Ok in E. destruct E as [E Hm].
  split.
  - pose proof (fit_reset W H _ _ _ _ (state (game app)) E) as Hfit.
    destruct (game app); exact Hfit.
  - rewrite Hm. cbn. lia.
Qed.

End TickNoRaise.

(** X20: on a grid of at least one cell the program raises no exception,
    whatever the events, the clock readings and the random draws are:
    [Game.__init__] followed by the main loop over any frames gives a value
    or stops for want of further frames or draws. In particular [max] is
    never taken over an empty sequence of snakes alive, no head of an empty
    body is read, and the move interval is never a division by zero. *)
Theorem program_raises_no_exception (W H : Z) (loaded : HighScoreManager) (now : Q)
    (draws : list Pos) (frames : list (list Event * Frame)) :
  0 < W -> 0 < H ->
  quiet (st ← App_init W H loaded now draws;
         run W H frames (snd st) (fst st)).
Proof.
  intros _ _. destruct (App_init_sound W H loaded now draws) as [Hq Hs].
  apply quiet_bind; [exact Hq|]. intros [app d] E. cbn [fst snd].
  apply run_quiet. exact (Hs app d E).
Qed.

(** X20 for a session on the 60 by 40 grid: a single-player match is
    started from the menu, the snake is turned down, and the program is
    quit. *)
Lemma program_raises_no_exception_witness :
  quiet (st ← App_init GRID_WIDTH GRID_HEIGHT no_scores 0
                [(15, 20); (16, 20); (15, 20); (30, 30)];
         run GRID_WIDTH GRID_HEIGHT
           [([KEYDOWN K_RETURN], mkFrame 1 SHRINK (3, 3) 1);
            ([KEYDOWN K_s], mkFrame 2 SHRINK (3, 3) 2);
            ([QUIT], mkFrame 3 SHRINK (3, 3) 3)]
           (snd st) (fst st)).
Proof.
  apply (program_raises_no_exception GRID_WIDTH GRID_HEIGHT no_scores 0
           [(15, 20); (16, 20); (15, 20); (30, 30)]
           [([KEYDOWN K_RETURN], mkFrame 1 SHRINK (3, 3) 1);
            ([KEYDOWN K_s], mkFrame 2 SHRINK (3, 3) 2);
            ([QUIT], mkFrame 3 SHRINK (3, 3) 3)]); reflexivity.
Defined.

(** ** Invariants of the roster *)

Lemma at_most_killed_refl (s : Snake) : at_most_killed s s.
Proof. left. reflexivity. Qed.

Lemma at_most_killed_trans (x y z : Snake) :
  at_most_killed x y -> at_most_killed y z -> at_most_killed x z.
Proof.
  intros [-> | ->] [-> | ->]; unfold at_most_killed; auto.
Qed.

Lemma collide_at_most_killed (a b : nat) (ss ss' : list Snake) :
  collide a b ss = Ok ss' -> related at_most_killed ss ss'.
Proof.
  unfold collide. destruct (ss !! a) as [s1|] eqn:Ha;
    [|intros [= <-]; apply related_refl; exact at_most_killed_refl].
  destruct (ss !! b) as [s2|];
    [|intros [= <-]; apply related_refl; exact at_most_killed_refl].
  destruct (Qle_bool _ 0);
    [|intros [= <-]; apply related_refl; exact at_most_killed_refl].
  destruct (positions s1) as [|h t]; [discriminate|].
  destruct (mem_pos h _); intros [= <-];
    [|apply related_refl; exact at_most_killed_refl].
  apply (related_insert at_most_killed ss a s1);
    [exact at_most_killed_refl | exact Ha | right; reflexivity].
Qed.

Lemma collide_all_at_most_killed (snapshot : list nat) (ss ss' : list Snake) :
  collide_all snapshot ss = Ok ss' -> related at_most_killed ss ss'.
Proof.
  unfold collide_all. intros E.
  apply (for_each_inv _ (fun x => related at_most_killed ss x) _ _ _) with (3 := E);
    [|apply related_refl; exact at_most_killed_refl].
  intros ia u u' _ Hu Eu.
  apply (for_each_inv _ (fun x => related at_most_killed ss x) _ _ _) with (3 := Eu);
    [|exact Hu].
  intros jb v v' _ Hv Ev. unfold collide_pair in Ev.
  destruct (fst ia =? fst jb)%nat; [injection Ev as <-; exact Hv|].
  apply (related_trans at_most_killed _ v); [exact at_most_killed_trans | exact Hv|].
  exact (collide_at_most_killed _ _ _ _ Ev).
Qed.

Lemma snake_collisions_at_most_killed (snapshot : list nat) (g g' : Game) :
  snake_collisions snapshot g = Ok g' ->
  related at_most_killed (snakes g) (snakes g').
Proof.
  unfold snake_collisions. destruct (_ && _).
  - intros E. apply bind_Ok in E. destruct E as (ss & E & [= <-]).
    exact (collide_all_at_most_killed _ _ _ E).
  - intros [= <-]. apply related_refl. exact at_most_killed_refl.
Qed.

Section TickRelated.

Variables W H : Z.
Variable R : Snake -> Snake -> Prop.

Hypothesis R_refl : forall s, R s s.
Hypothesis R_trans : forall x y z, R x y -> R y z -> R x z.
Hypothesis R_move : forall s s' b, move W H s = Ok (s', b) -> R s s'.
Hypothesis R_fed : forall g s, food_value (food g) = 10 -> R s (fed g s).
Hypothesis R_power : forall ty d t s, R s (add_power_up ty d t s).
Hypothesis R_dead : forall s, R s (set_alive false s).

(** A relation that holds across a move, a pickup of the food, a pickup of
    a power-up and a death holds across the tick, snake by snake. *)
Lemma tick_related (f : Frame) (draws : list Pos) (g g' : Game) (draws' : list Pos) :
  food_value (food g) = 10 ->
  tick W H f draws g = Ok (g', draws') ->
  related R (snakes g) (snakes g').
Proof.
  intros Hval E. apply tick_Ok in E.
  destruct E as (ss1 & g2 & g3 & g4 & E1 & E2 & E3 & E4 & E5).
  assert (R1 : related R (snakes g) ss1).
  { apply (related_impl _ _ _ _ (fun s s' '(ex_intro _ b Hb) => R_move s s' b Hb)
             (move_snakes_related W H _ _ E1)). }
  assert (R2 : related R ss1 (snakes g2)).
  { unfold food_collisions in E2.
    set (g1 := set_snakes ss1 (set_move_timer 0 g)) in *.
    assert (related R (snakes g1) (snakes g2) /\ food_value (food g2) = 10) as [HR _];
      [|exact HR].
    apply (for_each_inv check_food
             (fun st => related R (snakes g1) (snakes (fst st)) /\
                        food_value (food (fst st)) = 10)
             (alive_snakes (snakes g)) (g1, draws) (g2, draws')); [| |exact E2].
    - intros i [ga da] [gb db] _ [Hrel Hv] Ei. cbn [fst] in *.
      apply check_food_Ok in Ei.
      destruct Ei as [(-> & _) | (s & p & Hi & _ & _ & ->)]; [split; assumption|].
      cbn [snakes set_food set_snakes food food_value]. split; [|exact Hv].
      apply (related_trans R _ (snakes ga)); [exact R_trans | exact Hrel|].
      apply (related_insert R _ i s); [exact R_refl | exact Hi|].
      apply R_fed. exact Hv.
    - split; [apply related_refl; exact R_refl | exact Hval]. }
  assert (R3 : related R (snakes g2) (snakes g3)).
  { apply (related_impl (picked (frame_time f)));
      [|exact (powerup_collisions_related _ _ _ _ (alive_snakes_NoDup _) E3)].
    intros s s' [-> | (ty & d & ->)]; [apply R_refl | apply R_power]. }
  assert (R4 : related R (snakes g3) (snakes g4)).
  { apply (related_impl at_most_killed);
      [|exact (snake_collisions_at_most_killed _ _ _ E4)].
    intros s s' [-> | ->]; [apply R_refl | apply R_dead]. }
  rewrite (proj2 (check_game_over_frame _ _ _ E5)).
  apply (related_trans R _ (snakes g3)); [exact R_trans | | exact R4].
  apply (related_trans R _ (snakes g2)); [exact R_trans | | exact R3].
  apply (related_trans R _ ss1); [exact R_trans | exact R1 | exact R2].
Qed.

End TickRelated.

Section ReachableForall.

Variables W H : Z.
Variable P : Snake -> Prop.

Hypothesis P_first : P (Snake_init 1 (W / 4, H / 2)).
Hypothesis P_second : P (set_direction (-1, 0) (Snake_init 2 (3 * W / 4, H / 2))).
Hypothesis P_update : forall dt t s, P s -> P (Snake_update dt t s).
Hypothesis P_turn : forall d s, P s -> P (change_direction d s).
Hypothesis P_move : forall s s' b, move W H s = Ok (s', b) -> P s -> P s'.
Hypothesis P_fed : forall g s, food_value (food g) = 10 -> P s -> P (fed g s).
Hypothesis P_power : forall ty d t s, P s -> P (add_power_up ty d t s).
Hypothesis P_dead : forall s, P s -> P (set_alive false s).

(** A property of a snake that the two fresh snakes have and that every
    step of the program keeps holds for every snake of a reachable game. *)
Lemma reachable_Forall (g : Game) : reachable W H g -> Forall P (snakes g).
Proof.
  induction 1 as [g draws g' draws' E | g st _ IH | g t _ IH | g t _ IH
                 | g dt t _ IH | g dt t choice cell _ IH | g i snake d _ IH Hi
                 | g f draws g' draws' Hr IH E].
  - apply reset_game_keeps in E. destruct E as (_ & _ & _ & _ & _ & -> & _).
    destruct (multiplayer g); repeat constructor; assumption.
  - exact IH.
  - exact IH.
  - exact IH.
  - cbn [snakes set_snakes]. apply Forall_fmap. eapply Forall_impl; [exact IH|].
    intros s Hs. apply P_update. exact Hs.
  - exact IH.
  - cbn [snakes set_snakes]. apply Forall_insert; [exact IH|].
    apply P_turn. exact (Forall_lookup_1 _ _ _ _ IH Hi).
  - pose proof (reachable_settled W H g Hr) as (_ & _ & Hval).
    apply (Forall_related (fun s s' => P s -> P s') P (snakes g)); [tauto| |exact IH].
    apply (tick_related W H (fun s s' => P s -> P s')) with (7 := Hval) (8 := E);
      eauto.
Qed.

End ReachableForall.

Lemma move_fields (W H : Z) (s s' : Snake) (b : bool) :
  move W H s = Ok (s', b) ->
  power_ups s' = power_ups s /\ wall_phase s' = wall_phase s /\
  speed_multiplier s' = speed_multiplier s /\ score s' = score s /\
  invulnerable_time s' = invulnerable_time s /\ direction s' = direction s /\
  player_id s' = player_id s.
Proof.
  intros E. unfold move in E.
  destruct (negb (alive s)); [injection E as <- _; repeat split; reflexivity|].
  destruct (positions s) as [|[hx hy] rest]; [discriminate|].
  assert (Hto : forall p,
            power_ups (fst (move_to p s)) = power_ups s /\
            wall_phase (fst (move_to p s)) = wall_phase s /\
            speed_multiplier (fst (move_to p s)) = speed_multiplier s /\
            score (fst (move_to p s)) = score s /\
            invulnerable_time (fst (move_to p s)) = invulnerable_time s /\
            direction (fst (move_to p s)) = direction s /\
            player_id (fst (move_to p s)) = player_id s).
  { intros p. unfold move_to. destruct (_ && _); [cbn; tauto|].
    destruct (0 <? grow_pending s); cbn; tauto. }
  destruct (negb (wall_phase s)).
  - destruct (off_grid _ _ _); [injection E as <- _; cbn; tauto|].
    injection E as E. replace s' with (fst (move_to (hx + fst (direction s),
                                                    hy + snd (direction s)) s))
      by (rewrite E; reflexivity).
    apply Hto.
  - injection E as E. cbn [fst snd] in E.
    replace s' with (fst (move_to ((hx + fst (direction s)) mod W,
                                   (hy + snd (direction s)) mod H) s))
      by (rewrite E; reflexivity).
    apply Hto.
Qed.

Lemma fresh_cells_on_grid (W H : Z) :
  0 < W -> 0 < H -> in_grid W H (W / 4, H / 2) /\ in_grid W H (3 * W / 4, H / 2).
Proof.
  intros HW HH. unfold in_grid. cbn [fst snd].
  assert (0 <= W / 4) by (apply Z.div_pos; lia).
  assert (W / 4 < W) by (apply Z.div_lt_upper_bound; lia).
  assert (0 <= H / 2) by (apply Z.div_pos; lia).
  assert (H / 2 < H) by (apply Z.div_lt_upper_bound; lia).
  assert (0 <= 3 * W / 4) by (apply Z.div_pos; lia).
  assert (3 * W / 4 < W) by (apply Z.div_lt_upper_bound; lia).
  lia.
Qed.

(** X21: in every reachable state of a game on a grid of at least one cell,
    every cell of every body lies on the grid: no move, wrap, shrink or
    restart puts a snake off the board. *)
Theorem reachable_bodies_on_grid (W H : Z) (g : Game) :
  0 < W -> 0 < H -> reachable W H g ->
  Forall (fun s => Forall (in_grid W H) (positions s)) (snakes g).
Proof.
  intros HW HH. destruct (fresh_cells_on_grid W H HW HH) as [H1 H2].
  apply reachable_Forall.
  - cbn [positions Snake_init]. constructor; [exact H1 | constructor].
  - cbn [positions Snake_init set_direction]. constructor; [exact H2 | constructor].
  - intros dt t s Hs. rewrite Snake_update_positions. exact Hs.
  - intros d s Hs. rewrite change_direction_positions. exact Hs.
  - intros s s' b E Hs. exact (move_on_grid W H s s' b HW HH Hs E).
  - intros g0 s _ Hs. exact Hs.
  - intros ty d t s Hs.
    destruct (add_power_up_effect ty d t s) as (_ & _ & [-> | (_ & _ & ->)]);
      [exact Hs | apply Forall_take; exact Hs].
  - intros s Hs. exact Hs.
Qed.

(** X21 at the match [started]. *)
Lemma reachable_bodies_on_grid_witness :
  Forall (fun s => Forall (in_grid GRID_WIDTH GRID_HEIGHT) (positions s))
    (snakes started).
Proof.
  apply (reachable_bodies_on_grid GRID_WIDTH GRID_HEIGHT started);
    [reflexivity | reflexivity | exact started_reachable].
Defined.

Lemma add_power_up_backed (ty : PowerUpType) (d t : Q) (s : Snake) :
  effects_backed s -> effects_backed (add_power_up ty d t s).
Proof.
  unfold effects_backed, holds, speed_known, add_power_up.
  destruct s as [pid ps dir gp sc al pu inv sp wp].
  cbn [set_power_ups speed_multiplier wall_phase power_ups positions].
  intros (Hw & Hb & Hs & Hk).
  destruct ty; try destruct (3 <? length ps)%nat;
    cbn [set_power_ups set_speed_multiplier speed_multiplier wall_phase power_ups
         set_invulnerable_time set_wall_phase set_positions positions];
    rewrite ?lookup_insert_eq;
    rewrite ?lookup_insert_ne by discriminate;
    repeat split; auto; try tauto; try discriminate.
Qed.

Lemma Snake_update_backed (dt t : Q) (s : Snake) :
  effects_backed s -> effects_backed (Snake_update dt t s).
Proof.
  unfold effects_backed, holds, speed_known. intros (Hw & Hb & Hs & Hk).
  destruct (Snake_update_power_ups dt t s) as [Hlook _].
  destruct (Snake_update_effects dt t s) as [-> ->].
  rewrite !Hlook.
  assert (He : forall k, expired t s k = true -> holds s k = true).
  { intros k. unfold expired, holds. destruct (power_ups s !! k); congruence. }
  unfold holds in He.
  destruct (expired t s WALL_PHASE) eqn:E1, (expired t s SPEED_BOOST) eqn:E2,
    (expired t s SLOW_DOWN) eqn:E3; cbn [orb];
    repeat split; auto; try tauto; try discriminate.
Qed.

(** X22: in every reachable state the flags of a snake are backed by the
    power-ups it holds: the wall phase is on exactly while a wall-phase
    power-up is held, a speed multiplier of 2 needs a held speed boost, one
    of 1/2 a held slow-down, and there is no other multiplier than 1, 2 and
    1/2. *)
Theorem reachable_effects_are_backed (W H : Z) (g : Game) :
  reachable W H g -> Forall effects_backed (snakes g).
Proof.
  apply reachable_Forall.
  - unfold effects_backed, holds, speed_known. cbn. repeat split; auto; discriminate.
  - unfold effects_backed, holds, speed_known. cbn. repeat split; auto; discriminate.
  - intros dt t s. apply Snake_update_backed.
  - intros d s. unfold change_direction. destruct (pos_eqb _ _); trivial.
  - intros s s' b E. apply move_fields in E.
    destruct E as (Hp & Hw & Hs & _). unfold effects_backed, holds, speed_known.
    rewrite Hp, Hw, Hs. trivial.
  - intros g0 s _ Hs. exact Hs.
  - intros ty d t s. apply add_power_up_backed.
  - intros s Hs. exact Hs.
Qed.

(** X22 at the match [started]. *)
Lemma reachable_effects_are_backed_witness :
  Forall effects_backed (snakes started).
Proof.
  apply (reachable_effects_are_backed GRID_WIDTH GRID_HEIGHT started).
  exact started_reachable.
Defined.

(** ** What a tick does to a snake *)

Lemma check_food_local (i : nat) (st st' : Game * list Pos) :
  check_food i st = Ok st' ->
  forall k s, snakes (fst st) !! k = Some s ->
    exists s', snakes (fst st') !! k = Some s' /\
      (k <> i -> s' = s) /\ (k = i -> True).
Proof.
  destruct st as [g d], st' as [g' d']. intros E k s Hk. cbn [fst] in *.
  apply check_food_Ok in E.
  destruct E as [(-> & _) | (s0 & p & Hi & _ & _ & ->)]; [eauto|].
  cbn [snakes set_food set_snakes].
  destruct (decide (k = i)) as [-> | Hne].
  - exists (fed g s0). rewrite list_lookup_insert_eq by (eapply lookup_lt_Some; exact Hi).
    split; [reflexivity|]. split; [congruence | trivial].
  - exists s. rewrite list_lookup_insert_ne by congruence. split; [exact Hk|]. tauto.
Qed.

Lemma set_alive_false_dead (s : Snake) : alive s = false -> set_alive false s = s.
Proof. destruct s. cbn. intros ->. reflexivity. Qed.

Lemma tick_dead_untouched (W H : Z) (f : Frame) (draws : list Pos) (g g' : Game)
    (draws' : list Pos) :
  tick W H f draws g = Ok (g', draws') ->
  forall k s, snakes g !! k = Some s -> alive s = false -> snakes g' !! k = Some s.
Proof.
  intros E k s Hk Ha. apply tick_Ok in E.
  destruct E as (ss1 & g2 & g3 & g4 & E1 & E2 & E3 & E4 & E5).
  assert (Hout : ~ In k (alive_snakes (snakes g))).
  { rewrite alive_snakes_In. intros (s0 & Hs0 & Ha0). congruence. }
  pose proof (alive_snakes_NoDup (snakes g)) as Hnd.
  assert (H1 : ss1 !! k = Some s).
  { destruct (for_each_index (fun ss => ss) (move_at W H)
                (fun s s' => exists b, move W H s = Ok (s', b))
                (move_at_local W H) _ _ _ Hnd E1 k s Hk) as (s1 & Hk1 & Hsame & _).
    rewrite Hk1, (Hsame Hout). reflexivity. }
  assert (H2 : snakes g2 !! k = Some s).
  { unfold food_collisions in E2.
    destruct (for_each_index (fun st => snakes (fst st)) check_food
                (fun _ _ => True) check_food_local _ _ _ Hnd E2 k s H1)
      as (s2 & Hk2 & Hsame & _).
    cbn [fst] in Hk2. rewrite Hk2, (Hsame Hout). reflexivity. }
  assert (H3 : snakes g3 !! k = Some s).
  { destruct (powerup_collisions_spec _ _ _ _ Hnd E3) as (_ & _ & Hspec).
    destruct (Hspec k s H2) as (s3 & Hk3 & [-> | (_ & Hin & _)]); [exact Hk3|].
    destruct (Hout Hin). }
  assert (H4 : snakes g4 !! k = Some s).
  { pose proof (snake_collisions_at_most_killed _ _ _ E4) as Hrel.
    destruct (related_lookup _ _ _ k s Hrel H3) as (s4 & Hk4 & [-> | ->]);
      [exact Hk4|].
    rewrite Hk4, (set_alive_false_dead s Ha). reflexivity. }
  rewrite (proj2 (check_game_over_frame _ _ _ E5)). exact H4.
Qed.

(** X23: a tick leaves a snake that is not alive at its start exactly as it
    is: it is not moved, collects neither food nor power-ups, and its score,
    body and flags stay as they were. *)
Theorem tick_leaves_dead_snakes_untouched (W H : Z) (f : Frame) (draws : list Pos)
    (g g' : Game) (draws' : list Pos) (k : nat) (s : Snake) :
  tick W H f draws g = Ok (g', draws') ->
  snakes g !! k = Some s -> alive s = false ->
  snakes g' !! k = Some s.
Proof.
  intros E. exact (tick_dead_untouched W H f draws g g' draws' E k s).
Qed.

(** X23 for the dead second snake of [one_down]. *)
Lemma tick_leaves_dead_snakes_untouched_witness :
  snakes one_down_next !! 1%nat = Some (set_alive false (Snake_init 2 (6, 6))).
Proof.
  apply (tick_leaves_dead_snakes_untouched GRID_WIDTH GRID_HEIGHT
           (mkFrame 1 SHRINK (3, 3) 1) [] one_down one_down_next [] 1%nat
           (set_alive false (Snake_init 2 (6, 6)))).
  - vm_compute. reflexivity.
  - reflexivity.
  - reflexivity.
Defined.

Lemma add_power_up_fields (ty : PowerUpType) (d t : Q) (s : Snake) :
  score (add_power_up ty d t s) = score s /\
  alive (add_power_up ty d t s) = alive s /\
  player_id (add_power_up ty d t s) = player_id s /\
  direction (add_power_up ty d t s) = direction s /\
  grow_pending (add_power_up ty d t s) = grow_pending s.
Proof.
  unfold add_power_up. destruct s as [pid ps dir gp sc al pu inv sp wp].
  destruct ty; cbn [set_power_ups positions]; try destruct (3 <? length ps)%nat;
    cbn; repeat split; reflexivity.
Qed.

Lemma food_points_nonnegative (g : Game) (s : Snake) :
  food_value (food g) = 10 -> 0 <= food_points g s.
Proof.
  intros Hv. unfold food_points. rewrite Hv.
  assert (0 <= py_int (inject_Z 10 * multiplier (difficulty g))%Q) as Hp.
  { destruct (difficulty g); vm_compute; discriminate. }
  destruct (power_ups s !! DOUBLE_POINTS); lia.
Qed.

(** X24: over a tick of the running program no score goes down, no snake
    comes back to life, and the number, the order and the player ids of the
    snakes stay as they are. *)
Theorem tick_never_lowers_a_score (W H : Z) (f : Frame) (draws : list Pos)
    (g g' : Game) (draws' : list Pos) :
  reachable W H g ->
  tick W H f draws g = Ok (g', draws') ->
  related (fun s s' => score s <= score s' /\ (alive s' = true -> alive s = true) /\
                       player_id s' = player_id s)
    (snakes g) (snakes g').
Proof.
  intros Hr E. pose proof (reachable_settled W H g Hr) as (_ & _ & Hval).
  apply (tick_related W H) with (7 := Hval) (8 := E).
  - intros s. split; [lia | tauto].
  - intros x y z (A1 & A2 & A3) (B1 & B2 & B3). split; [lia|]. split; [tauto | congruence].
  - intros s s' b Em. pose proof (move_fields W H s s' b Em) as (_ & _ & _ & Hs & _ & _ & Hp).
    split; [lia|]. split; [|exact Hp]. intros Ha'.
    destruct (alive s) eqn:Ha; [reflexivity|].
    rewrite (move_dead W H s Ha) in Em. injection Em as <- _. congruence.
  - intros g0 s Hv. pose proof (food_points_nonnegative g0 (grow 2 s) Hv).
    unfold fed. cbn [score set_score grow set_grow_pending alive player_id] in *.
    split; [lia|]. split; [tauto | reflexivity].
  - intros ty d t s. destruct (add_power_up_fields ty d t s) as (Hs & Ha & Hp & _).
    rewrite Hs, Ha, Hp. split; [lia | tauto].
  - intros s. cbn. split; [lia|]. split; [discriminate | reflexivity].
Qed.

(** X24 for the first tick of [started], in which the snake eats. *)
Lemma tick_never_lowers_a_score_witness :
  related (fun s s' => score s <= score s' /\ (alive s' = true -> alive s = true) /\
                       player_id s' = player_id s)
    (snakes started) (snakes started_next).
Proof.
  apply (tick_never_lowers_a_score GRID_WIDTH GRID_HEIGHT (mkFrame 1 SHRINK (0, 0) 1)
           [(3, 3)] started started_next []).
  - exact started_reachable.
  - vm_compute. reflexivity.
Defined.

(** ** The board of power-ups *)

Lemma check_collision_shrinks (p : Pos) (l : list PowerUp) :
  (length (snd (check_collision p l)) <= length l)%nat /\
  forall x, In x (snd (check_collision p l)) -> In x l.
Proof.
  induction l as [|y l [IHl IHi]]; cbn [check_collision];
    [cbn; split; [lia | tauto]|].
  destruct (pos_eqb (pu_position y) p).
  - cbn [snd length]. split; [lia|]. intros x Hx. right. exact Hx.
  - destruct (check_collision p l) as [found rest]. cbn [snd length] in *.
    split; [lia|]. intros x [<- | Hx]; [left; reflexivity | right; exact (IHi x Hx)].
Qed.

Lemma board_shrinks_refl (pm : PowerUpManager) : board_shrinks pm pm.
Proof. split; [lia|]. split; [tauto | reflexivity]. Qed.

Lemma board_shrinks_trans (a b c : PowerUpManager) :
  board_shrinks a b -> board_shrinks b c -> board_shrinks a c.
Proof.
  intros (A1 & A2 & A3) (B1 & B2 & B3). split; [lia|]. split; [auto | congruence].
Qed.

Lemma check_powerup_board (t : Q) (i : nat) (g g' : Game) :
  check_powerup t i g = Ok g' ->
  board_shrinks (powerup_manager g) (powerup_manager g').
Proof.
  unfold check_powerup. destruct (snakes g !! i) as [s|];
    [|intros [= <-]; apply board_shrinks_refl].
  destruct (positions s) as [|h tl]; [discriminate|].
  pose proof (check_collision_shrinks h (active_powerups (powerup_manager g))) as Hs.
  destruct (check_collision h _) as [[pu|] rest]; intros [= <-];
    [|apply board_shrinks_refl].
  cbn [snd] in Hs. destruct Hs as [Hl Hi]. split; [exact Hl|]. split; [exact Hi|].
  reflexivity.
Qed.

Lemma tick_board (W H : Z) (f : Frame) (draws : list Pos) (g g' : Game)
    (draws' : list Pos) :
  tick W H f draws g = Ok (g', draws') ->
  board_shrinks (powerup_manager g) (powerup_manager g').
Proof.
  intros E. apply tick_Ok in E.
  destruct E as (ss1 & g2 & g3 & g4 & E1 & E2 & E3 & E4 & E5).
  pose proof (food_collisions_frame _ _ _ _ _ E2) as (_ & _ & _ & _ & P2 & _).
  cbn [powerup_manager set_snakes set_move_timer] in P2.
  assert (P3 : board_shrinks (powerup_manager g2) (powerup_manager g3)).
  { unfold powerup_collisions in E3. destruct (powerups (difficulty g2));
      [|injection E3 as <-; apply board_shrinks_refl].
    apply (for_each_inv (check_powerup (frame_time f))
             (fun x => board_shrinks (powerup_manager g2) (powerup_manager x))
             (alive_snakes (snakes g)) g2 g3); [| apply board_shrinks_refl | exact E3].
    intros i u u' _ Hu Eu. apply (board_shrinks_trans _ (powerup_manager u)); [exact Hu|].
    exact (check_powerup_board _ _ _ _ Eu). }
  assert (P4 : powerup_manager g4 = powerup_manager g3).
  { unfold snake_collisions in E4. destruct (_ && _); [|injection E4 as <-; reflexivity].
    apply bind_Ok in E4. destruct E4 as (ss & _ & [= <-]). reflexivity. }
  assert (P5 : powerup_manager g' = powerup_manager g4).
  { unfold check_game_over in E5. destruct (negb _); [|injection E5 as <-; reflexivity].
    cbn [multiplayer set_state snakes] in E5. destruct (multiplayer g4).
    - apply bind_Ok in E5. destruct E5 as (w & _ & [= <-]). reflexivity.
    - destruct (snakes g4); [discriminate|]. injection E5 as <-. reflexivity. }
  rewrite P5, P4, <- P2. exact P3.
Qed.

Lemma PowerUpManager_update_board (dt t : Q) (choice : PowerUpType) (cell : Pos)
    (pm : PowerUpManager) :
  board_kept pm -> board_kept (PowerUpManager_update dt t choice cell pm).
Proof.
  intros (Hl & Hf & Hi). unfold PowerUpManager_update, spawn_powerup, board_kept.
  cbn [active_powerups spawn_interval spawn_timer].
  set (kept := List.filter _ (active_powerups pm)).
  assert (Hk : (length kept <= 3)%nat).
  { pose proof (filter_length_le (fun p => Qlt_bool (t - pu_spawn_time p)%Q 15)
                  (active_powerups pm)). fold kept in H. lia. }
  assert (Hkf : Forall (fun p => pu_duration p = 5%Q /\
                                 pu_color p = color_map (pu_type p)) kept).
  { apply Forall_forall. intros p Hp. apply list_elem_of_In, filter_In in Hp.
    rewrite Forall_forall in Hf. apply Hf, list_elem_of_In. tauto. }
  destruct (Qlt_bool _ _ && (length kept <? 3)%nat) eqn:Hc;
    cbn [active_powerups spawn_interval].
  - apply andb_true_iff in Hc. destruct Hc as [_ Hc]. apply Nat.ltb_lt in Hc.
    split; [rewrite length_app; cbn; lia|]. split; [|exact Hi].
    apply Forall_app. split; [exact Hkf|]. repeat constructor.
  - split; [exact Hk|]. split; [exact Hkf | exact Hi].
Qed.

(** X25: in every reachable state at most 3 power-ups lie on the board,
    each of them lasts 5 seconds once picked up and has the colour of its
    type, and the spawn interval is 10 seconds. *)
Theorem reachable_board_holds_at_most_three (W H : Z) (g : Game) :
  reachable W H g -> board_kept (powerup_manager g).
Proof.
  induction 1 as [g draws g' draws' E | g st _ IH | g t _ IH | g t _ IH
                 | g dt t _ IH | g dt t choice cell _ IH | g i snake d _ IH Hi
                 | g f draws g' draws' Hr IH E]; try exact IH.
  - apply reset_game_keeps in E. destruct E as (_ & _ & _ & _ & _ & _ & -> & _).
    split; [cbn; lia|]. split; [constructor | reflexivity].
  - cbn [powerup_manager set_powerup_manager]. apply PowerUpManager_update_board.
    exact IH.
  - destruct (tick_board W H f draws g g' draws' E) as (Hl & Hin & Hint).
    destruct IH as (A & B & C). split; [lia|]. split; [|congruence].
    apply Forall_forall. intros p Hp. rewrite Forall_forall in B.
    apply B, list_elem_of_In, Hin, list_elem_of_In. exact Hp.
Qed.

(** X25 at the match [started]. *)
Lemma reachable_board_holds_at_most_three_witness :
  board_kept (powerup_manager started).
Proof.
  apply (reachable_board_holds_at_most_three GRID_WIDTH GRID_HEIGHT started).
  exact started_reachable.
Defined.

(** ** The roster and the mode *)

Lemma related_player_ids (ss ss' : list Snake) :
  related (fun s s' => player_id s' = player_id s) ss ss' ->
  List.map player_id ss' = List.map player_id ss.
Proof.
  intros [L Hrel]. apply list_eq. intros k.
  change (List.map player_id ss') with (player_id <$> ss').
  change (List.map player_id ss) with (player_id <$> ss).
  rewrite !list_lookup_fmap.
  destruct (ss !! k) as [s|] eqn:Hk, (ss' !! k) as [s'|] eqn:Hk'; cbn.
  - rewrite (Hrel k s s' Hk Hk'). reflexivity.
  - apply lookup_ge_None in Hk'. apply lookup_lt_Some in Hk. lia.
  - apply lookup_ge_None in Hk. apply lookup_lt_Some in Hk'. lia.
  - reflexivity.
Qed.

Lemma tick_multiplayer (W H : Z) (f : Frame) (draws : list Pos) (g g' : Game)
    (draws' : list Pos) :
  tick W H f draws g = Ok (g', draws') -> multiplayer g' = multiplayer g.
Proof.
  intros E. apply tick_Ok in E.
  destruct E as (ss1 & g2 & g3 & g4 & E1 & E2 & E3 & E4 & E5).
  pose proof (food_collisions_frame _ _ _ _ _ E2) as (_ & _ & _ & M2 & _).
  pose proof (powerup_collisions_spec _ _ _ _ (alive_snakes_NoDup _) E3)
    as ((_ & _ & M3) & _).
  pose proof (snake_collisions_frame _ _ _ E4) as ((_ & _ & M4) & _).
  pose proof (check_game_over_frame _ _ _ E5) as ((_ & _ & M5) & _).
  cbn [multiplayer set_snakes set_move_timer] in M2. congruence.
Qed.

(** X26: in every reachable state the roster holds player 1 alone in
    single-player mode and players 1 and 2, in this order, in multiplayer
    mode: no step adds, drops or reorders snakes. *)
Theorem reachable_roster_matches_the_mode (W H : Z) (g : Game) :
  reachable W H g ->
  List.map player_id (snakes g) = if multiplayer g then [1; 2] else [1].
Proof.
  induction 1 as [g draws g' draws' E | g st _ IH | g t _ IH | g t _ IH
                 | g dt t _ IH | g dt t choice cell _ IH | g i snake d _ IH Hi
                 | g f draws g' draws' Hr IH E]; try exact IH.
  - apply reset_game_keeps in E. destruct E as (_ & _ & -> & _ & _ & -> & _).
    destruct (multiplayer g); reflexivity.
  - cbn [snakes set_snakes multiplayer]. rewrite <- IH.
    apply related_player_ids. split; [apply length_map|].
    intros k s s' Hk Hk'. rewrite list_lookup_fmap, Hk in Hk'. injection Hk' as <-.
    destruct (Snake_update_power_ups dt t s) as [_ (Hp & _)]. exact Hp.
  - cbn [snakes set_snakes multiplayer]. rewrite <- IH.
    apply related_player_ids.
    apply (related_insert _ _ i snake); [reflexivity | exact Hi|].
    unfold change_direction. destruct (pos_eqb _ _); reflexivity.
  - rewrite (tick_multiplayer W H f draws g g' draws' E), <- IH.
    apply related_player_ids.
    pose proof (reachable_settled W H g Hr) as (_ & _ & Hval).
    apply (tick_related W H) with (7 := Hval) (8 := E).
    + reflexivity.
    + intros x y z A B. congruence.
    + intros s s' b Em. apply move_fields in Em. tauto.
    + reflexivity.
    + intros ty d t s. apply add_power_up_fields.
    + reflexivity.
Qed.

(** X26 at the match [started]. *)
Lemma reachable_roster_matches_the_mode_witness :
  List.map player_id (snakes started) = if multiplayer started then [1; 2] else [1].
Proof.
  apply (reachable_roster_matches_the_mode GRID_WIDTH GRID_HEIGHT started).
  exact started_reachable.
Defined.

(** ** The food lies under no snake *)

Lemma in_tail {A : Type} (x : A) (l : list A) : In x (tail l) -> In x l.
Proof. destruct l; [intros [] | intros Hx; right; exact Hx]. Qed.

Lemma move_tail (W H : Z) (s s' : Snake) (b : bool) :
  move W H s = Ok (s', b) ->
  forall p, In p (tail (positions s')) -> In p (positions s).
Proof.
  intros E p Hp. destruct (alive s) eqn:Ha.
  - destruct (positions s) as [|[hx hy] rest] eqn:Hps.
    { unfold move in E. rewrite Ha, Hps in E. discriminate. }
    rewrite <- Hps. destruct b.
    + destruct (move_survived_body W H s s' hx hy rest Ha Hps E) as (_ & _ & Hbody).
      destruct Hbody as [Hb | Hb]; rewrite Hb in Hp.
      * exact Hp.
      * rewrite Hps in Hp.
        change (removelast (target W H s hx hy :: (hx, hy) :: rest))
          with (target W H s hx hy :: removelast ((hx, hy) :: rest)) in Hp.
        cbn [tail] in Hp. rewrite Hps. exact (in_removelast _ _ Hp).
    + assert (positions s <> []) as Hne by (rewrite Hps; discriminate).
      destruct (move_alive W H s Ha Hne) as (s2 & b2 & E2 & Hcase).
      rewrite E in E2. injection E2 as <- <-.
      destruct Hcase as [[_ ->] | (Hb & _)]; [|discriminate].
      apply in_tail. exact Hp.
  - rewrite (move_dead W H s Ha) in E. injection E as <- _. apply in_tail. exact Hp.
Qed.

Lemma food_off_bodies_related (R : Snake -> Snake -> Prop) (g g' : Game) :
  (forall s s', R s s' -> forall p, In p (positions s') -> In p (positions s)) ->
  related R (snakes g) (snakes g') -> food g' = food g ->
  food_off_bodies g -> food_off_bodies g'.
Proof.
  intros HR Hrel Hfood Hoff. unfold food_off_bodies in *. rewrite Hfood.
  apply Forall_lookup_2. intros k s' Hk'.
  destruct (related_lookup_r _ _ _ _ _ Hrel Hk') as (s & Hk & Hs).
  intros Hin. apply (Forall_lookup_1 _ _ _ _ Hoff Hk). exact (HR s s' Hs _ Hin).
Qed.

(** The food loop, started with the food under no tail and under no head of
    a snake outside the indices still to be visited, ends with the food
    under no snake. *)
Lemma food_loop_off_bodies (l : list nat) (g : Game) (draws : list Pos) (g' : Game)
    (draws' : list Pos) :
  (forall k s, snakes g !! k = Some s ->
     ~ In (food_position (food g)) (tail (positions s)) /\
     (~ In k l -> ~ In (food_position (food g)) (positions s))) ->
  for_each check_food l (g, draws) = Ok (g', draws') ->
  food_off_bodies g'.
Proof.
  revert g draws. induction l as [|i l IH]; intros g draws Hinv E.
  - injection E as <- _. apply Forall_lookup_2. intros k s Hk.
    apply (Hinv k s Hk). intros [].
  - apply for_each_cons in E. destruct E as ([g1 d1] & E1 & E).
    apply (IH g1 d1); [|exact E]. apply check_food_Ok in E1.
    destruct E1 as [(-> & _ & Hhead) | (s0 & p & Hi & _ & Hfree & ->)].
    + intros k s Hk. destruct (Hinv k s Hk) as [Htail Hout]. split; [exact Htail|].
      intros Hkl. destruct (decide (k = i)) as [-> | Hne].
      * destruct (Hhead s Hk) as [_ Hh].
        destruct (positions s) as [|h t]; [intros []|].
        intros [-> | Hin]; [apply Hh; reflexivity | exact (Htail Hin)].
      * apply Hout. intros [-> | Hin]; [exact (Hne eq_refl) | exact (Hkl Hin)].
    + cbn [snakes food food_position set_food set_snakes].
      intros k s Hk.
      assert (~ In p (positions s)) as Hp.
      { destruct (decide (k = i)) as [-> | Hne].
        - rewrite list_lookup_insert_eq in Hk by (eapply lookup_lt_Some; exact Hi).
          injection Hk as <-. exact (Hfree i s0 Hi).
        - rewrite list_lookup_insert_ne in Hk by congruence. exact (Hfree k s Hk). }
      split; [|intros _; exact Hp]. intros Hin. apply Hp, in_tail. exact Hin.
Qed.

Lemma tick_food_off_bodies (W H : Z) (f : Frame) (draws : list Pos) (g g' : Game)
    (draws' : list Pos) :
  food_off_bodies g -> tick W H f draws g = Ok (g', draws') -> food_off_bodies g'.
Proof.
  intros Hoff E. apply tick_Ok in E.
  destruct E as (ss1 & g2 & g3 & g4 & E1 & E2 & E3 & E4 & E5).
  assert (H2 : food_off_bodies g2).
  { apply (food_loop_off_bodies _ _ _ _ _) with (2 := E2).
    cbn [snakes food set_snakes set_move_timer]. intros k s1 Hk1.
    destruct (related_lookup_r _ _ _ _ _ (move_snakes_related W H _ _ E1) Hk1)
      as (s & Hk & b & Hm).
    pose proof (Forall_lookup_1 _ _ _ _ Hoff Hk) as Hs. cbn beta in Hs. split.
    - intros Hin. apply Hs. exact (move_tail W H s s1 b Hm _ Hin).
    - intros Hout. assert (alive s = false) as Ha.
      { destruct (alive s) eqn:Ha; [|reflexivity]. exfalso. apply Hout.
        apply alive_snakes_In. eauto. }
      rewrite (move_dead W H s Ha) in Hm. injection Hm as <- _. exact Hs. }
  pose proof (powerup_collisions_spec _ _ _ _ (alive_snakes_NoDup _) E3)
    as ((F3 & _) & _).
  assert (H3 : food_off_bodies g3).
  { apply (food_off_bodies_related (picked (frame_time f)) g2);
      [|exact (powerup_collisions_related _ _ _ _ (alive_snakes_NoDup _) E3)
       |exact F3|exact H2].
    intros s s' [-> | (ty & d & ->)] p Hp; [exact Hp|].
    destruct (add_power_up_effect ty d (frame_time f) s)
      as (_ & _ & [Hsame | (_ & _ & Hcut)]).
    - rewrite <- Hsame. exact Hp.
    - rewrite Hcut in Hp. apply list_elem_of_In in Hp. apply list_elem_of_In.
      exact (subseteq_take _ _ _ Hp). }
  pose proof (snake_collisions_frame _ _ _ E4) as ((F4 & _) & R4).
  assert (H4 : food_off_bodies g4).
  { apply (food_off_bodies_related only_alive g3); [|exact R4|exact F4|exact H3].
    intros s s' Hs p Hp. apply only_alive_fields in Hs. destruct Hs as [<- _].
    exact Hp. }
  pose proof (check_game_over_frame _ _ _ E5) as ((F5 & _) & S5).
  unfold food_off_bodies. rewrite F5, S5. exact H4.
Qed.

(** X27: in every reachable state the food lies under no cell of any snake,
    head or body, alive or not. *)
Theorem reachable_food_under_no_snake (W H : Z) (g : Game) :
  reachable W H g -> food_off_bodies g.
Proof.
  induction 1 as [g draws g' draws' E | g st _ IH | g t _ IH | g t _ IH
                 | g dt t _ IH | g dt t choice cell _ IH | g i snake d _ IH Hi
                 | g f draws g' draws' Hr IH E]; try exact IH.
  - unfold reset_game in E. apply bind_Ok in E.
    destruct E as ([new_food d1] & _ & E).
    apply respawn_food_Ok in E. destruct E as (p & _ & Hfree & ->).
    rewrite occupied_false in Hfree.
    unfold food_off_bodies. cbn [snakes food food_position set_food] in *.
    apply Forall_forall. intros s Hs. apply Hfree, list_elem_of_In. exact Hs.
  - apply (food_off_bodies_related (fun s s' => positions s' = positions s) g);
      [| |reflexivity|exact IH].
    + intros s s' -> p Hp. exact Hp.
    + cbn [snakes set_snakes]. split; [apply length_map|].
      intros k s s' Hk Hk'. rewrite list_lookup_fmap, Hk in Hk'.
      injection Hk' as <-. apply Snake_update_positions.
  - apply (food_off_bodies_related (fun s s' => positions s' = positions s) g);
      [| |reflexivity|exact IH].
    + intros s s' -> p Hp. exact Hp.
    + cbn [snakes set_snakes].
      apply (related_insert _ _ i snake); [reflexivity | exact Hi|].
      apply change_direction_positions.
  - exact (tick_food_off_bodies W H f draws g g' draws' IH E).
Qed.

(** X27 at the match [started]. *)
Lemma reachable_food_under_no_snake_witness : food_off_bodies started.
Proof.
  apply (reachable_food_under_no_snake GRID_WIDTH GRID_HEIGHT started).
  exact started_reachable.
Defined.

(** ** Pause *)


